(** * FIFO lot matching and IRPF estimates

    Shallow embedding of [calculator_crypto/logic/tax_calculator.py]:
    [calcular_fifo], [calcular_irpf_ingresos] and [calcular_irpf_ganancias];
    of the symbol and currency helpers and the Koinly transformer of
    [calculator_crypto/logic/_legacy_transformers_adapted.py]; and of
    [extraer_cuota] and the net gain of [main] in [calculator_crypto/app.py].

    Numbers.  The source computes on Python floats.  They are embedded as
    exact rationals [Q]: every arithmetic operation and comparison of the
    source is kept, in the order the source performs it, and only the
    binary64 rounding error (and the non-numbers [nan] and [inf] of a
    quantity) is left out.  The unbounded last tax band, [float('inf')], is
    kept as a value of its own ([Inf]).

    Containers.  [colas], a [dict] from asset name to [deque] of lots, is a
    [gmap string (list Lote)]; the head of the deque is the head of the
    list, [append] adds at the end, [popleft] drops the head.  A lot is
    mutated in place through the reference held by the deque, so the list
    cell is replaced by the updated lot.  [ventas], a list the loop appends
    to, is a [list Venta] in append order.

    Library code.  [df.sort_values('fecha')] is taken as a parameter with
    what the call guarantees, and also given as pandas and numpy run it
    ([sort_values_np]).  The frame object a call is handed, and the copy
    the call writes into, live in a memory of frames ([Mem]). *)

From Stdlib Require Import ZArith QArith Qround Qabs Lqa Lia.
From Stdlib Require Import String Ascii List Permutation Sorted.
From stdpp Require Import gmap strings pretty sorting.

Local Open Scope Q_scope.

(** ** Python numbers *)

Module Py.

(** [a < b] and [a <= b] on floats. *)
Definition lt (a b : Q) : bool := negb (Qle_bool b a).
Definition le (a b : Q) : bool := Qle_bool a b.

(** [min(a, b)]: the first argument is kept unless the second is
    strictly smaller. *)
Definition min (a b : Q) : Q := if lt b a then b else a.

(** Rounding to the nearest integer, ties to the even one. *)
Definition rint (x : Q) : Z :=
  let f := Qfloor x in
  match Qcompare (x - inject_Z f) (1 # 2) with
  | Lt => f
  | Gt => (f + 1)%Z
  | Eq => if Z.even f then f else (f + 1)%Z
  end.

(** [round(x, 2)]. *)
Definition round2 (x : Q) : Q := inject_Z (rint (x * 100)) / 100.

(** [sum] of a column, from [0.0]. *)
Definition sum (l : list Q) : Q := fold_left Qplus l 0.

Fixpoint ceros (k : nat) : string :=
  match k with
  | O => EmptyString
  | S k' => String "0"%char (ceros k')
  end.

(** [s.zfill(n)] for a string of digits. *)
Definition zfill (n : nat) (s : string) : string :=
  ceros (n - String.length s) +:+ s.

(** [format(x, '.nf')] for [n >= 1]: sign, integer part, point and [n]
    decimals, the last one rounded half to even. *)
Definition fmt_f (n : nat) (x : Q) : string :=
  let escala := (10 ^ Z.of_nat n)%Z in
  let m := rint (Qabs x * inject_Z escala) in
  (if lt x 0 then "-" else "")
    +:+ pretty (m / escala)%Z +:+ "."
    +:+ zfill n (pretty (m mod escala)%Z).

(** [sep.join(l)]. *)
Definition join (sep : string) (l : list string) : string :=
  String.concat sep l.

Definition lower_ascii (c : ascii) : ascii :=
  let n := nat_of_ascii c in
  if ((65 <=? n) && (n <=? 90))%nat then ascii_of_nat (n + 32) else c.

(** [s.lower()] on a string of ASCII characters: the letters [A] to [Z]
    are lowered, every other byte is kept. *)
Fixpoint lower (s : string) : string :=
  match s with
  | EmptyString => EmptyString
  | String c s' => String (lower_ascii c) (lower s')
  end.

(** Truth value of a string: [not s] holds for the empty string only. *)
Definition vacia (s : string) : bool :=
  match s with
  | EmptyString => true
  | String _ _ => false
  end.

End Py.

(** ** Dates

    [datetime.date]: year, month and day, compared in that order, and
    printed by [str] as [YYYY-MM-DD]. *)

Record date : Type := Date { year : Z; month : Z; day : Z }.

Definition date_cmp (a b : date) : comparison :=
  match (year a ?= year b)%Z with
  | Eq =>
      match (month a ?= month b)%Z with
      | Eq => (day a ?= day b)%Z
      | c => c
      end
  | c => c
  end.

Definition date_leb (a b : date) : bool :=
  match date_cmp a b with
  | Gt => false
  | _ => true
  end.

Definition date_ltb (a b : date) : bool :=
  match date_cmp a b with
  | Lt => true
  | _ => false
  end.

Definition date_str (d : date) : string :=
  Py.zfill 4 (pretty (year d)) +:+ "-"
    +:+ Py.zfill 2 (pretty (month d)) +:+ "-"
    +:+ Py.zfill 2 (pretty (day d)).

(** ** Data model *)

(** A row of [df_operaciones].  [fee_eur] is read with
    [f.get('fee_eur', 0.0)], so it may be missing. *)
Record Fila : Type := mkFila {
  fecha : date;
  tipo : string;
  cripto : string;
  cantidad : Q;
  valor_eur : Q;
  fee_eur : option Q
}.

(** A lot, the [dict] appended to a queue by a purchase. *)
Record Lote : Type := mkLote {
  cantidad_disponible : Q;
  coste_unit : Q;
  fecha_compra : date
}.

(** A row of the returned frame, the [dict] appended to [ventas].  Its
    ['cripto'] entry is [v_cripto], the name [cripto] being the column of
    the input. *)
Record Venta : Type := mkVenta {
  fecha_venta : date;
  v_cripto : string;
  tipo_operacion : string;
  cantidad_vendida : Q;
  valor_transmision_bruto_eur : Q;
  comision_venta_eur : Q;
  valor_transmision_neto_eur : Q;
  coste_adquisicion_total_eur : Q;
  ganancia_perdida_eur : Q;
  nota : string;
  lotes_origen_info : string
}.

(** The two locals the row loop updates. *)
Record Estado : Type := mkEstado {
  colas : gmap string (list Lote);
  ventas : list Venta
}.

Definition estado_inicial : Estado := mkEstado ∅ [].

(** The tolerance [1e-9] of the lot-exhaustion and shortfall tests. *)
Definition epsilon : Q := 1 # 1000000000.

(** ** [calcular_fifo]: the consumption loop *)

(** One entry of [lotes_info]:
    [f"{tomados:.8f}@{lote['fecha_compra']}@{lote['coste_unit']:.2f}"]. *)
Definition lote_info (tomados : Q) (lote : Lote) : string :=
  Py.fmt_f 8 tomados +:+ "@" +:+ date_str (fecha_compra lote)
    +:+ "@" +:+ Py.fmt_f 2 (coste_unit lote).

(** The variables of the [while] loop; [cola] is [colas[cripto]]. *)
Record Consumo : Type := mkConsumo {
  restante : Q;
  coste_adq : Q;
  lotes_info : list string;
  cola : list Lote
}.

(** The lot after [lote['cantidad_disponible'] -= tomados]. *)
Definition descontar (lote : Lote) (tomados : Q) : Lote :=
  mkLote (cantidad_disponible lote - tomados) (coste_unit lote)
         (fecha_compra lote).

(** One turn of the loop body on the head lot. *)
Definition consumir_lote (c : Consumo) (lote : Lote) (resto : list Lote)
  : Consumo :=
  let tomados := Py.min (restante c) (cantidad_disponible lote) in
  let lote' := descontar lote tomados in
  mkConsumo (restante c - tomados)
            (coste_adq c + tomados * coste_unit lote)
            (lotes_info c ++ [lote_info tomados lote])
            (if Py.le (cantidad_disponible lote') epsilon
             then resto else lote' :: resto).

(** [while restante > 0 and colas[cripto]: ...].  Each turn spends one
    unit of [fuel], and the test of the loop none; [None] is a loop that
    wants another turn when the fuel is gone. *)
Fixpoint consumir_fifo (fuel : nat) (c : Consumo) : option Consumo :=
  match cola c with
  | [] => Some c
  | lote :: resto =>
      if Py.lt 0 (restante c) then
        match fuel with
        | O => None
        | S fuel' => consumir_fifo fuel' (consumir_lote c lote resto)
        end
      else Some c
  end.

(** ** [calcular_fifo]: one row *)

Definition nota_sin_historico (r : Q) (cr : string) : string :=
  "Sin histórico para " +:+ Py.fmt_f 8 r +:+ " " +:+ cr.

(** ["; ".join(lotes_info) or "N/A"]. *)
Definition lotes_origen (info : list string) : string :=
  let s := Py.join "; " info in
  if Py.vacia s then "N/A" else s.

(** [if cripto not in colas: colas[cripto] = deque()]. *)
Definition asegurar_cola (cr : string) (m : gmap string (list Lote))
  : gmap string (list Lote) :=
  match m !! cr with
  | Some _ => m
  | None => <[cr := []]> m
  end.

(** [fee = float(f.get('fee_eur', 0.0))]. *)
Definition fee_de (f : Fila) : Q := default 0 (fee_eur f).

(** The lot a purchase appends. *)
Definition lote_de (f : Fila) : Lote :=
  let coste_total := valor_eur f + fee_de f in
  let cu := if Qeq_bool (cantidad f) 0 then 0
            else coste_total / cantidad f in
  mkLote (cantidad f) cu (fecha f).

(** The record a disposal appends, from the row, the lowered asset name
    and the variables the loop ended with. *)
Definition registro_venta (f : Fila) (cr : string) (c : Consumo) : Venta :=
  let valor_neto := valor_eur f - fee_de f in
  let nt := if Py.lt epsilon (restante c)
            then nota_sin_historico (restante c) cr else "" in
  let ganancia := valor_neto - coste_adq c in
  mkVenta (fecha f) cr (tipo f) (cantidad f) (valor_eur f) (fee_de f)
          valor_neto (coste_adq c) ganancia nt
          (lotes_origen (lotes_info c)).

(** [colas[cripto]], for reading. *)
Definition cola_de (m : gmap string (list Lote)) (cr : string) : list Lote :=
  default [] (m !! cr).

(** The body of [for _, f in df.iterrows()]. *)
Definition procesar_fila (st : Estado) (f : Fila) : option Estado :=
  let cr := Py.lower (cripto f) in
  if Py.le (cantidad f) 0 || Py.vacia cr then Some st
  else
    let colas1 := asegurar_cola cr (colas st) in
    let q := cola_de colas1 cr in
    if String.eqb (tipo f) "Compra" then
      Some (mkEstado (<[cr := q ++ [lote_de f]]> colas1) (ventas st))
    else if String.eqb (tipo f) "Venta" || String.eqb (tipo f) "Donacion" then
      match consumir_fifo (length q) (mkConsumo (cantidad f) 0 [] q) with
      | None => None
      | Some c =>
          Some (mkEstado (<[cr := cola c]> colas1)
                         (ventas st ++ [registro_venta f cr c]))
      end
    else Some (mkEstado colas1 (ventas st)).

(** The [for] loop over the rows, in the order given. *)
Fixpoint procesar_filas (st : Estado) (l : list Fila) : option Estado :=
  match l with
  | [] => Some st
  | f :: l' =>
      match procesar_fila st f with
      | Some st' => procesar_filas st' l'
      | None => None
      end
  end.

(** ** [calcular_fifo]: the sort

    [df.sort_values('fecha')] is pandas, not code of this repository.  The
    call passes no [kind], so pandas sorts with its default ['quicksort'],
    which its documentation lists as not stable (only ['mergesort'] and
    ['stable'] are).  The sort is therefore a parameter of the run, and
    what the call guarantees is stated of it by [ordena_por_fecha]: the
    result holds the same rows, in ascending date order.  The sort that
    pandas runs on this call is given further on, as [sort_values_np],
    and is proved to do so. *)

Definition fecha_le (a b : Fila) : Prop := date_leb (fecha a) (fecha b) = true.
Definition fecha_lt (a b : Fila) : Prop := date_ltb (fecha a) (fecha b) = true.

Definition ordena_por_fecha (sort_values : list Fila -> list Fila) : Prop :=
  (forall df, Permutation df (sort_values df))
  /\ (forall df, Sorted fecha_le (sort_values df)).

(** [calcular_fifo(df_operaciones)], for a given [sort_values]: the rows
    are copied, sorted by date and run through the loop from an empty
    [colas] and an empty [ventas]; the frame returned is [ventas]. *)
Definition calcular_fifo (sort_values : list Fila -> list Fila)
           (df_operaciones : list Fila) : option (list Venta) :=
  let df := sort_values df_operaciones in
  ventas <$> procesar_filas estado_inicial df.

(** ** [calcular_irpf_ingresos] *)

Record IrpfIngresos : Type := mkIrpfIngresos {
  total_ingresos_eur : Q;
  irpf_ingresos_eur : Q
}.

(** [df_ingresos] is seen through its ['valor_eur'] column: [None] is a
    frame without that column, [Some []] a frame without rows. *)
Definition calcular_irpf_ingresos (df_ingresos : option (list Q))
  : IrpfIngresos :=
  match df_ingresos with
  | None | Some [] => mkIrpfIngresos 0 0
  | Some valores =>
      let total := Py.sum valores in
      let tipo_fijo := 0.19 in
      mkIrpfIngresos total (Py.round2 (total * tipo_fijo))
  end.

(** ** [calcular_irpf_ganancias] *)

(** The width of a band: a number or [float('inf')]. *)
Inductive Limite : Type :=
| Fin (q : Q)
| Inf.

(** [min(restante, limite)]; nothing is above [inf]. *)
Definition min_limite (r : Q) (limite : Limite) : Q :=
  match limite with
  | Fin l => Py.min r l
  | Inf => r
  end.

Definition tramos : list (Limite * Q) :=
  [ (Fin 6000, 0.19);
    (Fin (50000 - 6000), 0.21);
    (Fin (200000 - 50000), 0.23);
    (Inf, 0.26) ].

(** [for limite, tipo in tramos: ...] with its [break]. *)
Fixpoint aplicar_tramos (ts : list (Limite * Q)) (r irpf : Q) : Q :=
  match ts with
  | [] => irpf
  | (limite, tp) :: ts' =>
      if Py.le r 0 then irpf
      else
        let aplicable := min_limite r limite in
        aplicar_tramos ts' (r - aplicable) (irpf + aplicable * tp)
  end.

Record IrpfGanancias : Type := mkIrpfGanancias {
  base_imponible_eur : Q;
  irpf_ganancias_eur : Q
}.

(** [df_ganancias] is the frame of disposal rows; it is [empty] when it
    has no row. *)
Definition total_ganancias (df_ganancias : list Venta) : Q :=
  match df_ganancias with
  | [] => 0
  | _ => Py.sum (map ganancia_perdida_eur df_ganancias)
  end.

Definition calcular_irpf_ganancias (df_ganancias : list Venta)
  : IrpfGanancias :=
  let total_gan := total_ganancias df_ganancias in
  let irpf := aplicar_tramos tramos total_gan 0 in
  mkIrpfGanancias (Py.round2 total_gan) (Py.round2 irpf).

(** ** A stable sort that meets the interface

    Insertion from the right: [ordenar_estable] puts a row before the
    rows of the same date that follow it in the input. *)

Fixpoint insertar (antes : Fila -> Fila -> bool) (x : Fila) (l : list Fila)
  : list Fila :=
  match l with
  | [] => [x]
  | y :: l' => if antes x y then x :: l else y :: insertar antes x l'
  end.

Definition ordenar (antes : Fila -> Fila -> bool) (l : list Fila)
  : list Fila :=
  fold_right (insertar antes) [] l.

Definition antes_o_igual (x y : Fila) : bool := date_leb (fecha x) (fecha y).

(** [x['fecha'] < y['fecha']], the test the sort of pandas makes. *)
Definition antes_estricto (x y : Fila) : bool := date_ltb (fecha x) (fecha y).

Definition ordenar_estable : list Fila -> list Fila := ordenar antes_o_igual.

(** ** Notions of the statements *)

Definition es_venta (f : Fila) : Prop :=
  tipo f = "Venta" \/ tipo f = "Donacion".

(** The amounts [ts] taken from the first lots of a queue, one per lot:
    the trace they leave, their cost, and what is left to match. *)
Definition traza (ts : list Q) (q : list Lote) : list string :=
  zip_with lote_info ts q.

Definition coste_de (ts : list Q) (q : list Lote) (c0 : Q) : Q :=
  fold_left Qplus (zip_with (fun t l => t * coste_unit l) ts q) c0.

Definition resto_de (ts : list Q) (r0 : Q) : Q := fold_left Qminus ts r0.

(** A lot from which [t] was taken is used up: what is left of it is
    within [epsilon]. *)
Definition agotado (t : Q) (l : Lote) : Prop :=
  cantidad_disponible l - t <= epsilon.

(** The queue after the amounts [ts] were taken from [q], one per lot
    from the head on: the lots taken from are used up and gone, except
    that the last of them may stay as the new head, cut down to more than
    [epsilon]. *)
Inductive cola_tras (q : list Lote) (ts : list Q) : list Lote -> Prop :=
| tras_agotados :
    Forall2 agotado ts (take (length ts) q) ->
    cola_tras q ts (drop (length ts) q)
| tras_parcial ts0 t lote :
    ts = ts0 ++ [t] ->
    Forall2 agotado ts0 (take (length ts0) q) ->
    q !! length ts0 = Some lote ->
    epsilon < cantidad_disponible lote - t ->
    cola_tras q ts (descontar lote t :: drop (length ts) q).

Definition lote_positivo (l : Lote) : Prop := 0 < cantidad_disponible l.

Definition lotes_positivos (st : Estado) : Prop :=
  forall cr, Forall lote_positivo (cola_de (colas st) cr).

(** Every lot of every queue holds more than [epsilon]. *)
Definition lotes_sobre_epsilon (st : Estado) : Prop :=
  forall cr,
    Forall (fun l => epsilon < cantidad_disponible l) (cola_de (colas st) cr).

Definition cantidades (q : list Lote) : list Q := map cantidad_disponible q.

(** The quantity held in a queue and what it cost. *)
Definition disponible (q : list Lote) : Q := Py.sum (cantidades q).

Definition coste_cola (q : list Lote) : Q :=
  Py.sum (map (fun l => cantidad_disponible l * coste_unit l) q).

(** Rows of the same date come out of the sort in the order they went
    in. *)
Definition orden_estable (sort_values : list Fila -> list Fila) : Prop :=
  forall (df : list Fila) (i j : nat) (a b : Fila),
    (i < j)%nat -> df !! i = Some a -> df !! j = Some b ->
    fecha a = fecha b ->
    exists i' j' : nat,
      (i' < j')%nat
      /\ sort_values df !! i' = Some a /\ sort_values df !! j' = Some b.

(** The row with another asset name. *)
Definition con_cripto (c : string) (f : Fila) : Fila :=
  mkFila (fecha f) (tipo f) c (cantidad f) (valor_eur f) (fee_eur f).

(** The scale in closed form: nothing on a loss, 19% up to 6000, 21% from
    there to 50000, 23% from there to 200000, 26% above. *)
Definition escala_progresiva (g : Q) : Q :=
  if Py.le g 0 then 0
  else if Py.le g 6000 then g * 0.19
  else if Py.le g 50000 then 6000 * 0.19 + (g - 6000) * 0.21
  else if Py.le g 200000
       then 6000 * 0.19 + 44000 * 0.21 + (g - 50000) * 0.23
  else 6000 * 0.19 + 44000 * 0.21 + 150000 * 0.23 + (g - 200000) * 0.26.

(** ** Sample rows and states *)

Definition fila_cantidad_cero : Fila :=
  mkFila (Date 2024 5 17) "Venta" "BTC" 0 1000 (Some 1).

Definition fila_compra_btc : Fila :=
  mkFila (Date 2024 1 10) "Compra" "BTC" 2 200 None.

Definition fila_compra_4 : Fila :=
  mkFila (Date 2024 1 10) "Compra" "BTC" 4 400 None.

Definition fila_venta_10 : Fila :=
  mkFila (Date 2024 3 1) "Venta" "btc" 10 3000 (Some 30).

Definition fila_venta_4 : Fila :=
  mkFila (Date 2024 3 1) "Venta" "btc" 4 3000 (Some 30).

Definition estado_tras_compra_4 : Estado :=
  mkEstado (<["btc" := [lote_de fila_compra_4]]> ∅) [].

(** A purchase of half a billionth of a unit. *)
Definition fila_compra_polvo : Fila :=
  mkFila (Date 2024 1 10) "Compra" "ETH" (5 # 10000000000) 1 None.

Definition fila_a1 : Fila := mkFila (Date 2024 1 10) "Compra" "BTC" 2 200 None.

Definition fila_a2 : Fila :=
  mkFila (Date 2024 2 1) "Compra" "BTC" 3 590 (Some 10).

Definition fila_d4 : Fila :=
  mkFila (Date 2024 3 1) "Venta" "BTC" 4 1000 (Some 1.5).

Definition fila_compra_dia : Fila :=
  mkFila (Date 2024 6 1) "Compra" "BTC" 1 100 None.

Definition fila_venta_dia : Fila :=
  mkFila (Date 2024 6 1) "Venta" "BTC" 1 150 None.

Definition fila_compra_BTC : Fila :=
  mkFila (Date 2024 1 10) "Compra" "BTC" 1 100 None.

Definition fila_venta_btc : Fila :=
  mkFila (Date 2024 2 10) "Venta" "btc" 1 150 None.

(** A disposal record with a given gain. *)
Definition venta_con_ganancia (g : Q) : Venta :=
  mkVenta (Date 2024 3 1) "btc" "Venta" 1 (1000 + g) 0 (1000 + g) 1000 g
          "" "1.00000000@2024-01-10@1000.00".

(** ** Notions of the further statements on [calcular_fifo] *)

(** Two states that hold the same records and, under every asset name,
    the same lots; they may differ in the names that have an empty
    queue. *)
Definition mismas_colas (st1 st2 : Estado) : Prop :=
  ventas st1 = ventas st2
  /\ forall cr, cola_de (colas st1) cr = cola_de (colas st2) cr.

(** The rows for which the loop appends a record: they pass the guard
    and their kind is a sale or a donation. *)
Definition venta_valida (f : Fila) : bool :=
  negb (Py.le (cantidad f) 0 || Py.vacia (Py.lower (cripto f)))
  && (String.eqb (tipo f) "Venta" || String.eqb (tipo f) "Donacion").

(** What a record copies from its row. *)
Definition datos_venta (v : Venta) : date * string * string * Q * Q * Q :=
  (fecha_venta v, v_cripto v, tipo_operacion v, cantidad_vendida v,
   valor_transmision_bruto_eur v, comision_venta_eur v).

Definition datos_fila (f : Fila) : date * string * string * Q * Q * Q :=
  (fecha f, Py.lower (cripto f), tipo f, cantidad f, valor_eur f, fee_de f).

(** The rows of one asset and the records of one asset. *)
Definition filas_de (cr : string) (l : list Fila) : list Fila :=
  List.filter (fun f => String.eqb (Py.lower (cripto f)) cr) l.

Definition ventas_de (cr : string) (vs : list Venta) : list Venta :=
  List.filter (fun v => String.eqb (v_cripto v) cr) vs.

(** Dates in ascending order. *)
Definition fechas_en_orden (ds : list date) : Prop :=
  StronglySorted (fun a b => date_leb a b = true) ds.

Definition fila_ingreso_eth : Fila :=
  mkFila (Date 2024 4 2) "Ingreso" "ETH" 1 2000 None.

Definition fila_venta_eth : Fila :=
  mkFila (Date 2024 5 2) "Venta" "ETH" 1 2500 (Some 5).

(** * The exchange transformers ([_legacy_transformers_adapted.py]) *)

(** ** More of Python's strings *)

Module PyStr.

(** The ASCII characters [str.isspace] holds of: tab to carriage return,
    the four separators 28 to 31, and the space. *)
Definition isspace (c : ascii) : bool :=
  let n := nat_of_ascii c in
  ((9 <=? n) && (n <=? 13) || (28 <=? n) && (n <=? 32))%nat.

Fixpoint lstrip (s : string) : string :=
  match s with
  | EmptyString => EmptyString
  | String c s' => if isspace c then lstrip s' else s
  end.

Fixpoint rstrip (s : string) : string :=
  match s with
  | EmptyString => EmptyString
  | String c s' =>
      let r := rstrip s' in
      if isspace c && Py.vacia r then EmptyString else String c r
  end.

(** [s.strip()]. *)
Definition strip (s : string) : string := rstrip (lstrip s).

(** [s.endswith(suf)]. *)
Fixpoint endswith (s suf : string) : bool :=
  String.eqb s suf
  || match s with
     | EmptyString => false
     | String _ s' => endswith s' suf
     end.

(** [s[:-k]] for [k > 0]. *)
Definition hasta (s : string) (k : nat) : string :=
  String.substring 0 (String.length s - k) s.

(** [x in s] for strings: [x] occurs in [s]. *)
Fixpoint contiene (x s : string) : bool :=
  String.prefix x s
  || match s with
     | EmptyString => false
     | String _ s' => contiene x s'
     end.

End PyStr.

(** ** [normalizar_simbolo_cripto_legacy] *)

(** [KNOWN_CURRENCIES]: the keys of [YAHOO_CRYPTO_SYMBOLS], a table of
    [api_pricing] that the repository does not hold and that is taken as
    the parameter [yahoo], and ["eur"]. *)
Definition KNOWN_CURRENCIES (yahoo : gset string) : gset string :=
  yahoo ∪ {["eur"]}.

Definition sufijos : list string := ["-usdt"; "usdt"; "-usd"; "usd"].

(** [for suf in (...): if s.endswith(suf) and len(s) > len(suf):
    return s[:-len(suf)]]; [None] when the loop ends without returning. *)
Fixpoint quitar_sufijo (sufs : list string) (s : string) : option string :=
  match sufs with
  | [] => None
  | suf :: sufs' =>
      if PyStr.endswith s suf
         && (String.length suf <? String.length s)%nat
      then Some (PyStr.hasta s (String.length suf))
      else quitar_sufijo sufs' s
  end.

(** [simbolo_bruto] is [None] for a missing value or a value that is not
    a string. *)
Definition normalizar_simbolo_cripto_legacy (yahoo : gset string)
           (simbolo_bruto : option string) : option string :=
  match simbolo_bruto with
  | None => None
  | Some bruto =>
      let s := Py.lower (PyStr.strip bruto) in
      if bool_decide (s ∈ KNOWN_CURRENCIES yahoo) then Some s
      else
        match quitar_sufijo sufijos s with
        | Some r => Some r
        | None => if Py.vacia s then None else Some s
        end
  end.

(** ** [_convertir_a_eur_si_necesario] *)

(** [fn_obtener_precio(simbolo, fecha)]: the price in EUR, or [None]. *)
Definition Precios : Type := string -> date -> option Q.

(** The list [errores] the transformers append to. *)
Definition Errores : Type := list (string * date).

Definition usd_like : list string :=
  ["usd"; "usdt"; "usdc"; "busd"; "dai"; "tusd"; "fdusd"].

(** [x in usd_like] for [x] a string or [None]. *)
Definition en_usd_like (x : option string) : bool :=
  match x with
  | Some s => existsb (String.eqb s) usd_like
  | None => false
  end.

(** [valor] is [None] for [None] and for a missing number.  The list
    [errores] is mutated in place: the function returns its value and the
    list as it leaves it. *)
Definition _convertir_a_eur_si_necesario (yahoo : gset string)
           (valor : option Q) (moneda : option string) (fecha_obj : date)
           (fn_obtener_precio : Precios) (errores : Errores)
           (cripto_error : string) : option Q * Errores :=
  match valor with
  | None => (None, errores)
  | Some v =>
      let moneda_norm := normalizar_simbolo_cripto_legacy yahoo moneda in
      if bool_decide (moneda_norm = Some "eur") then (Some v, errores)
      else if en_usd_like moneda_norm then
        match fn_obtener_precio "usd" fecha_obj with
        | Some tasa => (Some (v * tasa), errores)
        | None =>
            let errores1 := errores ++ [("usd", fecha_obj)] in
            (None,
             if Py.vacia cripto_error then errores1
             else errores1 ++ [(cripto_error, fecha_obj)])
        end
      else (None, errores)
  end.

(** ** [transformar_koinly_adaptado] *)

#[global] Instance date_eq_dec : EqDecision date.
Proof. solve_decision. Defined.

#[global] Instance date_countable : Countable date.
Proof.
  apply (inj_countable' (fun d => (year d, month d, day d))
                        (fun t => Date t.1.1 t.1.2 t.2)).
  intros [y m d]. reflexivity.
Defined.

(** What a function returns: a value, or the [ValueError] it raises. *)
Inductive Resultado (A : Type) : Type :=
| Ok (a : A)
| ValueError (msg : string).

Arguments Ok {A} a.
Arguments ValueError {A} msg.

(** A row of the Koinly frame, as the loop reads it: [k_fecha_dt] is the
    entry of the row in [df['fecha_dt']], less its time of day, [None] for
    [NaT].  The column is [pd.to_datetime(df['date'], errors='coerce')],
    parsed as a whole: the date of a row is the one it has in this frame,
    and may be another in a frame with other rows.  [k_type] and [k_label] are [str(row.get(..., ''))];
    an amount is [pd.to_numeric(row.get(...), errors='coerce')], [None]
    for a missing number; a currency is [row.get(...)], [None] for a
    missing value. *)
Record KoinlyFila : Type := mkKoinlyFila {
  k_fecha_dt : option date;
  k_type : string;
  k_label : string;
  k_sent_amount : option Q;
  k_sent_currency : option string;
  k_received_amount : option Q;
  k_received_currency : option string;
  k_fee_amount : option Q;
  k_fee_currency : option string
}.

(** [pd.notna(amt) and amt > 0 and cur]: the amount and the currency
    when the test holds. *)
Definition importe_valido (amt : option Q) (cur : option string)
  : option (Q * string) :=
  match amt, cur with
  | Some a, Some c => if Py.lt 0 a && negb (Py.vacia c) then Some (a, c)
                      else None
  | _, _ => None
  end.

Definition etiquetas_ingreso : list string :=
  ["reward"; "staking"; "interest"; "airdrop"; "mining"; "n/a"].

(** The fee of a row, in EUR, and [errores] as the computation leaves
    it. *)
Definition koinly_fee (yahoo : gset string) (fn_obtener_precio : Precios)
           (fecha : date) (fee_amt : option Q) (fee_cur : option string)
           (errores : Errores) : Q * Errores :=
  match importe_valido fee_amt fee_cur with
  | Some (a, cur) =>
      match fn_obtener_precio cur fecha with
      | Some precio_fee => (a * precio_fee, errores)
      | None =>
          let r := _convertir_a_eur_si_necesario
                     yahoo (Some a) (Some cur) fecha fn_obtener_precio
                     errores EmptyString in
          (default 0 r.1, r.2)
      end
  | None => (0, errores)
  end.

(** One side of a row: the row appended when the amount and the currency
    are valid and the price is known, the error appended when they are
    valid and it is not. *)
Definition koinly_lado (fn_obtener_precio : Precios) (fecha : date)
           (tp : string) (amt : option Q) (cur : option string) (fee : Q)
           (st : list Fila * Errores) : list Fila * Errores :=
  match importe_valido amt cur with
  | Some (a, c) =>
      match fn_obtener_precio c fecha with
      | Some precio =>
          (st.1 ++ [mkFila fecha tp c a (a * precio) (Some fee)], st.2)
      | None => (st.1, st.2 ++ [(c, fecha)])
      end
  | None => st
  end.

(** The body of [for _, row in df.iterrows()], on [procesos] and
    [errores]. *)
Definition koinly_fila (yahoo : gset string) (fn_obtener_precio : Precios)
           (st : list Fila * Errores) (rf : KoinlyFila * date)
  : list Fila * Errores :=
  let row := rf.1 in
  let fecha := rf.2 in
  let tipo_koinly := Py.lower (k_type row) in
  let label := Py.lower (k_label row) in
  let sent_amt := k_sent_amount row in
  let sent_cur :=
    normalizar_simbolo_cripto_legacy yahoo (k_sent_currency row) in
  let recv_amt := k_received_amount row in
  let recv_cur :=
    normalizar_simbolo_cripto_legacy yahoo (k_received_currency row) in
  let fee_amt := k_fee_amount row in
  let fee_cur :=
    normalizar_simbolo_cripto_legacy yahoo (k_fee_currency row) in
  let fe := koinly_fee yahoo fn_obtener_precio fecha fee_amt fee_cur st.2 in
  let fee_eur := fe.1 in
  let st1 := (st.1, fe.2) in
  let st2 :=
    if String.eqb tipo_koinly "receive"
       && existsb (fun x => PyStr.contiene x label) etiquetas_ingreso
    then koinly_lado fn_obtener_precio fecha "Ingreso" recv_amt recv_cur
                     fee_eur st1
    else st1 in
  if String.eqb tipo_koinly "trade" then
    let st3 := koinly_lado fn_obtener_precio fecha "Venta" sent_amt sent_cur
                           fee_eur st2 in
    koinly_lado fn_obtener_precio fecha "Compra" recv_amt recv_cur 0 st3
  else st2.

(** [df[df['fecha_dt'].dt.year == 2024]] with its [fecha] column: the
    rows dated in 2024 by the parse of this frame, each with its date. *)
Definition filas_2024 (rows : list KoinlyFila) : list (KoinlyFila * date) :=
  omap (fun row =>
          match k_fecha_dt row with
          | Some d => if (year d =? 2024)%Z then Some (row, d) else None
          | None => None
          end) rows.

(** [df_raw] is [None] for a frame without a ['date'] column.  The
    errors are returned through a [set], so without repetition and in no
    given order. *)
Definition transformar_koinly_adaptado (yahoo : gset string)
           (df_raw : option (list KoinlyFila)) (fn_obtener_precio : Precios)
  : Resultado (list Fila * gset (string * date)) :=
  match df_raw with
  | None => ValueError "Koinly CSV requiere columna 'Date'."
  | Some rows =>
      let df := filas_2024 rows in
      match df with
      | [] => Ok ([], ∅)
      | _ =>
          let r := fold_left (koinly_fila yahoo fn_obtener_precio) df
                             ([], []) in
          Ok (r.1, list_to_set r.2)
      end
  end.

(** ** Notions of the statements on the transformers *)

(** A row as the Koinly transformer makes them: dated in 2024, of a
    positive quantity and a lower-case, non-empty asset name, of one of
    the three kinds, valued at the price of its own asset on its own date
    times its quantity, with a fee, which is zero on a purchase. *)
Definition fila_koinly_ok (fn : Precios) (f : Fila) : Prop :=
  year (fecha f) = 2024%Z
  /\ 0 < cantidad f
  /\ cripto f <> EmptyString
  /\ Py.lower (cripto f) = cripto f
  /\ (tipo f = "Ingreso" \/ tipo f = "Venta" \/ tipo f = "Compra")
  /\ (exists precio, fn (cripto f) (fecha f) = Some precio
                     /\ valor_eur f = cantidad f * precio)
  /\ (exists fee, fee_eur f = Some fee /\ (tipo f = "Compra" -> fee = 0)).

(** An error as the Koinly transformer records them: a symbol and a date
    of 2024 for which there is no price. *)
Definition error_koinly_ok (fn : Precios) (e : string * date) : Prop :=
  fn e.1 e.2 = None /\ year e.2 = 2024%Z.

Definition en_2024 (row : KoinlyFila) : bool :=
  match k_fecha_dt row with
  | Some d => (year d =? 2024)%Z
  | None => false
  end.

Definition es_tipo (tp : string) (f : Fila) : bool := String.eqb (tipo f) tp.

Definition precios_de_prueba : Precios :=
  fun c _ => if String.eqb c "btc" then Some 50000
             else if String.eqb c "usd" then Some 0.9
             else None.

Definition koinly_trade : KoinlyFila :=
  mkKoinlyFila (Some (Date 2024 3 5)) "Trade" "nan" (Some 0.5) (Some "BTC")
               (Some 30000) (Some " usdt") (Some 10) (Some "USDT").

Definition koinly_2023 : KoinlyFila :=
  mkKoinlyFila (Some (Date 2023 3 5)) "trade" "" (Some 1) (Some "BTC")
               (Some 2) (Some "ETH") None None.

Definition yahoo_de_prueba : gset string := {["btc"; "eth"; "usdt"]}.

(** What holds of [procesos] and [errores] all along the loop. *)
Definition koinly_inv (fn : Precios) (st : list Fila * Errores) : Prop :=
  Forall (fila_koinly_ok fn) st.1 /\ Forall (error_koinly_ok fn) st.2.

(** ** [extraer_cuota] (app.py)

    What [extraer_cuota] is given: a pair, a frame of numbers, or another
    object.  A frame with rows is seen as the names of its columns, which
    are distinct, each with its cell of the first row, [None] for a
    missing number; [SinFilas] is a frame without rows. *)
Inductive Retorno : Type :=
| Tupla (a cuota : Q)
| Marco (fila0 : list (string * option Q))
| SinFilas
| Otro.

(** ['irpf' in col.lower()] *)
Definition es_columna_irpf (cv : string * option Q) : bool :=
  PyStr.contiene "irpf" (Py.lower cv.1).

(** The float returned is [None] when it is [nan], which is what [float]
    makes of a missing number.  A frame is [empty] if it has no row or no
    column. *)
Definition extraer_cuota (irpf_ret : Retorno) : option Q :=
  match irpf_ret with
  | Tupla _ cuota => Some cuota
  | Marco ((c0, v0) :: cols) =>
      match List.find es_columna_irpf ((c0, v0) :: cols) with
      | Some (_, v) => v
      | None => Some (default 0 v0)
      end
  | _ => Some 0
  end.

(** The frames [pd.DataFrame([{...}])] that [calcular_irpf_ingresos] and
    [calcular_irpf_ganancias] return, with the names of their columns. *)
Definition marco_ingresos (r : IrpfIngresos) : Retorno :=
  Marco [("total_ingresos_eur", Some (total_ingresos_eur r));
         ("irpf_ingresos_eur", Some (irpf_ingresos_eur r))].

Definition marco_ganancias (r : IrpfGanancias) : Retorno :=
  Marco [("base_imponible_eur", Some (base_imponible_eur r));
         ("irpf_ganancias_eur", Some (irpf_ganancias_eur r))].

(** ** The net gain shown by [main] (app.py)

    [totales = df_gan.groupby("cripto")["ganancia"].sum()], at one
    asset. *)
Definition total_de (c : string) (df_gan : list Venta) : Q :=
  Py.sum (map ganancia_perdida_eur
              (List.filter (fun v => String.eqb (v_cripto v) c) df_gan)).

(** [df_gan["cripto"].isin(totales[totales != 0].index)] *)
Definition en_validas (df_gan : list Venta) (v : Venta) : bool :=
  negb (Qeq_bool (total_de (v_cripto v) df_gan) 0).

(** The figure of the metric [Ganancia neta 2024].  [calcular_fifo]
    returns [pd.DataFrame([])] when it has recorded no disposal, a frame
    without columns: selecting the three columns from it raises
    [KeyError], which is [None] here. *)
Definition ganancia_neta (df_resultados : list Venta) : option Q :=
  match df_resultados with
  | [] => None
  | _ =>
      let df_gan := List.filter (en_validas df_resultados) df_resultados in
      Some (Py.sum (map ganancia_perdida_eur df_gan))
  end.

Definition marco_mayusculas : Retorno :=
  Marco [("Base (EUR)", Some 100); ("Cuota IRPF", None); ("irpf", Some 3)].

(** The rows of the Koinly frame from which the loop can append a row:
    the trades, and the receipts whose label is one of income. *)
Definition da_filas (row : KoinlyFila) : bool :=
  String.eqb (Py.lower (k_type row)) "trade"
  || (String.eqb (Py.lower (k_type row)) "receive"
      && existsb (fun x => PyStr.contiene x (Py.lower (k_label row)))
                 etiquetas_ingreso).

Definition koinly_envio : KoinlyFila :=
  mkKoinlyFila (Some (Date 2024 4 1)) "Send" "nan" (Some 2) (Some "ETH")
               None None (Some 3) (Some "USDT").

Definition koinly_recibo : KoinlyFila :=
  mkKoinlyFila (Some (Date 2024 4 2)) "Receive" "nan" None None
               (Some 2) (Some "BTC") None None.

(** A string of ASCII characters only.  On such a string [Py.lower] is
    [str.lower()]; a cased letter outside ASCII, which [str.lower()]
    lowers too, is left as it is by [Py.lower], so the statements on
    asset names are made for ASCII names. *)
Fixpoint es_ascii (s : string) : bool :=
  match s with
  | EmptyString => true
  | String c s' => (nat_of_ascii c <? 128)%nat && es_ascii s'
  end.

(** ** [calcular_fifo] on the frame object it is given

    The caller hands [calcular_fifo] a frame object, which Python passes
    by reference.  [Mem] holds the frame objects there are, by address;
    a frame is the list of its rows, and the ['fecha'] cell of a row is
    as the caller made it: a date, or a timestamp, a date with a time of
    day in seconds. *)
Inductive Celda : Type :=
| Dia (d : date)
| Instante (d : date) (segundos : Z).

Record FilaDada : Type := mkFilaDada {
  d_fecha : Celda;
  d_tipo : string;
  d_cripto : string;
  d_cantidad : Q;
  d_valor_eur : Q;
  d_fee_eur : option Q
}.

Definition Mem : Type := gmap positive (list FilaDada).

(** [pd.to_datetime(celda)] and then [.dt.date]: the time of day goes. *)
Definition dt_date (c : Celda) : date :=
  match c with
  | Dia d => d
  | Instante d _ => d
  end.

(** A row after [df['fecha'] = pd.to_datetime(df['fecha']).dt.date]. *)
Definition con_fecha (f : FilaDada) : FilaDada :=
  mkFilaDada (Dia (dt_date (d_fecha f))) (d_tipo f) (d_cripto f)
             (d_cantidad f) (d_valor_eur f) (d_fee_eur f).

(** A row as the loop reads it. *)
Definition fila_de (f : FilaDada) : Fila :=
  mkFila (dt_date (d_fecha f)) (d_tipo f) (d_cripto f) (d_cantidad f)
         (d_valor_eur f) (d_fee_eur f).

(** The address of a new object. *)
Definition nuevo (m : Mem) : positive := fresh (dom m).

(** [calcular_fifo(df_operaciones)] with the memory it works in:
    [df_operaciones.copy()] makes a new object, which [df] names; the
    assignment to [df['fecha']] writes into the object [df] names;
    [sort_values], [colas], [ventas] and the frame returned are new
    objects that no name of the caller reaches, and are not kept in
    [Mem].  [None] is a call on an address that holds no frame. *)
Definition calcular_fifo_en (sort_values : list Fila -> list Fila)
           (m : Mem) (df_operaciones : positive)
  : option (Mem * list Venta) :=
  match m !! df_operaciones with
  | None => None
  | Some filas =>
      let df := nuevo m in
      let m1 := <[df := filas]> m in
      let m2 := <[df := map con_fecha (default [] (m1 !! df))]> m1 in
      let filas2 := default [] (m2 !! df) in
      match procesar_filas estado_inicial
                           (sort_values (map fila_de filas2)) with
      | None => None
      | Some st => Some (m2, ventas st)
      end
  end.

Definition fila_con_hora : FilaDada :=
  mkFilaDada (Instante (Date 2024 3 1) 34200) "Venta" "btc" 4 3000 (Some 30).

Definition mem_de_prueba : Mem := {[ 1%positive := [fila_con_hora] ]}.

(** ** The sort pandas runs

    [df.sort_values('fecha')] names no [kind]: pandas takes the dates of
    the column, an array of objects, sorts their indices with numpy's
    [argsort(kind='quicksort')] and takes the rows in that order.  This
    is library code, not code of the repository; it is written here as
    numpy has it, an introsort: a range of more than 16 indices is
    partitioned around the median of its first, middle and last entry, a
    shorter one is sorted by insertion, and a range reached after more
    than [2 * floor(log2 n)] partitions is sorted by heapsort.  The array
    of indices is kept as the list of the rows the indices point to.
    Each range is worked on in place and apart from the others, so the
    order in which numpy's loop and its stack go through the ranges does
    not show in the result: a range is sorted here as a list of its
    own. *)
Module Np.
Local Open Scope nat_scope.

Section Argsort.

Context {A : Type}.

(** [less a b]: the key of [a] is below the key of [b]. *)
Variable less : A -> A -> bool.

Definition SMALL_QUICKSORT : nat := 15.

(** [INTP_SWAP(a[i], a[j])] *)
Definition swap (i j : nat) (a : list A) : list A :=
  match a !! i, a !! j with
  | Some x, Some y => <[j := x]> (<[i := y]> a)
  | _, _ => a
  end.

(** [less(a[i], a[j])] *)
Definition menor (a : list A) (i j : nat) : bool :=
  match a !! i, a !! j with
  | Some x, Some y => less x y
  | _, _ => false
  end.

(** [do ++pi; while (less(a[pi], vp))], entered at the incremented
    [pi]. *)
Fixpoint subir (fuel : nat) (a : list A) (vp : A) (pi : nat) : nat :=
  match fuel with
  | O => pi
  | S fuel' =>
      match a !! pi with
      | Some x => if less x vp then subir fuel' a vp (S pi) else pi
      | None => pi
      end
  end.

(** [do --pj; while (less(vp, a[pj]))], entered at the decremented
    [pj]. *)
Fixpoint bajar (a : list A) (vp : A) (pj : nat) {struct pj} : nat :=
  match a !! pj with
  | Some x =>
      if less vp x
      then match pj with
           | O => O
           | S p => bajar a vp p
           end
      else pj
  | None => pj
  end.

(** The [for (;;)] loop of the partition: both scans, then the swap,
    until the scans meet. *)
Fixpoint bucle (fuel : nat) (a : list A) (vp : A) (pi pj : nat)
  : list A * nat :=
  match fuel with
  | O => (a, pi)
  | S fuel' =>
      let pi' := subir (length a) a vp (S pi) in
      let pj' := bajar a vp (pred pj) in
      if (pj' <=? pi')%nat then (a, pi')
      else bucle fuel' (swap pi' pj' a) vp pi' pj'
  end.

(** The three tests that put the median of [a[pl]], [a[pm]], [a[pr]] at
    [pm]. *)
Definition mediana (a : list A) (pl pm pr : nat) : list A :=
  let a1 := if menor a pm pl then swap pm pl a else a in
  let a2 := if menor a1 pr pm then swap pr pm a1 else a1 in
  if menor a2 pm pl then swap pm pl a2 else a2.

(** The partition of a range, [pl] being 0 and [pr] its last position:
    the range afterwards and the position [pi] of the pivot. *)
Definition particion (a : list A) : list A * nat :=
  let pl := O in
  let pr := (length a - 1)%nat in
  let pm := (pl + (pr - pl) / 2)%nat in
  let a3 := mediana a pl pm pr in
  match a3 !! pm with
  | None => (a, O)
  | Some vp =>
      let a4 := swap pm (pr - 1) a3 in
      let r := bucle (length a) a4 vp pl (pr - 1) in
      (swap r.2 (pr - 1) r.1, r.2)
  end.

(** The insertion loop: each entry in turn goes left past the entries
    above it.  [rp] is the part already in order, last entry first. *)
Fixpoint colocar (x : A) (rp : list A) : list A :=
  match rp with
  | [] => [x]
  | y :: rp' => if less x y then y :: colocar x rp' else x :: rp
  end.

Definition insercion (a : list A) : list A :=
  rev (fold_left (fun rp x => colocar x rp) a []).

(** The sift-down loop of the heapsort, on positions counted from 1:
    [tmp] is taken out at [i] and the larger child moves up as long as
    it is above [tmp]. *)
Fixpoint hundir (fuel : nat) (a : list A) (tmp : A) (i j n : nat)
  : list A :=
  match fuel with
  | O => <[(i - 1)%nat := tmp]> a
  | S fuel' =>
      if (j <=? n)%nat then
        let j' := if (j <? n)%nat && menor a (j - 1) j then S j else j in
        match a !! (j' - 1)%nat with
        | Some y =>
            if less tmp y
            then hundir fuel' (<[(i - 1)%nat := y]> a) tmp j' (j' + j') n
            else <[(i - 1)%nat := tmp]> a
        | None => <[(i - 1)%nat := tmp]> a
        end
      else <[(i - 1)%nat := tmp]> a
  end.

(** [for (l = n >> 1; l > 0; --l)]: the heap is built. *)
Fixpoint amontonar (l : nat) (a : list A) : list A :=
  match l with
  | O => a
  | S l' =>
      match a !! l' with
      | Some tmp => amontonar l' (hundir (length a) a tmp l (l + l) (length a))
      | None => a
      end
  end.

(** [for (; n > 1;)]: the top goes to the end of the heap, which is cut
    by one. *)
Fixpoint desmontar (n : nat) (a : list A) : list A :=
  match n with
  | O => a
  | S n' =>
      match n', a !! n', a !! O with
      | S _, Some tmp, Some top =>
          desmontar n' (hundir (length a) (<[n' := top]> a) tmp 1 2 n')
      | _, _, _ => a
      end
  end.

Definition aheapsort (a : list A) : list A :=
  desmontar (length a) (amontonar (length a / 2) a).

(** The loop of the quicksort on a range [a], [cdepth] partitions being
    allowed yet: the smaller part is gone on with, the larger one is
    pushed and, when taken back, given to the heapsort if [cdepth] has
    gone below 0. *)
Fixpoint quick (fuel : nat) (cdepth : Z) (a : list A) : list A :=
  match fuel with
  | O => a
  | S fuel' =>
      if (SMALL_QUICKSORT <? length a - 1)%nat then
        let r := particion a in
        let pi := r.2 in
        let izq := take pi r.1 in
        let piv := take 1 (drop pi r.1) in
        let der := drop (S pi) r.1 in
        let cd := (cdepth - 1)%Z in
        let apilado x :=
          if (cd <? 0)%Z then aheapsort x else quick fuel' cd x in
        if (pi <? length a - 1 - pi)%nat
        then quick fuel' cd izq ++ piv ++ apilado der
        else apilado izq ++ piv ++ quick fuel' cd der
      else insercion a
  end.

(** [npy_aquicksort]: [cdepth] starts at twice the position of the
    highest bit of the length. *)
Definition aquicksort (a : list A) : list A :=
  quick (length a) (2 * Z.log2 (Z.of_nat (length a))) a.

(** ** Notions of the statements on the sort *)

(** [x] is not above [y]. *)
Definition le (x y : A) : Prop := less y x = false.

(** What holds at each turn of the loop of the partition: the pivot
    [vp] lies at [top]; up to [pi] no entry is above it, from [pj] on
    none is below it. *)
Definition partido (a : list A) (vp : A) (pi pj top : nat) : Prop :=
  (pi < pj <= top) /\ (top < length a)
  /\ a !! top = Some vp
  /\ (forall k x, k <= pi -> a !! k = Some x -> less vp x = false)
  /\ (forall k x, pj <= k -> a !! k = Some x -> less x vp = false).

(** The heapsort counts positions from 1: [en a k] is the entry at
    position [k]. *)
Definition en (a : list A) (k : nat) : option A := a !! (k - 1).

(** From position [lo] on, no entry among the first [n] is above its
    parent, the entry at half its position. *)
Definition monton (a : list A) (lo n : nat) : Prop :=
  forall k x y, lo <= k / 2 -> k <= n ->
                en a k = Some x -> en a (k / 2) = Some y -> le x y.

End Argsort.
End Np.

(** [df.sort_values('fecha')] as pandas and numpy run it: the dates are
    compared with [<]. *)
Definition sort_values_np (df : list Fila) : list Fila :=
  Np.aquicksort antes_estricto df.

(** A row of no effect on a queue, and a frame of seventeen rows of one
    date: a purchase second and the sale of it third. *)
Definition fila_ingreso_dia : Fila :=
  mkFila (Date 2024 6 1) "Ingreso" "ada" 1 1 None.

Definition diecisiete : list Fila :=
  fila_ingreso_dia :: fila_compra_dia :: fila_venta_dia
    :: repeat fila_ingreso_dia 14.

(** The rows of one date, and two lists that hold the rows of each date
    in the same order. *)
Definition en_fecha (d : date) (f : Fila) : bool :=
  bool_decide (fecha f = d).

Definition mismo_orden_en_fecha (l l' : list Fila) : Prop :=
  forall d : date,
    List.filter (en_fecha d) l' = List.filter (en_fecha d) l.

(** * Properties *)

(** ** Comparisons and rounding *)

Lemma lt_true (a b : Q) : Py.lt a b = true -> a < b.
Proof.
  unfold Py.lt. intros H. apply negb_true_iff in H.
  apply Qnot_le_lt. intros Hle. apply Qle_bool_iff in Hle. congruence.
Qed.

Lemma lt_false (a b : Q) : Py.lt a b = false -> b <= a.
Proof.
  unfold Py.lt. intros H. apply negb_false_iff in H.
  now apply Qle_bool_iff.
Qed.

Lemma le_true (a b : Q) : Py.le a b = true -> a <= b.
Proof. unfold Py.le. apply Qle_bool_iff. Qed.

Lemma le_false (a b : Q) : Py.le a b = false -> b < a.
Proof.
  unfold Py.le. intros H. apply Qnot_le_lt. intros Hle.
  apply Qle_bool_iff in Hle. congruence.
Qed.

Lemma lt_intro (a b : Q) : a < b -> Py.lt a b = true.
Proof.
  intros H. destruct (Py.lt a b) eqn:E; [reflexivity|].
  apply lt_false in E. lra.
Qed.

Lemma lt_elim (a b : Q) : b <= a -> Py.lt a b = false.
Proof.
  intros H. destruct (Py.lt a b) eqn:E; [|reflexivity].
  apply lt_true in E. lra.
Qed.

Lemma le_intro (a b : Q) : a <= b -> Py.le a b = true.
Proof. unfold Py.le. apply Qle_bool_iff. Qed.

Lemma le_elim (a b : Q) : b < a -> Py.le a b = false.
Proof.
  intros H. destruct (Py.le a b) eqn:E; [|reflexivity].
  apply le_true in E. lra.
Qed.

(** Case analysis on every comparison of the goal, each branch with the
    order fact it stands for. *)
Ltac casos_cmp :=
  repeat match goal with
  | |- context [Py.lt ?a ?b] =>
      let E := fresh "E" in
      destruct (Py.lt a b) eqn:E;
      [apply lt_true in E | apply lt_false in E]
  | |- context [Py.le ?a ?b] =>
      let E := fresh "E" in
      destruct (Py.le a b) eqn:E;
      [apply le_true in E | apply le_false in E]
  end.

Lemma min_cases (a b : Q) :
  (Py.min a b = b /\ b < a) \/ (Py.min a b = a /\ a <= b).
Proof. unfold Py.min. casos_cmp; auto. Qed.

Lemma rint_comp (x y : Q) : x == y -> Py.rint x = Py.rint y.
Proof.
  intros H. unfold Py.rint.
  rewrite (Qfloor_comp _ _ H).
  assert (Hc : Qcompare (x - inject_Z (Qfloor y)) (1 # 2)
               = Qcompare (y - inject_Z (Qfloor y)) (1 # 2)).
  { apply Qcompare_comp; [rewrite H|]; reflexivity. }
  now rewrite Hc.
Qed.

Lemma rint_inject_Z (z : Z) : Py.rint (inject_Z z) = z.
Proof.
  unfold Py.rint. rewrite Qfloor_Z.
  assert (H : Qcompare (inject_Z z - inject_Z z) (1 # 2) = Lt).
  { rewrite <- Qlt_alt. lra. }
  now rewrite H.
Qed.

Lemma round2_comp (x y : Q) : x == y -> Py.round2 x == Py.round2 y.
Proof.
  intros H. unfold Py.round2.
  rewrite (rint_comp (x * 100) (y * 100)); [reflexivity|].
  now rewrite H.
Qed.

(** A number of whole cents is its own rounding. *)
Lemma round2_centimos (z : Z) : Py.round2 (inject_Z z / 100) == inject_Z z / 100.
Proof.
  unfold Py.round2.
  rewrite (rint_comp (inject_Z z / 100 * 100) (inject_Z z)).
  - now rewrite rint_inject_Z.
  - field.
Qed.

Lemma sum_acc (l : list Q) (a : Q) : fold_left Qplus l a == a + Py.sum l.
Proof.
  unfold Py.sum. revert a.
  induction l as [|x l IH]; intros a; simpl.
  - lra.
  - rewrite IH, (IH (0 + x)). lra.
Qed.

Lemma sum_cons (x : Q) (l : list Q) : Py.sum (x :: l) == x + Py.sum l.
Proof. unfold Py.sum at 1. simpl. rewrite sum_acc. lra. Qed.

(** ** Lower case *)

Lemma lower_ascii_idem (c : ascii) :
  Py.lower_ascii (Py.lower_ascii c) = Py.lower_ascii c.
Proof.
  destruct c as [[] [] [] [] [] [] [] []]; vm_compute; reflexivity.
Qed.

Lemma lower_idem (s : string) : Py.lower (Py.lower s) = Py.lower s.
Proof.
  induction s as [|c s IH]; simpl; [reflexivity|].
  now rewrite lower_ascii_idem, IH.
Qed.

Lemma vacia_lower (s : string) : Py.vacia (Py.lower s) = Py.vacia s.
Proof. destruct s; reflexivity. Qed.

Lemma vacia_true (s : string) : Py.vacia s = true <-> s = EmptyString.
Proof. destruct s; simpl; split; congruence. Qed.

(** ** The order of dates *)

Lemma date_cmp_eq (a b : date) : date_cmp a b = Eq -> a = b.
Proof.
  destruct a as [y1 m1 d1], b as [y2 m2 d2]. unfold date_cmp. simpl.
  destruct (Z.compare_spec y1 y2); try discriminate.
  destruct (Z.compare_spec m1 m2); try discriminate.
  destruct (Z.compare_spec d1 d2); try discriminate.
  intros _. congruence.
Qed.

Lemma date_cmp_antisym (a b : date) : date_cmp b a = CompOpp (date_cmp a b).
Proof.
  unfold date_cmp.
  rewrite (Z.compare_antisym (year a) (year b)).
  rewrite (Z.compare_antisym (month a) (month b)).
  rewrite (Z.compare_antisym (day a) (day b)).
  destruct (year a ?= year b)%Z; simpl; try reflexivity.
  destruct (month a ?= month b)%Z; simpl; reflexivity.
Qed.

Lemma date_cmp_lt_trans (a b c : date) :
  date_cmp a b = Lt -> date_cmp b c = Lt -> date_cmp a c = Lt.
Proof.
  destruct a as [y1 m1 d1], b as [y2 m2 d2], c as [y3 m3 d3].
  unfold date_cmp. simpl.
  destruct (Z.compare_spec y1 y2), (Z.compare_spec y2 y3),
    (Z.compare_spec y1 y3); try discriminate; try lia;
  destruct (Z.compare_spec m1 m2), (Z.compare_spec m2 m3),
    (Z.compare_spec m1 m3); try discriminate; try lia;
  destruct (Z.compare_spec d1 d2), (Z.compare_spec d2 d3),
    (Z.compare_spec d1 d3); try discriminate; try lia; auto.
Qed.

Lemma date_leb_refl (a : date) : date_leb a a = true.
Proof.
  unfold date_leb, date_cmp. now rewrite !Z.compare_refl.
Qed.

Lemma date_leb_total (a b : date) : date_leb a b = false -> date_leb b a = true.
Proof.
  unfold date_leb. rewrite (date_cmp_antisym a b).
  destruct (date_cmp a b); simpl; congruence.
Qed.

Lemma date_ltb_leb (a b : date) : date_ltb a b = true -> date_leb a b = true.
Proof. unfold date_ltb, date_leb. destruct (date_cmp a b); congruence. Qed.

Lemma date_ltb_false (a b : date) : date_ltb a b = false -> date_leb b a = true.
Proof.
  unfold date_ltb, date_leb. rewrite (date_cmp_antisym a b).
  destruct (date_cmp a b); simpl; congruence.
Qed.

Lemma date_leb_trans (a b c : date) :
  date_leb a b = true -> date_leb b c = true -> date_leb a c = true.
Proof.
  unfold date_leb. intros Hab Hbc.
  destruct (date_cmp a b) eqn:E1; try discriminate;
  destruct (date_cmp b c) eqn:E2; try discriminate.
  - apply date_cmp_eq in E1. subst. now rewrite E2.
  - apply date_cmp_eq in E1. subst. now rewrite E2.
  - apply date_cmp_eq in E2. subst. now rewrite E1.
  - now rewrite (date_cmp_lt_trans a b c).
Qed.

Lemma date_ltb_leb_trans (a b c : date) :
  date_ltb a b = true -> date_leb b c = true -> date_ltb a c = true.
Proof.
  unfold date_ltb, date_leb. intros Hab Hbc.
  destruct (date_cmp a b) eqn:E1; try discriminate.
  destruct (date_cmp b c) eqn:E2; try discriminate.
  - apply date_cmp_eq in E2. subst. now rewrite E1.
  - now rewrite (date_cmp_lt_trans a b c).
Qed.

Lemma date_ltb_not_leb (a b : date) :
  date_ltb a b = true -> date_leb b a = false.
Proof.
  unfold date_ltb, date_leb. rewrite (date_cmp_antisym a b).
  destruct (date_cmp a b); simpl; congruence.
Qed.

(** ** Sorting by date *)

Lemma fecha_le_trans : Transitive fecha_le.
Proof. intros a b c. unfold fecha_le. apply date_leb_trans. Qed.

Lemma fecha_lt_le (a b : Fila) : fecha_lt a b -> fecha_le a b.
Proof. unfold fecha_lt, fecha_le. apply date_ltb_leb. Qed.

Lemma fecha_le_antisym (a b : Fila) :
  fecha_le a b -> fecha_le b a -> fecha a = fecha b.
Proof.
  unfold fecha_le, date_leb. intros Hab Hba.
  rewrite (date_cmp_antisym (fecha a) (fecha b)) in Hba.
  destruct (date_cmp (fecha a) (fecha b)) eqn:E; simpl in *;
    try discriminate.
  now apply date_cmp_eq.
Qed.

Lemma insertar_perm (antes : Fila -> Fila -> bool) (x : Fila) (l : list Fila) :
  Permutation (x :: l) (insertar antes x l).
Proof.
  induction l as [|y l IH]; simpl; [reflexivity|].
  destruct (antes x y); [reflexivity|].
  etransitivity; [apply perm_swap|]. now apply perm_skip.
Qed.

Lemma ordenar_perm (antes : Fila -> Fila -> bool) (l : list Fila) :
  Permutation l (ordenar antes l).
Proof.
  induction l as [|x l IH]; simpl; [reflexivity|].
  etransitivity; [apply perm_skip, IH|]. apply insertar_perm.
Qed.

Section Insercion.

Variable antes : Fila -> Fila -> bool.
Hypothesis antes_si : forall x y, antes x y = true -> fecha_le x y.
Hypothesis antes_no : forall x y, antes x y = false -> fecha_le y x.

Lemma insertar_hdrel (a x : Fila) (l : list Fila) :
  fecha_le a x -> HdRel fecha_le a l -> HdRel fecha_le a (insertar antes x l).
Proof.
  intros Hax Hl. destruct l as [|y l]; simpl.
  - now constructor.
  - destruct (antes x y); constructor; auto. now inversion Hl.
Qed.

Lemma insertar_sorted (x : Fila) (l : list Fila) :
  Sorted fecha_le l -> Sorted fecha_le (insertar antes x l).
Proof.
  induction 1 as [|y l Hs IH Hd]; simpl.
  - repeat constructor.
  - destruct (antes x y) eqn:E.
    + constructor; [now constructor|]. constructor. now apply antes_si.
    + constructor; [exact IH|].
      apply insertar_hdrel; [now apply antes_no | exact Hd].
Qed.

Lemma ordenar_sorted (l : list Fila) : Sorted fecha_le (ordenar antes l).
Proof.
  induction l as [|x l IH]; simpl; [constructor|].
  now apply insertar_sorted.
Qed.

End Insercion.

Lemma ordenar_estable_sorted (l : list Fila) :
  Sorted fecha_le (ordenar_estable l).
Proof.
  apply ordenar_sorted; unfold antes_o_igual, fecha_le; intros x y H.
  - exact H.
  - now apply date_leb_total.
Qed.

(** The stable sort does what [sort_values] guarantees. *)
Lemma ordenar_estable_ordena : ordena_por_fecha ordenar_estable.
Proof.
  split; [apply (ordenar_perm antes_o_igual) | apply ordenar_estable_sorted].
Qed.

(** Two date-sorted arrangements of the same rows are the same list when
    no two rows share a date. *)
Lemma orden_unico (l l' : list Fila) :
  Permutation l l' ->
  StronglySorted fecha_le l -> StronglySorted fecha_le l' ->
  List.NoDup (map fecha l) -> l = l'.
Proof.
  revert l'. induction l as [|x t IH]; intros l' Hp Hs Hs' Hnd.
  - now apply Permutation_nil in Hp.
  - destruct l' as [|y t'].
    { symmetry in Hp. now apply Permutation_nil in Hp. }
    apply StronglySorted_inv in Hs as [Hst Hxt].
    apply StronglySorted_inv in Hs' as [Hst' Hyt'].
    rewrite List.Forall_forall in Hxt, Hyt'.
    simpl in Hnd. apply List.NoDup_cons_iff in Hnd as [Hx Hnd].
    assert (Hxy : x = y).
    { assert (Hin : In x (y :: t')).
      { apply (Permutation_in _ Hp). now left. }
      destruct Hin as [Heq | Hin]; [now symmetry|].
      assert (Hin' : In y (x :: t)).
      { apply (Permutation_in _ (Permutation_sym Hp)). now left. }
      destruct Hin' as [Heq | Hin']; [exact Heq|].
      exfalso. apply Hx.
      rewrite (fecha_le_antisym x y (Hxt _ Hin') (Hyt' _ Hin)).
      now apply in_map. }
    subst y. f_equal.
    apply IH; auto. now apply Permutation_cons_inv in Hp.
Qed.

(** A strictly increasing list has no two rows of the same date. *)
Lemma creciente_nodup (l : list Fila) :
  StronglySorted fecha_lt l -> List.NoDup (map fecha l).
Proof.
  induction 1 as [|x l Hs IH Hx]; simpl; constructor; auto.
  intros Hin. apply in_map_iff in Hin as (y & Hy & Hin).
  rewrite List.Forall_forall in Hx. specialize (Hx _ Hin).
  unfold fecha_lt, date_ltb in Hx. rewrite Hy in Hx.
  unfold date_cmp in Hx. rewrite !Z.compare_refl in Hx. discriminate.
Qed.

Lemma creciente_sorted (l : list Fila) :
  StronglySorted fecha_lt l -> StronglySorted fecha_le l.
Proof.
  induction 1 as [|x l Hs IH Hx]; constructor; auto.
  eapply List.Forall_impl; [|exact Hx]. intros a. apply fecha_lt_le.
Qed.

(** Rows whose dates are all different are visited in the one order of
    their dates, however they were given. *)
Lemma sort_values_de_creciente (sort_values : list Fila -> list Fila)
      (l df : list Fila) :
  ordena_por_fecha sort_values ->
  StronglySorted fecha_lt l -> Permutation l df -> sort_values df = l.
Proof.
  intros [Hperm Hsorted] Hs Hp. symmetry. apply orden_unico.
  - etransitivity; [exact Hp|]. apply Hperm.
  - now apply creciente_sorted.
  - apply Sorted_StronglySorted; [exact fecha_le_trans|]. apply Hsorted.
  - now apply creciente_nodup.
Qed.

(** ** The consumption loop *)

Lemma consumir_fifo_parado (fuel : nat) (c : Consumo) :
  restante c <= 0 -> consumir_fifo fuel c = Some c.
Proof.
  intros H. destruct fuel; simpl; destruct (cola c); try reflexivity;
    now rewrite lt_elim.
Qed.

Lemma consumir_fifo_vacia (fuel : nat) (c : Consumo) :
  cola c = [] -> consumir_fifo fuel c = Some c.
Proof. intros H. destruct fuel; simpl; now rewrite H. Qed.

Lemma consumir_fifo_paso (fuel : nat) (c : Consumo) (lote : Lote)
      (resto : list Lote) :
  cola c = lote :: resto -> 0 < restante c ->
  consumir_fifo (S fuel) c = consumir_fifo fuel (consumir_lote c lote resto).
Proof. intros Hq Hr. simpl. rewrite Hq. now rewrite lt_intro. Qed.

(** What one turn leaves: the head lot is dropped, or it stays, cut down
    to more than [epsilon], and then nothing remains to be matched. *)
Lemma consumir_lote_casos (c : Consumo) (lote : Lote) (resto : list Lote) :
  let t := Py.min (restante c) (cantidad_disponible lote) in
  (cantidad_disponible lote - t <= epsilon
   /\ cola (consumir_lote c lote resto) = resto)
  \/ (epsilon < cantidad_disponible lote - t
      /\ cola (consumir_lote c lote resto) = descontar lote t :: resto
      /\ restante (consumir_lote c lote resto) <= 0).
Proof.
  intros t. unfold consumir_lote. fold t. simpl.
  destruct (Py.le (cantidad_disponible lote - t) epsilon) eqn:E.
  - left. split; [now apply le_true | reflexivity].
  - right. apply le_false in E. split; [exact E|]. split; [reflexivity|].
    subst t.
    destruct (min_cases (restante c) (cantidad_disponible lote))
      as [[Hm _] | [Hm _]]; rewrite Hm in *.
    + unfold epsilon in E. lra.
    + lra.
Qed.

(** The loop stops: a queue of [n] lots needs at most [n] turns. *)
Lemma consumir_fifo_total (fuel : nat) (c : Consumo) :
  (length (cola c) <= fuel)%nat -> exists c', consumir_fifo fuel c = Some c'.
Proof.
  revert c. induction fuel as [|fuel IH]; intros c Hlen.
  - destruct (cola c) eqn:Hq; simpl in Hlen; [|lia].
    exists c. now apply consumir_fifo_vacia.
  - destruct (cola c) as [|lote resto] eqn:Hq.
    { exists c. now apply consumir_fifo_vacia. }
    destruct (Qlt_le_dec 0 (restante c)) as [Hr | Hr].
    + rewrite (consumir_fifo_paso _ _ _ _ Hq Hr).
      destruct (consumir_lote_casos c lote resto) as [[_ Hc] | (_ & _ & Hz)].
      * apply IH. rewrite Hc. simpl in Hlen. lia.
      * eexists. now apply consumir_fifo_parado.
    + exists c. now apply consumir_fifo_parado.
Qed.

(** The fuel given by [procesar_fila] is enough, and more fuel changes
    nothing. *)
Lemma consumir_fifo_mas_fuel (fuel fuel' : nat) (c c' : Consumo) :
  consumir_fifo fuel c = Some c' -> (fuel <= fuel')%nat ->
  consumir_fifo fuel' c = Some c'.
Proof.
  revert fuel' c. induction fuel as [|fuel IH]; intros fuel' c H Hle.
  - simpl in H. destruct (cola c) as [|lote resto] eqn:Hq.
    + inversion H; subst. now apply consumir_fifo_vacia.
    + destruct (Py.lt 0 (restante c)) eqn:E; [discriminate|].
      inversion H; subst. apply consumir_fifo_parado. now apply lt_false.
  - destruct fuel' as [|fuel']; [lia|].
    simpl in *. destruct (cola c) as [|lote resto]; [exact H|].
    destruct (Py.lt 0 (restante c)); [|exact H].
    apply IH; [exact H | lia].
Qed.

(** First in, first out: the loop takes from the lots of the queue in
    their order, starting at the head, and from no lot before the lot
    ahead of it is used up and dropped. *)
Lemma consumir_fifo_orden (fuel : nat) (c c' : Consumo) :
  consumir_fifo fuel c = Some c' ->
  exists ts : list Q,
    lotes_info c' = lotes_info c ++ traza ts (cola c)
    /\ coste_adq c' = coste_de ts (cola c) (coste_adq c)
    /\ restante c' = resto_de ts (restante c)
    /\ cola_tras (cola c) ts (cola c').
Proof.
  revert c. induction fuel as [|fuel IH]; intros c H.
  - exists []. simpl in H.
    assert (c' = c) as ->.
    { destruct (cola c); [congruence|].
      destruct (Py.lt 0 (restante c)); congruence. }
    unfold traza, coste_de, resto_de. simpl. rewrite app_nil_r.
    repeat split; auto. apply (tras_agotados (cola c) []). constructor.
  - simpl in H. destruct (cola c) as [|lote resto] eqn:Hq.
    { inversion H; subst c'. exists [].
      unfold traza, coste_de, resto_de. simpl. rewrite app_nil_r, Hq.
      repeat split; auto. apply (tras_agotados [] []). constructor. }
    destruct (Py.lt 0 (restante c)) eqn:Hr.
    2:{ inversion H; subst c'. exists [].
        unfold traza, coste_de, resto_de. simpl. rewrite app_nil_r, Hq.
        repeat split; auto.
        apply (tras_agotados (lote :: resto) []). constructor. }
    set (t := Py.min (restante c) (cantidad_disponible lote)).
    destruct (consumir_lote_casos c lote resto)
      as [[Hle Hc] | (Heps & Hc & Hz)]; fold t in Hc; try fold t in Hle.
    + destruct (IH _ H) as (ts & Hi & Hco & Hre & Hcola).
      rewrite Hc in Hi, Hco, Hcola.
      exists (t :: ts). unfold traza, coste_de, resto_de in *. simpl.
      rewrite Hi, Hco, Hre. simpl. fold t.
      rewrite <- app_assoc. simpl. repeat split; auto.
      inversion Hcola as [Hall Heq | ts0 t0 lote0 Hts Hall Hlk He Heq].
      * apply (tras_agotados (lote :: resto) (t :: ts)).
        simpl. now constructor.
      * subst ts.
        apply (tras_parcial (lote :: resto) (t :: ts0 ++ [t0])
                            (t :: ts0) t0 lote0); auto.
        simpl. now constructor.
    + rewrite (consumir_fifo_parado _ _ Hz) in H. inversion H; subst c'.
      exists [t]. rewrite Hc. repeat split; auto.
      apply (tras_parcial (lote :: resto) [t] [] t lote); auto.
Qed.

(** ** One row *)

Lemma cola_de_asegurar (cr : string) (m : gmap string (list Lote)) :
  cola_de (asegurar_cola cr m) cr = cola_de m cr.
Proof.
  unfold cola_de, asegurar_cola. destruct (m !! cr) eqn:E.
  - now rewrite E.
  - now rewrite lookup_insert_eq.
Qed.

Lemma cola_de_asegurar_ne (cr cr' : string) (m : gmap string (list Lote)) :
  cola_de (asegurar_cola cr m) cr' = cola_de m cr'.
Proof.
  destruct (decide (cr = cr')) as [<- | Hne]; [apply cola_de_asegurar|].
  unfold cola_de, asegurar_cola. destruct (m !! cr); [reflexivity|].
  now rewrite lookup_insert_ne.
Qed.

Lemma insert_asegurar (cr : string) (q : list Lote)
      (m : gmap string (list Lote)) :
  <[cr := q]> (asegurar_cola cr m) = <[cr := q]> m.
Proof.
  unfold asegurar_cola. destruct (m !! cr); [reflexivity|].
  apply insert_insert_eq.
Qed.

Lemma cola_de_insert (cr : string) (q : list Lote)
      (m : gmap string (list Lote)) :
  cola_de (<[cr := q]> m) cr = q.
Proof. unfold cola_de. now rewrite lookup_insert_eq. Qed.

Lemma cola_de_insert_ne (cr cr' : string) (q : list Lote)
      (m : gmap string (list Lote)) :
  cr <> cr' -> cola_de (<[cr := q]> m) cr' = cola_de m cr'.
Proof. intros H. unfold cola_de. now rewrite lookup_insert_ne. Qed.

(** A row passes the guard [if cantidad <= 0 or not cripto: continue]. *)
Lemma guarda_pasa (f : Fila) :
  0 < cantidad f -> cripto f <> EmptyString ->
  Py.le (cantidad f) 0 || Py.vacia (Py.lower (cripto f)) = false.
Proof.
  intros Hq Hc. rewrite le_elim by exact Hq. rewrite vacia_lower. simpl.
  destruct (cripto f); [congruence | reflexivity].
Qed.

Lemma procesar_fila_compra (st : Estado) (f : Fila) :
  0 < cantidad f -> cripto f <> EmptyString -> tipo f = "Compra" ->
  procesar_fila st f
  = Some (mkEstado
            (<[Py.lower (cripto f) :=
                 cola_de (colas st) (Py.lower (cripto f)) ++ [lote_de f]]>
               (colas st))
            (ventas st)).
Proof.
  intros Hq Hc Ht. unfold procesar_fila.
  rewrite (guarda_pasa f Hq Hc), Ht. simpl.
  now rewrite cola_de_asegurar, insert_asegurar.
Qed.

Lemma procesar_fila_venta (st : Estado) (f : Fila) (c : Consumo) :
  0 < cantidad f -> cripto f <> EmptyString -> es_venta f ->
  consumir_fifo (length (cola_de (colas st) (Py.lower (cripto f))))
                (mkConsumo (cantidad f) 0 []
                           (cola_de (colas st) (Py.lower (cripto f))))
  = Some c ->
  procesar_fila st f
  = Some (mkEstado (<[Py.lower (cripto f) := cola c]> (colas st))
                   (ventas st ++
                      [registro_venta f (Py.lower (cripto f)) c])).
Proof.
  intros Hq Hc Ht Hloop. unfold procesar_fila.
  rewrite (guarda_pasa f Hq Hc). rewrite cola_de_asegurar, Hloop.
  rewrite !insert_asegurar.
  destruct Ht as [Ht | Ht]; rewrite Ht; reflexivity.
Qed.

(** No row makes the loop run out of fuel: every row is processed. *)
Lemma procesar_fila_total (st : Estado) (f : Fila) :
  exists st', procesar_fila st f = Some st'.
Proof.
  unfold procesar_fila.
  destruct (Py.le (cantidad f) 0 || Py.vacia (Py.lower (cripto f)));
    [eauto|].
  destruct (String.eqb (tipo f) "Compra"); [eauto|].
  destruct (String.eqb (tipo f) "Venta" || String.eqb (tipo f) "Donacion");
    [|eauto].
  match goal with
  | |- context [consumir_fifo ?n ?c] =>
      destruct (consumir_fifo_total n c) as [c' Hc']; [simpl; lia|]
  end.
  rewrite Hc'. eauto.
Qed.

Lemma procesar_filas_total (l : list Fila) (st : Estado) :
  exists st', procesar_filas st l = Some st'.
Proof.
  revert st. induction l as [|f l IH]; intros st; simpl; [eauto|].
  destruct (procesar_fila_total st f) as [st1 ->]. apply IH.
Qed.

Lemma procesar_filas_app (l1 l2 : list Fila) (st : Estado) :
  procesar_filas st (l1 ++ l2)
  = match procesar_filas st l1 with
    | Some st1 => procesar_filas st1 l2
    | None => None
    end.
Proof.
  revert st. induction l1 as [|f l1 IH]; intros st; simpl; [reflexivity|].
  destruct (procesar_fila st f); [apply IH | reflexivity].
Qed.

(** The four ways through the body of the row loop. *)
Lemma procesar_fila_casos (st st' : Estado) (f : Fila) :
  procesar_fila st f = Some st' ->
  let cr := Py.lower (cripto f) in
  ((cantidad f <= 0 \/ cripto f = EmptyString) /\ st' = st)
  \/ (0 < cantidad f /\ cripto f <> EmptyString /\ tipo f = "Compra"
      /\ st' = mkEstado (<[cr := cola_de (colas st) cr ++ [lote_de f]]>
                           (colas st))
                        (ventas st))
  \/ (0 < cantidad f /\ cripto f <> EmptyString /\ es_venta f
      /\ exists c,
           consumir_fifo (length (cola_de (colas st) cr))
                         (mkConsumo (cantidad f) 0 []
                                    (cola_de (colas st) cr)) = Some c
           /\ st' = mkEstado (<[cr := cola c]> (colas st))
                             (ventas st ++ [registro_venta f cr c]))
  \/ (0 < cantidad f /\ cripto f <> EmptyString
      /\ tipo f <> "Compra" /\ ~ es_venta f
      /\ st' = mkEstado (asegurar_cola cr (colas st)) (ventas st)).
Proof.
  intros H cr. unfold procesar_fila in H. fold cr in H.
  destruct (Py.le (cantidad f) 0) eqn:Hq; simpl in H.
  { left. inversion H. split; auto. left. now apply le_true. }
  apply le_false in Hq.
  destruct (Py.vacia cr) eqn:Hv; simpl in H.
  { left. inversion H. split; auto. right.
    unfold cr in Hv. rewrite vacia_lower in Hv. now apply vacia_true. }
  assert (Hc : cripto f <> EmptyString).
  { intros He. unfold cr in Hv. rewrite vacia_lower, He in Hv.
    discriminate. }
  right.
  destruct (String.eqb_spec (tipo f) "Compra") as [Ht | Ht].
  { left. rewrite cola_de_asegurar, insert_asegurar in H.
    inversion H. auto. }
  right.
  destruct (String.eqb_spec (tipo f) "Venta") as [Hv1 | Hv1];
    [|destruct (String.eqb_spec (tipo f) "Donacion") as [Hv2 | Hv2]];
    simpl in H.
  - left. rewrite cola_de_asegurar in H.
    destruct (consumir_fifo _ _) as [c|] eqn:Hloop; [|discriminate].
    rewrite insert_asegurar in H. inversion H.
    repeat split; auto; [now left | eauto].
  - left. rewrite cola_de_asegurar in H.
    destruct (consumir_fifo _ _) as [c|] eqn:Hloop; [|discriminate].
    rewrite insert_asegurar in H. inversion H.
    repeat split; auto; [now right | eauto].
  - right. inversion H. repeat split; auto.
    intros [Hx | Hx]; congruence.
Qed.

(** ** Lots in the queues are positive *)

Lemma cola_tras_positivos (q q' : list Lote) (ts : list Q) :
  cola_tras q ts q' -> Forall lote_positivo q -> Forall lote_positivo q'.
Proof.
  intros H Hq. destruct H as [_ | ts0 t lote _ _ _ Heps].
  - now apply Forall_drop.
  - constructor; [|now apply Forall_drop].
    unfold lote_positivo, epsilon in *. simpl. lra.
Qed.

Lemma lotes_positivos_inicial : lotes_positivos estado_inicial.
Proof. intros cr. unfold cola_de. simpl. rewrite lookup_empty. constructor. Qed.

Lemma procesar_fila_positivos (st st' : Estado) (f : Fila) :
  procesar_fila st f = Some st' ->
  lotes_positivos st -> lotes_positivos st'.
Proof.
  intros H Hst cr'.
  destruct (procesar_fila_casos _ _ _ H)
    as [[_ ->] | [(Hq & _ & _ & ->) | [(_ & _ & _ & c & Hc & ->)
                                     | (_ & _ & _ & _ & ->)]]];
    simpl; auto.
  - destruct (decide (Py.lower (cripto f) = cr')) as [<- | Hne].
    + rewrite cola_de_insert. apply Forall_app. split; [apply Hst|].
      repeat constructor. exact Hq.
    + rewrite cola_de_insert_ne by exact Hne. apply Hst.
  - destruct (decide (Py.lower (cripto f) = cr')) as [<- | Hne].
    + rewrite cola_de_insert.
      destruct (consumir_fifo_orden _ _ _ Hc) as (ts & _ & _ & _ & Hcola).
      eapply cola_tras_positivos; [exact Hcola|]. apply Hst.
    + rewrite cola_de_insert_ne by exact Hne. apply Hst.
  - rewrite cola_de_asegurar_ne. apply Hst.
Qed.

Lemma procesar_filas_positivos (l : list Fila) (st st' : Estado) :
  procesar_filas st l = Some st' ->
  lotes_positivos st -> lotes_positivos st'.
Proof.
  revert st. induction l as [|f l IH]; intros st H Hst; simpl in H.
  - now inversion H; subst.
  - destruct (procesar_fila st f) as [st1|] eqn:E; [|discriminate].
    eapply IH; [exact H|]. eapply procesar_fila_positivos; eauto.
Qed.

(** ** A disposal larger than the queue *)

Lemma disponible_cons (l : Lote) (q : list Lote) :
  disponible (l :: q) == cantidad_disponible l + disponible q.
Proof. unfold disponible, cantidades. simpl. apply sum_cons. Qed.

Lemma coste_cola_cons (l : Lote) (q : list Lote) :
  coste_cola (l :: q)
  == cantidad_disponible l * coste_unit l + coste_cola q.
Proof. unfold coste_cola. simpl. apply sum_cons. Qed.

Lemma disponible_no_negativo (q : list Lote) :
  Forall lote_positivo q -> 0 <= disponible q.
Proof.
  induction 1 as [|l q Hl _ IH].
  - unfold disponible, Py.sum. simpl. lra.
  - rewrite disponible_cons. unfold lote_positivo in Hl. lra.
Qed.

Lemma resto_de_cantidades (q : list Lote) (r : Q) :
  resto_de (cantidades q) r == r - disponible q.
Proof.
  revert r. induction q as [|l q IH]; intros r.
  - unfold resto_de, disponible, Py.sum. simpl. lra.
  - unfold resto_de in *. simpl. rewrite IH, disponible_cons. lra.
Qed.

Lemma coste_de_cantidades (q : list Lote) (c0 : Q) :
  coste_de (cantidades q) q c0 == c0 + coste_cola q.
Proof.
  revert c0. induction q as [|l q IH]; intros c0.
  - unfold coste_de, coste_cola, Py.sum. simpl. lra.
  - unfold coste_de in *. simpl. rewrite IH, coste_cola_cons. lra.
Qed.

(** A lot smaller than what is left to match is taken whole and
    dropped. *)
Lemma consumir_lote_entero (c : Consumo) (lote : Lote) (resto : list Lote) :
  cantidad_disponible lote < restante c ->
  consumir_lote c lote resto
  = mkConsumo (restante c - cantidad_disponible lote)
              (coste_adq c + cantidad_disponible lote * coste_unit lote)
              (lotes_info c ++ [lote_info (cantidad_disponible lote) lote])
              resto.
Proof.
  intros H. unfold consumir_lote, Py.min. rewrite (lt_intro _ _ H). simpl.
  rewrite le_intro; [reflexivity|]. unfold epsilon. lra.
Qed.

(** When the quantity to match exceeds the whole queue by more than
    [epsilon], every lot is taken whole, in order, and the queue ends
    empty. *)
Lemma consumir_fifo_todo (q : list Lote) (fuel : nat) (c : Consumo) :
  cola c = q -> Forall lote_positivo q ->
  disponible q + epsilon < restante c ->
  (length q <= fuel)%nat ->
  consumir_fifo fuel c
  = Some (mkConsumo (resto_de (cantidades q) (restante c))
                    (coste_de (cantidades q) q (coste_adq c))
                    (lotes_info c ++ traza (cantidades q) q)
                    []).
Proof.
  revert fuel c. induction q as [|lote resto IH]; intros fuel c Hq Hpos Hr Hf.
  - rewrite (consumir_fifo_vacia _ _ Hq).
    destruct c as [r co inf qq]. simpl in *. subst qq.
    unfold resto_de, coste_de, traza. simpl. now rewrite app_nil_r.
  - destruct fuel as [|fuel]; [simpl in Hf; lia|].
    apply Forall_cons in Hpos as [Hl Hpos].
    pose proof (disponible_no_negativo _ Hpos) as Hnn.
    rewrite disponible_cons in Hr. unfold lote_positivo, epsilon in *.
    rewrite (consumir_fifo_paso _ _ _ _ Hq) by lra.
    rewrite consumir_lote_entero by lra.
    rewrite (IH fuel); simpl; auto; [|lra | simpl in Hf; lia].
    unfold resto_de, coste_de, traza. simpl. now rewrite <- app_assoc.
Qed.

(** ** Malformed rows *)

(** C7.  A row whose quantity is not positive, or whose asset name is
    empty, is skipped: the row loop goes on from the very same state, so
    no lot is appended, no disposal record is emitted and every queue is
    as it was; and a whole run over rows of which some are malformed ends
    as the run over the other rows alone. *)
Theorem C7_fila_malformada_omitida (st : Estado) (f : Fila) (l1 l2 : list Fila) :
  cantidad f <= 0 \/ cripto f = EmptyString ->
  procesar_fila st f = Some st
  /\ procesar_filas st (l1 ++ f :: l2) = procesar_filas st (l1 ++ l2).
Proof.
  intros H.
  assert (Hf : forall s, procesar_fila s f = Some s).
  { intros s. unfold procesar_fila. destruct H as [H | H].
    - now rewrite (le_intro _ _ H).
    - rewrite H. simpl. now rewrite orb_true_r. }
  split; [apply Hf|].
  rewrite !procesar_filas_app. destruct (procesar_filas st l1); auto.
  simpl. now rewrite Hf.
Qed.

Lemma C7_fila_malformada_omitida_witness :
  (cantidad fila_cantidad_cero <= 0
   \/ cripto fila_cantidad_cero = EmptyString)
  /\ procesar_fila estado_inicial fila_cantidad_cero = Some estado_inicial
  /\ procesar_filas estado_inicial
       ([fila_compra_btc] ++ fila_cantidad_cero :: [])
     = procesar_filas estado_inicial ([fila_compra_btc] ++ []).
Proof.
  assert (H : cantidad fila_cantidad_cero <= 0
              \/ cripto fila_cantidad_cero = EmptyString).
  { left. simpl. lra. }
  split; [exact H|].
  exact (C7_fila_malformada_omitida estado_inicial fila_cantidad_cero
           [fila_compra_btc] [] H).
Defined.

(** ** Shortfall *)

(** C2.  In any state the row loop can reach, a sale or donation of a
    named asset whose quantity exceeds what the queue of that asset holds
    by more than [epsilon] is processed: it empties the queue and appends
    exactly one record.  The note of the record is the shortfall text for
    the unmatched quantity (the quantity sold less the quantity held) and
    the asset; the acquisition cost is the cost of the lots that were
    held, nothing being added for the unmatched part; and the gain is the
    net value less that cost. *)
Theorem C2_venta_sin_historico (pre : list Fila) (st : Estado) (f : Fila) :
  procesar_filas estado_inicial pre = Some st ->
  es_venta f -> cripto f <> EmptyString ->
  disponible (cola_de (colas st) (Py.lower (cripto f))) + epsilon
    < cantidad f ->
  let cr := Py.lower (cripto f) in
  let q := cola_de (colas st) cr in
  let sin_casar := resto_de (cantidades q) (cantidad f) in
  exists v : Venta,
    procesar_fila st f
    = Some (mkEstado (<[cr := []]> (colas st)) (ventas st ++ [v]))
    /\ nota v = nota_sin_historico sin_casar cr
    /\ sin_casar == cantidad f - disponible q
    /\ coste_adquisicion_total_eur v == coste_cola q
    /\ valor_transmision_neto_eur v = valor_eur f - fee_de f
    /\ ganancia_perdida_eur v
       = valor_transmision_neto_eur v - coste_adquisicion_total_eur v.
Proof.
  intros Hpre Hv Hc Hmas cr q sin_casar.
  assert (Hpos : Forall lote_positivo q).
  { apply (procesar_filas_positivos _ _ _ Hpre lotes_positivos_inicial). }
  pose proof (disponible_no_negativo _ Hpos) as Hnn.
  assert (Hcant : 0 < cantidad f).
  { fold cr q in Hmas. unfold epsilon in Hmas. lra. }
  pose proof (resto_de_cantidades q (cantidad f)) as Hresto.
  fold sin_casar in Hresto.
  set (c := mkConsumo sin_casar (coste_de (cantidades q) q 0)
                      ([] ++ traza (cantidades q) q) []).
  assert (Hloop : consumir_fifo (length q) (mkConsumo (cantidad f) 0 [] q)
                  = Some c).
  { apply consumir_fifo_todo; simpl; auto. }
  exists (registro_venta f cr c).
  split; [apply (procesar_fila_venta st f c Hcant Hc Hv Hloop)|].
  unfold registro_venta. simpl.
  repeat split.
  - rewrite lt_intro; [reflexivity|].
    fold cr q in Hmas. rewrite Hresto. lra.
  - exact Hresto.
  - rewrite coste_de_cantidades. lra.
Qed.

Lemma C2_venta_sin_historico_witness :
  exists v : Venta,
    procesar_fila estado_tras_compra_4 fila_venta_10
    = Some (mkEstado (<["btc" := []]> (colas estado_tras_compra_4)) [v])
    /\ nota v = "Sin histórico para 6.00000000 btc"
    /\ coste_adquisicion_total_eur v == 400
    /\ ganancia_perdida_eur v == 3000 - 30 - 400.
Proof.
  destruct (C2_venta_sin_historico [fila_compra_4] estado_tras_compra_4
              fila_venta_10)
    as (v & Hst & Hnota & _ & Hcoste & Hneto & Hgan).
  - vm_compute. reflexivity.
  - left. reflexivity.
  - discriminate.
  - vm_compute. reflexivity.
  - exists v. split; [exact Hst|]. split; [exact Hnota|].
    split; [rewrite Hcoste; vm_compute; reflexivity|].
    rewrite Hgan, Hneto, Hcoste. vm_compute. reflexivity.
Defined.

(** ** Lots left in the queues *)

(** A disposal of exactly what the head lot holds takes that lot whole
    and stops. *)
Lemma consumir_fifo_exacto (fuel : nat) (c : Consumo) (lote : Lote)
      (resto : list Lote) :
  cola c = lote :: resto -> lote_positivo lote ->
  restante c == cantidad_disponible lote ->
  consumir_fifo (S fuel) c
  = Some (mkConsumo (restante c - restante c)
                    (coste_adq c + restante c * coste_unit lote)
                    (lotes_info c ++ [lote_info (restante c) lote])
                    resto).
Proof.
  intros Hq Hpos Heq. unfold lote_positivo in Hpos.
  rewrite (consumir_fifo_paso _ _ _ _ Hq) by lra.
  assert (Hlote : consumir_lote c lote resto
                  = mkConsumo (restante c - restante c)
                      (coste_adq c + restante c * coste_unit lote)
                      (lotes_info c ++ [lote_info (restante c) lote])
                      resto).
  { unfold consumir_lote, Py.min. rewrite lt_elim by lra. simpl.
    rewrite le_intro; [reflexivity|]. unfold epsilon. lra. }
  rewrite Hlote. apply consumir_fifo_parado. simpl. lra.
Qed.

(** C6, as the code has it.  In every state the row loop reaches, every
    row is processed, and afterwards each lot of each queue holds a
    positive quantity.  A sale or donation takes from the lots of its
    queue from the head on, and a lot that is left with [epsilon] or less
    is dropped at once: the queue after the row is the queue before less
    the lots taken from, but for the last of them, which may stay as the
    head with more than [epsilon].  A row that disposes of the quantity
    of the head lot drops that lot: the queue after it is the rest of the
    queue, one lot shorter. *)
Theorem C6_lotes_tras_procesar (pre : list Fila) (st : Estado) (f : Fila) :
  procesar_filas estado_inicial pre = Some st ->
  let cr := Py.lower (cripto f) in
  let q := cola_de (colas st) cr in
  exists st' : Estado,
    procesar_fila st f = Some st'
    /\ lotes_positivos st'
    /\ (es_venta f -> 0 < cantidad f -> cripto f <> EmptyString ->
        exists ts : list Q, cola_tras q ts (cola_de (colas st') cr))
    /\ (es_venta f -> cripto f <> EmptyString ->
        forall lote resto,
          q = lote :: resto -> cantidad f == cantidad_disponible lote ->
          cola_de (colas st') cr = resto
          /\ length (cola_de (colas st') cr) = (length q - 1)%nat).
Proof.
  intros Hpre cr q.
  destruct (procesar_fila_total st f) as [st' Hf].
  exists st'. split; [exact Hf|].
  pose proof (procesar_filas_positivos _ _ _ Hpre lotes_positivos_inicial)
    as Hpos.
  split; [eapply procesar_fila_positivos; eauto|].
  split.
  - intros Hv Hq Hc.
    destruct (consumir_fifo_total (length q) (mkConsumo (cantidad f) 0 [] q))
      as [c Hloop]; [simpl; lia|].
    pose proof (procesar_fila_venta st f c Hq Hc Hv Hloop) as Hst'.
    rewrite Hf in Hst'. inversion Hst' as [Heq].
    destruct (consumir_fifo_orden _ _ _ Hloop) as (ts & _ & _ & _ & Hcola).
    exists ts. simpl. rewrite cola_de_insert. exact Hcola.
  - intros Hv Hc lote resto Hq Hcant.
    assert (Hl : lote_positivo lote).
    { specialize (Hpos cr). fold q in Hpos. rewrite Hq in Hpos.
      now apply Forall_cons in Hpos as [Hl _]. }
    assert (Hloop : consumir_fifo (length q) (mkConsumo (cantidad f) 0 [] q)
                    = Some (mkConsumo (cantidad f - cantidad f)
                              (0 + cantidad f * coste_unit lote)
                              ([] ++ [lote_info (cantidad f) lote])
                              resto)).
    { rewrite Hq. simpl length.
      apply (consumir_fifo_exacto _ (mkConsumo (cantidad f) 0 []
                                               (lote :: resto))); auto. }
    assert (Hcant' : 0 < cantidad f).
    { unfold lote_positivo in Hl. lra. }
    pose proof (procesar_fila_venta st f _ Hcant' Hc Hv Hloop) as Hst'.
    rewrite Hf in Hst'. inversion Hst' as [Heq].
    simpl. rewrite cola_de_insert.
    split; [reflexivity|]. rewrite Hq. simpl. lia.
Qed.

Lemma C6_lotes_tras_procesar_witness :
  exists st' : Estado,
    procesar_fila estado_tras_compra_4 fila_venta_4 = Some st'
    /\ lotes_positivos st'
    /\ cola_de (colas st') "btc" = []
    /\ length (cola_de (colas st') "btc")
       = (length (cola_de (colas estado_tras_compra_4) "btc") - 1)%nat.
Proof.
  destruct (C6_lotes_tras_procesar [fila_compra_4] estado_tras_compra_4
              fila_venta_4)
    as (st' & Hst' & Hpos & _ & Hexacto).
  - vm_compute. reflexivity.
  - exists st'. split; [exact Hst'|]. split; [exact Hpos|].
    apply (Hexacto (or_introl eq_refl) ltac:(discriminate)
                   (lote_de fila_compra_4) []).
    + vm_compute. reflexivity.
    + vm_compute. reflexivity.
Defined.

(** C6, as stated, fails: after a purchase of a quantity that is positive
    but not above [epsilon], the queue holds a lot of that quantity. *)
Lemma C6_counterexample :
  ~ (forall (pre : list Fila) (st : Estado),
       procesar_filas estado_inicial pre = Some st ->
       lotes_sobre_epsilon st).
Proof.
  intros H.
  assert (Hrun : procesar_filas estado_inicial [fila_compra_polvo]
                 = Some (mkEstado (<["eth" := [lote_de fila_compra_polvo]]> ∅)
                                  [])).
  { vm_compute. reflexivity. }
  specialize (H _ _ Hrun "eth"). cbn [colas] in H.
  rewrite cola_de_insert in H.
  apply Forall_cons in H as [Hl _].
  vm_compute in Hl. discriminate.
Qed.

(** ** First in, first out *)

Lemma tres_crecientes (a b c : Fila) :
  date_ltb (fecha a) (fecha b) = true ->
  date_ltb (fecha b) (fecha c) = true ->
  StronglySorted fecha_lt [a; b; c].
Proof.
  intros Hab Hbc.
  assert (Hac : date_ltb (fecha a) (fecha c) = true).
  { eapply date_ltb_leb_trans; [exact Hab|]. now apply date_ltb_leb. }
  repeat constructor; assumption.
Qed.

(** A lot larger than what is left to match by more than [epsilon] is
    cut down and kept, and the loop ends. *)
Lemma consumir_fifo_parcial (fuel : nat) (c : Consumo) (lote : Lote)
      (resto : list Lote) :
  cola c = lote :: resto -> 0 < restante c ->
  restante c + epsilon < cantidad_disponible lote ->
  consumir_fifo (S fuel) c
  = Some (mkConsumo (restante c - restante c)
                    (coste_adq c + restante c * coste_unit lote)
                    (lotes_info c ++ [lote_info (restante c) lote])
                    (descontar lote (restante c) :: resto)).
Proof.
  intros Hq Hr Hmas. unfold epsilon in Hmas.
  rewrite (consumir_fifo_paso _ _ _ _ Hq Hr).
  assert (Hlote : consumir_lote c lote resto
                  = mkConsumo (restante c - restante c)
                      (coste_adq c + restante c * coste_unit lote)
                      (lotes_info c ++ [lote_info (restante c) lote])
                      (descontar lote (restante c) :: resto)).
  { unfold consumir_lote, Py.min. rewrite lt_elim by lra. simpl.
    rewrite le_elim; [reflexivity|]. unfold epsilon. lra. }
  rewrite Hlote. apply consumir_fifo_parado. simpl. lra.
Qed.

(** C1.  Two purchases of one asset, of 2 units at 100 each and then of
    3 units at 200 each, and a later sale or donation of 4 units, on three
    increasing dates and given in any order, under any sort that does
    what [sort_values] guarantees: the run returns one record,
    whose acquisition cost is 2 x 100 + 2 x 200 = 600 and whose trace
    lists 2 units of the first lot and then 2 units of the second; the
    first lot is gone from the queue and the second is left with 3 - 2.
    In general the loop takes from the lots in queue order, head first
    ([consumir_fifo_orden]): its trace, its cost and the queue it leaves
    are those of amounts taken from the first lots of the queue, one per
    lot, each lot but the last being used up. *)
Theorem C1_fifo_dos_lotes (sort_values : list Fila -> list Fila)
        (a1 a2 d : Fila) (df : list Fila) :
  ordena_por_fecha sort_values ->
  Permutation [a1; a2; d] df ->
  tipo a1 = "Compra" -> tipo a2 = "Compra" -> es_venta d ->
  cripto a1 <> EmptyString -> cripto a2 = cripto a1 -> cripto d = cripto a1 ->
  cantidad a1 = 2 -> cantidad a2 = 3 -> cantidad d = 4 ->
  coste_unit (lote_de a1) == 100 -> coste_unit (lote_de a2) == 200 ->
  date_ltb (fecha a1) (fecha a2) = true ->
  date_ltb (fecha a2) (fecha d) = true ->
  (exists v : Venta,
     calcular_fifo sort_values df = Some [v]
     /\ procesar_filas estado_inicial (sort_values df)
        = Some (mkEstado
                  (<[Py.lower (cripto a1) := [descontar (lote_de a2) 2]]> ∅)
                  [v])
     /\ coste_adquisicion_total_eur v == 600
     /\ lotes_origen_info v
        = lote_info 2 (lote_de a1) +:+ "; " +:+ lote_info 2 (lote_de a2)
     /\ nota v = EmptyString)
  /\ (forall (fuel : nat) (c c' : Consumo),
        consumir_fifo fuel c = Some c' ->
        exists ts : list Q,
          lotes_info c' = lotes_info c ++ traza ts (cola c)
          /\ coste_adq c' = coste_de ts (cola c) (coste_adq c)
          /\ restante c' = resto_de ts (restante c)
          /\ cola_tras (cola c) ts (cola c')).
Proof.
  intros Hsort Hp Ht1 Ht2 Htd Hc1 Hc2 Hcd Hq1 Hq2 Hqd Hu1 Hu2 H12 H2d.
  split; [|apply consumir_fifo_orden].
  set (cr := Py.lower (cripto a1)).
  set (l1 := lote_de a1) in *. set (l2 := lote_de a2) in *.
  assert (Ecr : Py.lower (cripto a1) = cr) by reflexivity.
  assert (El1 : lote_de a1 = l1) by reflexivity.
  assert (El2 : lote_de a2 = l2) by reflexivity.
  assert (Hl1 : cantidad_disponible l1 = 2) by exact Hq1.
  assert (Hl2 : cantidad_disponible l2 = 3) by exact Hq2.
  clearbody cr l1 l2.
  set (c2 := mkConsumo (4 - 2 - (4 - 2))
                       (0 + 2 * coste_unit l1 + (4 - 2) * coste_unit l2)
                       (([] ++ [lote_info 2 l1]) ++ [lote_info (4 - 2) l2])
                       [descontar l2 (4 - 2)]).
  assert (Hloop : consumir_fifo 2 (mkConsumo 4 0 [] [l1; l2]) = Some c2).
  { rewrite (consumir_fifo_paso 1 (mkConsumo 4 0 [] [l1; l2]) l1 [l2] eq_refl)
      by (simpl; lra).
    rewrite consumir_lote_entero by (simpl; rewrite Hl1; lra).
    cbn [restante coste_adq lotes_info cola]. rewrite Hl1.
    rewrite (consumir_fifo_parcial 0
               (mkConsumo (4 - 2) (0 + 2 * coste_unit l1)
                          ([] ++ [lote_info 2 l1]) [l2])
               l2 [] eq_refl);
      [reflexivity | simpl; lra |].
    simpl. rewrite Hl2. unfold epsilon. lra. }
  assert (Hrun : procesar_filas estado_inicial [a1; a2; d]
                 = Some (mkEstado (<[cr := [descontar l2 2]]> ∅)
                                  [registro_venta d cr c2])).
  { cbn [procesar_filas].
    rewrite procesar_fila_compra; auto; [|rewrite Hq1; lra].
    rewrite Ecr, El1.
    rewrite procesar_fila_compra; auto;
      [|rewrite Hq2; lra | rewrite Hc2; exact Hc1].
    cbn [colas ventas]. rewrite Hc2, Ecr, El2.
    rewrite cola_de_insert.
    rewrite (procesar_fila_venta _ d c2); auto.
    - cbn [colas ventas]. rewrite Hcd, Ecr.
      rewrite !insert_insert_eq. reflexivity.
    - rewrite Hqd. lra.
    - rewrite Hcd. exact Hc1.
    - cbn [colas]. rewrite Hcd, Hqd, Ecr. rewrite cola_de_insert.
      unfold cola_de at 1. cbn [colas estado_inicial].
      rewrite lookup_empty. exact Hloop. }
  rewrite <- (sort_values_de_creciente sort_values [a1; a2; d] df) in Hrun;
    [|exact Hsort | now apply tres_crecientes | exact Hp].
  exists (registro_venta d cr c2).
  split; [unfold calcular_fifo; now rewrite Hrun|].
  split; [exact Hrun|].
  split; [|split].
  - simpl. rewrite Hu1, Hu2. lra.
  - unfold registro_venta, lotes_origen, c2.
    cbn [lotes_info lotes_origen_info].
    vm_compute. reflexivity.
  - reflexivity.
Qed.

Lemma C1_fifo_dos_lotes_witness :
  exists v : Venta,
    calcular_fifo ordenar_estable [fila_d4; fila_a1; fila_a2] = Some [v]
    /\ coste_adquisicion_total_eur v == 600
    /\ lotes_origen_info v
       = "2.00000000@2024-01-10@100.00; 2.00000000@2024-02-01@200.00".
Proof.
  destruct (C1_fifo_dos_lotes ordenar_estable fila_a1 fila_a2 fila_d4
              [fila_d4; fila_a1; fila_a2])
    as [(v & Hv & _ & Hcoste & Hinfo & _) _].
  - exact ordenar_estable_ordena.
  - apply Permutation_sym.
    apply (Permutation_cons_append [fila_a1; fila_a2] fila_d4).
  - reflexivity.
  - reflexivity.
  - left. reflexivity.
  - discriminate.
  - reflexivity.
  - reflexivity.
  - reflexivity.
  - reflexivity.
  - reflexivity.
  - vm_compute. reflexivity.
  - vm_compute. reflexivity.
  - reflexivity.
  - reflexivity.
  - exists v. split; [exact Hv|]. split; [exact Hcoste|]. exact Hinfo.
Defined.

(** ** The order of the rows: the sort of numpy *)

Module NpFacts.
Local Open Scope nat_scope.

Section Orden.

Context {A : Type}.
Variable less : A -> A -> bool.

Hypothesis less_irrefl : forall x, less x x = false.
Hypothesis less_trans :
  forall x y z, less x y = true -> less y z = true -> less x z = true.
Hypothesis less_neg_trans :
  forall x y z, less x y = false -> less y z = false -> less x z = false.

Lemma le_reflexiva (x : A) : (Np.le less) x x.
Proof. apply less_irrefl. Qed.

Lemma le_transitiva (x y z : A) : (Np.le less) x y -> (Np.le less) y z -> (Np.le less) x z.
Proof. unfold Np.le. intros H1 H2. exact (less_neg_trans z y x H2 H1). Qed.

Lemma less_implica_le (x y : A) : less x y = true -> (Np.le less) x y.
Proof.
  unfold Np.le. intros H. destruct (less y x) eqn:E; [|reflexivity].
  rewrite <- (less_irrefl x). symmetry. now apply (less_trans x y x).
Qed.

Lemma le_completa (x y : A) : (Np.le less) x y \/ (Np.le less) y x.
Proof.
  destruct (less x y) eqn:E; [left; now apply less_implica_le | now right].
Qed.

(** ** Swaps *)

Lemma swap_length (i j : nat) (a : list A) :
  length (Np.swap i j a) = length a.
Proof.
  unfold Np.swap. destruct (a !! i), (a !! j); auto.
  now rewrite !length_insert.
Qed.

Lemma swap_lookup (i j k : nat) (a : list A) :
  (i < length a)%nat -> (j < length a)%nat ->
  Np.swap i j a !! k
  = if decide (k = j) then a !! i
    else if decide (k = i) then a !! j else a !! k.
Proof.
  intros Hi Hj. unfold Np.swap.
  destruct (lookup_lt_is_Some_2 a i Hi) as [x Hx].
  destruct (lookup_lt_is_Some_2 a j Hj) as [y Hy].
  rewrite Hx, Hy.
  destruct (decide (k = j)) as [->|Hkj].
  - rewrite list_lookup_insert_eq; [reflexivity|].
    now rewrite length_insert.
  - rewrite list_lookup_insert_ne by congruence.
    destruct (decide (k = i)) as [->|Hki].
    + now rewrite list_lookup_insert_eq.
    + now rewrite list_lookup_insert_ne by congruence.
Qed.

Lemma swap_perm (i j : nat) (a : list A) : Np.swap i j a ≡ₚ a.
Proof.
  unfold Np.swap.
  destruct (a !! i) as [x|] eqn:Hx; [|reflexivity].
  destruct (a !! j) as [y|] eqn:Hy; [|reflexivity].
  destruct (decide (i = j)) as [->|Hij].
  - rewrite Hx in Hy. injection Hy as ->.
    rewrite list_insert_insert_eq. now rewrite list_insert_id.
  - symmetry. apply Permutation_inj.
    rewrite !length_insert. split; [reflexivity|].
    assert (Hi : (i < length a)%nat) by (eapply lookup_lt_Some; eauto).
    assert (Hj : (j < length a)%nat) by (eapply lookup_lt_Some; eauto).
    exists (fun k => if decide (k = i) then j
                     else if decide (k = j) then i else k).
    split.
    + intros k1 k2. repeat case_decide; congruence.
    + intros k. repeat case_decide; subst.
      * rewrite list_lookup_insert_eq; [congruence|].
        now rewrite length_insert.
      * rewrite list_lookup_insert_ne by congruence.
        rewrite list_lookup_insert_eq; [congruence | assumption].
      * now rewrite !list_lookup_insert_ne by congruence.
Qed.


(** ** The insertion loop *)

Lemma colocar_perm (x : A) (rp : list A) : Np.colocar less x rp ≡ₚ x :: rp.
Proof.
  induction rp as [|y rp IH]; simpl; [reflexivity|].
  destruct (less x y); [|reflexivity].
  rewrite IH. apply perm_swap.
Qed.

Lemma colocar_desc (x : A) (rp : list A) :
  StronglySorted (flip (Np.le less)) rp ->
  StronglySorted (flip (Np.le less)) (Np.colocar less x rp).
Proof.
  induction 1 as [|y rp Hrp IH Hy]; simpl; [repeat constructor|].
  destruct (less x y) eqn:E.
  - constructor; [exact IH|].
    rewrite (colocar_perm x rp). constructor; [|exact Hy].
    now apply less_implica_le.
  - constructor; [now constructor|].
    constructor; [exact E|].
    eapply Forall_impl; [exact Hy|]. simpl. intros z Hz.
    unfold flip in *. now apply (le_transitiva z y x).
Qed.

Lemma bucle_insercion_perm (a rp : list A) :
  fold_left (fun rp x => Np.colocar less x rp) a rp ≡ₚ rp ++ a.
Proof.
  revert rp. induction a as [|x a IH]; intros rp; simpl.
  - now rewrite app_nil_r.
  - rewrite IH, colocar_perm. simpl. apply Permutation_middle.
Qed.

Lemma bucle_insercion_desc (a rp : list A) :
  StronglySorted (flip (Np.le less)) rp ->
  StronglySorted (flip (Np.le less))
                 (fold_left (fun rp x => Np.colocar less x rp) a rp).
Proof.
  revert rp. induction a as [|x a IH]; intros rp H; simpl; [exact H|].
  apply IH. now apply colocar_desc.
Qed.

Lemma desc_rev (l : list A) :
  StronglySorted (flip (Np.le less)) l -> StronglySorted (Np.le less) (rev l).
Proof.
  induction 1 as [|x l Hl IH Hx]; simpl; [constructor|].
  apply StronglySorted_app_2; [|exact IH | repeat constructor].
  intros y z Hy Hz. apply list_elem_of_singleton in Hz as ->.
  apply list_elem_of_In, in_rev, list_elem_of_In in Hy.
  rewrite Forall_forall in Hx. exact (Hx y Hy).
Qed.

Lemma insercion_perm (a : list A) : Np.insercion less a ≡ₚ a.
Proof.
  unfold Np.insercion. rewrite <- Permutation_rev.
  apply (bucle_insercion_perm a []).
Qed.

Lemma insercion_sorted (a : list A) :
  StronglySorted (Np.le less) (Np.insercion less a).
Proof.
  unfold Np.insercion. apply desc_rev, bucle_insercion_desc. constructor.
Qed.

(** An entry goes past the entries above it only: those that a
    predicate takes together with it, none of which is above another,
    keep their order. *)
Lemma colocar_filter (p : A -> bool) (x : A) (rp : list A) :
  (forall u v, less u v = true -> p u = true -> p v = true -> False) ->
  List.filter p (rev (Np.colocar less x rp))
  = List.filter p (rev rp) ++ (if p x then [x] else []).
Proof.
  intros Hp. induction rp as [|y rp IH]; simpl.
  - now destruct (p x).
  - destruct (less x y) eqn:E; simpl.
    + rewrite !List.filter_app, IH. simpl. rewrite <- !app_assoc.
      f_equal.
      destruct (p x) eqn:Hx, (p y) eqn:Hy; simpl; try reflexivity.
      destruct (Hp x y E Hx Hy).
    + rewrite !List.filter_app. simpl. reflexivity.
Qed.

Lemma insercion_filter (p : A -> bool) (a : list A) :
  (forall u v, less u v = true -> p u = true -> p v = true -> False) ->
  List.filter p (Np.insercion less a) = List.filter p a.
Proof.
  intros Hp. unfold Np.insercion.
  assert (H : forall rp,
             List.filter p
               (rev (fold_left (fun rp x => Np.colocar less x rp) a rp))
             = List.filter p (rev rp) ++ List.filter p a).
  { induction a as [|x a IH]; intros rp; simpl.
    - now rewrite app_nil_r.
    - rewrite IH, colocar_filter by exact Hp.
      rewrite <- app_assoc. f_equal. now destruct (p x). }
  exact (H []).
Qed.

Lemma quick_S (fuel : nat) (cdepth : Z) (a : list A) :
  Np.quick less (S fuel) cdepth a
  = if (Np.SMALL_QUICKSORT <? length a - 1)%nat then
      let r := Np.particion less a in
      let pi := r.2 in
      let izq := take pi r.1 in
      let piv := take 1 (drop pi r.1) in
      let der := drop (S pi) r.1 in
      let cd := (cdepth - 1)%Z in
      let apilado x :=
        if (cd <? 0)%Z then Np.aheapsort less x
        else Np.quick less fuel cd x in
      if (pi <? length a - 1 - pi)%nat
      then Np.quick less fuel cd izq ++ piv ++ apilado der
      else apilado izq ++ piv ++ Np.quick less fuel cd der
    else Np.insercion less a.
Proof. reflexivity. Qed.

(** A range of at most sixteen entries is sorted by insertion alone. *)
Lemma aquicksort_corto (a : list A) :
  (length a <= 16)%nat -> Np.aquicksort less a = Np.insercion less a.
Proof.
  intros H. unfold Np.aquicksort.
  destruct a as [|x a]; [reflexivity|].
  simpl length in *. rewrite quick_S.
  destruct (Nat.ltb_spec Np.SMALL_QUICKSORT (length (x :: a) - 1)) as [Hlt|];
    [|reflexivity].
  unfold Np.SMALL_QUICKSORT in Hlt. simpl in Hlt. lia.
Qed.


(** ** The two scans of the partition *)

Lemma subir_spec (fuel : nat) (a : list A) (vp : A) (pi s : nat) (y : A) :
  a !! s = Some y -> less y vp = false ->
  (pi <= s)%nat -> (s - pi < fuel)%nat ->
  let r := Np.subir less fuel a vp pi in
  (pi <= r <= s)%nat
  /\ (forall k x, (pi <= k < r)%nat -> a !! k = Some x -> less x vp = true)
  /\ (exists x, a !! r = Some x /\ less x vp = false).
Proof.
  intros Hs Hy. revert pi.
  induction fuel as [|fuel IH]; intros pi Hle Hf; [lia|]. simpl.
  destruct (a !! pi) as [x|] eqn:Hx.
  - destruct (less x vp) eqn:E.
    + assert (Hne : pi <> s) by (intros ->; congruence).
      destruct (IH (S pi)) as (H1 & H2 & H3); [lia | lia |].
      split; [lia|]. split; [|exact H3].
      intros k z Hk Hz. destruct (decide (k = pi)) as [->|Hkp].
      * congruence.
      * apply (H2 k z); [lia | exact Hz].
    + split; [lia|]. split; [intros k z Hk; lia|]. eauto.
  - apply lookup_ge_None in Hx. apply lookup_lt_Some in Hs. lia.
Qed.

Lemma bajar_spec (a : list A) (vp : A) (pj s : nat) (y : A) :
  a !! s = Some y -> less vp y = false ->
  (s <= pj)%nat -> (pj < length a)%nat ->
  let r := Np.bajar less a vp pj in
  (s <= r <= pj)%nat
  /\ (forall k x, (r < k <= pj)%nat -> a !! k = Some x -> less vp x = true)
  /\ (exists x, a !! r = Some x /\ less vp x = false).
Proof.
  intros Hs Hy. induction pj as [|pj IH]; intros Hle Hlen; simpl.
  - assert (s = O) by lia. subst s. rewrite Hs, Hy.
    split; [lia|]. split; [intros k x Hk; lia | eauto].
  - destruct (lookup_lt_is_Some_2 a (S pj) Hlen) as [x Hx]. rewrite Hx.
    destruct (less vp x) eqn:E.
    + assert (Hne : S pj <> s) by (intros <-; congruence).
      destruct IH as (H1 & H2 & H3); [lia | lia |].
      split; [lia|]. split; [|exact H3].
      intros k z Hk Hz. destruct (decide (k = S pj)) as [->|Hkp].
      * congruence.
      * apply (H2 k z); [lia | exact Hz].
    + split; [lia|]. split; [intros k z Hk; lia | eauto].
Qed.

(** ** The loop of the partition *)

Lemma bucle_spec (fuel : nat) (a : list A) (vp : A) (pi pj top : nat) :
  (Np.partido less) a vp pi pj top -> (pj - pi <= fuel)%nat ->
  let r := Np.bucle less fuel a vp pi pj in
  r.1 ≡ₚ a /\ length r.1 = length a
  /\ r.1 !! top = Some vp
  /\ (pi < r.2 <= top)%nat
  /\ (forall k x, (k < r.2)%nat -> r.1 !! k = Some x -> less vp x = false)
  /\ (forall k x, (r.2 <= k)%nat -> r.1 !! k = Some x -> less x vp = false).
Proof.
  revert a pi pj. induction fuel as [|fuel IH];
    intros a pi pj (Hord & Htop & Hvp & Hizq & Hder) Hf; [lia|].
  cbn [Np.bucle].
  destruct (lookup_lt_is_Some_2 a pj ltac:(lia)) as [y Hy].
  destruct (lookup_lt_is_Some_2 a pi ltac:(lia)) as [z Hz].
  destruct (subir_spec (length a) a vp (S pi) pj y Hy (Hder pj y (le_n _) Hy))
    as (Hi1 & Hi2 & xi & Hxi & Hxi'); [lia | lia |].
  destruct (bajar_spec a vp (pred pj) pi z Hz (Hizq pi z (le_n _) Hz))
    as (Hj1 & Hj2 & xj & Hxj & Hxj'); [lia | lia |].
  set (pi' := Np.subir less (length a) a vp (S pi)) in *.
  set (pj' := Np.bajar less a vp (pred pj)) in *.
  assert (Hbajo : forall k x, (k < pi')%nat -> a !! k = Some x ->
                              less vp x = false).
  { intros k x Hk Hx. destruct (le_lt_dec k pi) as [Hki|Hki].
    - exact (Hizq k x Hki Hx).
    - apply (less_implica_le x vp). apply (Hi2 k x); [lia | exact Hx]. }
  assert (Halto : forall k x, (pj' < k)%nat -> a !! k = Some x ->
                              less x vp = false).
  { intros k x Hk Hx. destruct (le_lt_dec pj k) as [Hkj|Hkj].
    - exact (Hder k x Hkj Hx).
    - apply (less_implica_le vp x). apply (Hj2 k x); [lia | exact Hx]. }
  destruct (Nat.leb_spec pj' pi') as [Hcruce | Hsigue]; cbn [fst snd].
  - split; [reflexivity|]. split; [reflexivity|]. split; [exact Hvp|].
    split; [lia|]. split; [exact Hbajo|].
    intros k x Hk Hx. destruct (decide (k = pi')) as [->|Hne].
    + congruence.
    + apply (Halto k x); [lia | exact Hx].
  - assert (Hl1 : (pi' < length a)%nat) by lia.
    assert (Hl2 : (pj' < length a)%nat) by lia.
    destruct (IH (Np.swap pi' pj' a) pi' pj') as (P1 & P2 & P3 & P4 & P5 & P6).
    + split; [lia|]. rewrite swap_length. split; [exact Htop|].
      split; [|split].
      * rewrite swap_lookup by assumption.
        repeat case_decide; try lia. exact Hvp.
      * intros k x Hk. rewrite swap_lookup by assumption.
        repeat case_decide; try lia; intros Hx.
        -- congruence.
        -- apply (Hbajo k x); [lia | exact Hx].
      * intros k x Hk. rewrite swap_lookup by assumption.
        repeat case_decide; try lia; intros Hx.
        -- congruence.
        -- apply (Halto k x); [lia | exact Hx].
    + lia.
    + rewrite swap_length in P2.
      split; [etransitivity; [exact P1 | apply swap_perm]|].
      split; [exact P2|]. split; [exact P3|].
      split; [lia|]. split; assumption.
Qed.


(** ** The median of three *)

(** One test of the three: afterwards the entry at [i] is not below the
    entry at [j]. *)
Lemma mediana_paso (a : list A) (i j : nat) (xi xj : A) :
  i <> j -> a !! i = Some xi -> a !! j = Some xj ->
  let a' := if Np.menor less a i j then Np.swap i j a else a in
  a' ≡ₚ a /\ length a' = length a
  /\ (forall k, k <> i -> k <> j -> a' !! k = a !! k)
  /\ ((a' !! i = Some xi /\ a' !! j = Some xj /\ less xi xj = false)
      \/ (a' !! i = Some xj /\ a' !! j = Some xi /\ less xi xj = true)).
Proof.
  intros Hij Hi Hj. unfold Np.menor. rewrite Hi, Hj.
  assert (Hli : (i < length a)%nat) by (eapply lookup_lt_Some; eauto).
  assert (Hlj : (j < length a)%nat) by (eapply lookup_lt_Some; eauto).
  destruct (less xi xj) eqn:E; cbn zeta.
  - split; [apply swap_perm|]. split; [apply swap_length|]. split.
    + intros k Hki Hkj. rewrite swap_lookup by assumption.
      now repeat case_decide.
    + right. rewrite !swap_lookup by assumption.
      repeat case_decide; try congruence. auto.
  - split; [reflexivity|]. split; [reflexivity|]. split; auto.
Qed.

Lemma mediana_spec (a : list A) (pm pr : nat) :
  (0 < pm < pr)%nat -> (pr < length a)%nat ->
  let a3 := Np.mediana less a 0 pm pr in
  a3 ≡ₚ a /\ length a3 = length a
  /\ exists y0 ym yr,
      a3 !! 0%nat = Some y0 /\ a3 !! pm = Some ym /\ a3 !! pr = Some yr
      /\ (Np.le less) y0 ym /\ (Np.le less) ym yr.
Proof.
  intros Hpm Hpr. unfold Np.mediana.
  destruct (lookup_lt_is_Some_2 a 0%nat ltac:(lia)) as [x0 H0].
  destruct (lookup_lt_is_Some_2 a pm ltac:(lia)) as [xm Hm].
  destruct (lookup_lt_is_Some_2 a pr ltac:(lia)) as [xr Hr].
  destruct (mediana_paso a pm 0%nat xm x0 ltac:(lia) Hm H0)
    as (P1 & L1 & O1 & C1).
  set (a1 := if Np.menor less a pm 0 then Np.swap pm 0 a else a) in *.
  assert (Hr1 : a1 !! pr = Some xr) by (rewrite O1 by lia; exact Hr).
  assert (exists u0 um, a1 !! 0%nat = Some u0 /\ a1 !! pm = Some um
                        /\ (Np.le less) u0 um) as (u0 & um & U0 & Um & Ule).
  { destruct C1 as [(Ha & Hb & E) | (Ha & Hb & E)].
    - exists x0, xm. auto.
    - exists xm, x0. split; [exact Hb|]. split; [exact Ha|].
      now apply less_implica_le. }
  destruct (mediana_paso a1 pr pm xr um ltac:(lia) Hr1 Um)
    as (P2 & L2 & O2 & C2).
  set (a2 := if Np.menor less a1 pr pm then Np.swap pr pm a1 else a1) in *.
  assert (H02 : a2 !! 0%nat = Some u0) by (rewrite O2 by lia; exact U0).
  assert (exists vm vr, a2 !! pm = Some vm /\ a2 !! pr = Some vr
                        /\ (Np.le less) vm vr /\ (Np.le less) u0 vr)
    as (vm & vr & Vm & Vr & Vle & V0).
  { destruct C2 as [(Ha & Hb & E) | (Ha & Hb & E)].
    - exists um, xr. repeat split; auto.
      apply (le_transitiva u0 um xr); [exact Ule | exact E].
    - exists xr, um. repeat split; auto. now apply less_implica_le. }
  destruct (mediana_paso a2 pm 0%nat vm u0 ltac:(lia) Vm H02)
    as (P3 & L3 & O3 & C3).
  set (a3 := if Np.menor less a2 pm 0 then Np.swap pm 0 a2 else a2) in *.
  split; [now rewrite P3, P2, P1|]. split; [now rewrite L3, L2, L1|].
  assert (Hr3 : a3 !! pr = Some vr) by (rewrite O3 by lia; exact Vr).
  destruct C3 as [(Ha & Hb & E) | (Ha & Hb & E)].
  - exists u0, vm, vr. repeat split; auto.
  - exists vm, u0, vr. repeat split; auto. now apply less_implica_le.
Qed.

(** ** The partition *)

Lemma particion_spec (a : list A) :
  (4 <= length a)%nat ->
  let r := Np.particion less a in
  r.1 ≡ₚ a /\ length r.1 = length a
  /\ (0 < r.2)%nat /\ (r.2 < length a - 1)%nat
  /\ exists vp,
      r.1 !! r.2 = Some vp
      /\ (forall k x, (k < r.2)%nat -> r.1 !! k = Some x -> (Np.le less) x vp)
      /\ (forall k x, (r.2 < k)%nat -> r.1 !! k = Some x -> (Np.le less) vp x).
Proof.
  intros Hlen. unfold Np.particion. cbn zeta.
  set (pr := (length a - 1)%nat).
  set (pm := (0 + (pr - 0) / 2)%nat).
  assert (Hpm : (0 < pm < pr - 1)%nat).
  { unfold pm, pr. rewrite Nat.add_0_l, Nat.sub_0_r.
    assert (H2 : (2 * ((length a - 1) / 2) <= length a - 1)%nat)
      by (apply Nat.Div0.mul_div_le).
    assert (H3 : (length a - 1 < 2 * S ((length a - 1) / 2))%nat)
      by (apply Nat.mul_succ_div_gt; lia).
    lia. }
  destruct (mediana_spec a pm pr ltac:(lia) ltac:(unfold pr; lia))
    as (Pm & Lm & y0 & vp & yr & Y0 & Ym & Yr & Hle0 & Hler).
  set (a3 := Np.mediana less a 0 pm pr) in *.
  rewrite Ym.
  assert (Hl3 : length a3 = S pr) by (unfold pr in *; lia).
  set (a4 := Np.swap pm (pr - 1) a3).
  assert (L4 : length a4 = length a3) by apply swap_length.
  assert (Hpart : (Np.partido less) a4 vp 0 (pr - 1) (pr - 1)).
  { split; [lia|]. split; [lia|]. unfold a4. split; [|split].
    - rewrite swap_lookup by lia. repeat case_decide; try lia. exact Ym.
    - intros k x Hk. assert (k = 0%nat) by lia. subst k.
      rewrite swap_lookup by lia. repeat case_decide; try lia.
      rewrite Y0. intros [= <-]. exact Hle0.
    - intros k x Hk. rewrite swap_lookup by lia.
      repeat case_decide; try lia.
      + rewrite Ym. intros [= <-]. apply less_irrefl.
      + intros Hx. assert (k = pr).
        { apply lookup_lt_Some in Hx. lia. }
        subst k. rewrite Yr in Hx. injection Hx as <-. exact Hler. }
  destruct (bucle_spec (length a) a4 vp 0 (pr - 1) (pr - 1) Hpart
              ltac:(unfold pr; lia))
    as (P5 & L5 & T5 & Hr & Hbajo & Halto).
  set (r := Np.bucle less (length a) a4 vp 0 (pr - 1)) in *.
  cbn [fst snd].
  destruct (lookup_lt_is_Some_2 r.1 r.2 ltac:(lia)) as [z Hz].
  assert (Hl5 : length r.1 = S pr) by lia.
  split; [rewrite swap_perm, P5; unfold a4; now rewrite swap_perm|].
  split; [rewrite swap_length; lia|].
  split; [lia|]. split; [unfold pr in *; lia|].
  exists vp. split; [|split].
  - rewrite swap_lookup by lia.
    repeat case_decide; try lia; first [exact T5 | congruence].
  - intros k x Hk. rewrite swap_lookup by lia.
    repeat case_decide; try lia. intros Hx. exact (Hbajo k x Hk Hx).
  - intros k x Hk. rewrite swap_lookup by lia.
    repeat case_decide; try lia; intros Hx.
    + exact (Halto r.2 x (le_n _) Hx).
    + apply (Halto k x); [lia | exact Hx].
Qed.


(** ** The heapsort *)

Lemma en_insert (a : list A) (i k : nat) (v : A) :
  (1 <= i <= length a)%nat -> (1 <= k)%nat ->
  Np.en (<[(i - 1)%nat := v]> a) k = if decide (k = i) then Some v else Np.en a k.
Proof.
  intros Hi Hk. unfold Np.en. case_decide as E.
  - subst k. apply list_lookup_insert_eq. lia.
  - apply list_lookup_insert_ne. lia.
Qed.

Lemma insert2_perm (c : list A) (i j : nat) (t y : A) :
  i <> j -> (i < length c)%nat -> c !! j = Some y ->
  <[j := t]> (<[i := y]> c) ≡ₚ <[i := t]> c.
Proof.
  intros Hij Hi Hj.
  rewrite <- (swap_perm i j (<[i := t]> c)). unfold Np.swap.
  rewrite list_lookup_insert_eq by exact Hi.
  rewrite list_lookup_insert_ne by exact Hij. rewrite Hj.
  now rewrite list_insert_insert_eq.
Qed.

Lemma hundir_spec (fuel : nat) (b : list A) (tmp : A) (i n lo : nat) :
  (1 <= lo <= i)%nat -> (i <= n)%nat -> (n <= length b)%nat ->
  (n + 1 - i <= fuel)%nat ->
  (forall k x y, (lo <= k / 2)%nat -> (k <= n)%nat ->
                 (k / 2)%nat <> i -> k <> i ->
                 Np.en b k = Some x -> Np.en b (k / 2) = Some y -> (Np.le less) x y) ->
  ((lo <= i / 2)%nat -> forall y, Np.en b (i / 2) = Some y -> (Np.le less) tmp y) ->
  ((lo <= i / 2)%nat ->
   forall k x y, (k / 2)%nat = i -> (k <= n)%nat ->
                 Np.en b k = Some x -> Np.en b (i / 2) = Some y -> (Np.le less) x y) ->
  let r := Np.hundir less fuel b tmp i (i + i) n in
  length r = length b
  /\ drop n r = drop n b
  /\ take n r ≡ₚ take n (<[(i - 1)%nat := tmp]> b)
  /\ (Np.monton less) r lo n.
Proof.
  revert b i. induction fuel as [|fuel IH];
    intros b i Hlo Hin Hn Hf I1 I2 I3; [lia|].
  assert (Hcoloca :
            let r := <[(i - 1)%nat := tmp]> b in
            (forall k x, (k / 2)%nat = i -> (k <= n)%nat ->
                         Np.en b k = Some x -> (Np.le less) x tmp) ->
            length r = length b
            /\ drop n r = drop n b
            /\ take n r ≡ₚ take n (<[(i - 1)%nat := tmp]> b)
            /\ (Np.monton less) r lo n).
  { intros r Hhijos. unfold r.
    split; [apply length_insert|].
    split; [apply drop_insert_lt; lia|]. split; [reflexivity|].
    intros k x y Hp Hk.
    assert (Hk1 : (1 <= k / 2)%nat) by lia.
    assert (Hk2 : (2 <= k)%nat).
    { destruct (le_lt_dec 2 k); [assumption|].
      rewrite Nat.div_small in Hk1 by lia. lia. }
    assert (Hlt : (k / 2 < k)%nat) by (apply Nat.div_lt; lia).
    rewrite !en_insert by lia.
    destruct (decide (k = i)) as [->|Hki].
    - destruct (decide ((i / 2)%nat = i)) as [E|_]; [lia|].
      intros [= <-] Hy. exact (I2 Hp y Hy).
    - destruct (decide ((k / 2)%nat = i)) as [E|E].
      + intros Hx [= <-]. exact (Hhijos k x E Hk Hx).
      + intros Hx Hy. exact (I1 k x y Hp Hk E Hki Hx Hy). }
  cbn [Np.hundir].
  destruct (Nat.leb_spec (i + i) n) as [Hj | Hj].
  2:{ apply Hcoloca. intros k x E Hk _.
      assert (2 * (k / 2) <= k)%nat by (apply Nat.Div0.mul_div_le). lia. }
  set (j' := if (i + i <? n)%nat && Np.menor less b (i + i - 1) (i + i)
             then S (i + i) else (i + i)%nat).
  assert (Hsel :
            (j' = (i + i)%nat
             /\ forall u v, (i + i < n)%nat -> b !! (i + i - 1)%nat = Some u ->
                            b !! (i + i)%nat = Some v -> less u v = false)
            \/ (j' = S (i + i) /\ (i + i < n)%nat
                /\ exists u v, b !! (i + i - 1)%nat = Some u
                               /\ b !! (i + i)%nat = Some v
                               /\ less u v = true)).
  { unfold j', Np.menor.
    destruct (Nat.ltb_spec (i + i) n) as [Hlt|Hge]; simpl.
    - destruct (lookup_lt_is_Some_2 b (i + i - 1) ltac:(lia)) as [u Hu].
      destruct (lookup_lt_is_Some_2 b (i + i) ltac:(lia)) as [v Hv].
      rewrite Hu, Hv. destruct (less u v) eqn:E'.
      + right. split; [reflexivity|]. split; [exact Hlt|]. eauto.
      + left. split; [reflexivity|]. intros u' v' _ Hu' Hv'. congruence.
    - left. split; [reflexivity|]. intros; lia. }
  assert (Hj' : (j' = i + i \/ (j' = S (i + i) /\ i + i < n))%nat).
  { destruct Hsel as [[-> _] | (-> & H & _)]; auto. }
  clearbody j'.
  destruct (lookup_lt_is_Some_2 b (j' - 1) ltac:(lia)) as [y Hy].
  rewrite Hy.
  assert (Hmayor : forall k x, (k / 2)%nat = i -> (k <= n)%nat ->
                               Np.en b k = Some x -> (Np.le less) x y).
  { intros k x E Hk Hx.
    assert (H2 : (2 * (k / 2) <= k)%nat) by (apply Nat.Div0.mul_div_le).
    assert (H3 : (k < 2 * S (k / 2))%nat)
      by (apply Nat.mul_succ_div_gt; lia).
    assert (Hk' : (k = i + i \/ k = S (i + i))%nat) by lia.
    unfold Np.en in Hx.
    destruct Hsel as [[-> Hno] | (-> & Hlt & u & v & Hu & Hv & Huv)].
    - destruct Hk' as [-> | ->].
      + rewrite Hy in Hx. injection Hx as <-. apply le_reflexiva.
      + replace (S (i + i) - 1)%nat with (i + i)%nat in Hx by lia.
        exact (Hno y x ltac:(lia) Hy Hx).
    - replace (S (i + i) - 1)%nat with (i + i)%nat in Hy by lia.
      rewrite Hv in Hy. injection Hy as <-.
      destruct Hk' as [-> | ->].
      + rewrite Hu in Hx. injection Hx as <-. now apply less_implica_le.
      + replace (S (i + i) - 1)%nat with (i + i)%nat in Hx by lia.
        rewrite Hv in Hx. injection Hx as <-. apply le_reflexiva. }
  destruct (less tmp y) eqn:Ety.
  2:{ apply Hcoloca. intros k x E Hk Hx.
      apply (le_transitiva x y tmp); [exact (Hmayor k x E Hk Hx) | exact Ety]. }
  assert (Hj2 : (j' / 2 = i)%nat).
  { destruct Hj' as [-> | [-> _]].
    - replace (i + i)%nat with (i * 2)%nat by lia.
      apply Nat.div_mul. lia.
    - replace (S (i + i)) with (1 + i * 2)%nat by lia.
      rewrite Nat.div_add by lia. reflexivity. }
  destruct (IH (<[(i - 1)%nat := y]> b) j') as (R1 & R2 & R3 & R4).
  - lia.
  - lia.
  - rewrite length_insert. lia.
  - lia.
  - intros k x z Hp Hk Hpj Hkj.
    assert (Hk1 : (1 <= k / 2)%nat) by lia.
    assert (Hk2 : (2 <= k)%nat).
    { destruct (le_lt_dec 2 k); [assumption|].
      rewrite Nat.div_small in Hk1 by lia. lia. }
    assert (Hlt : (k / 2 < k)%nat) by (apply Nat.div_lt; lia).
    rewrite !en_insert by lia.
    destruct (decide (k = i)) as [->|Hki].
    + destruct (decide ((i / 2)%nat = i)) as [E|_]; [lia|].
      intros [= <-] Hz.
      apply (I3 Hp j' y z Hj2); [lia | exact Hy | exact Hz].
    + destruct (decide ((k / 2)%nat = i)) as [E|E].
      * intros Hx [= <-]. exact (Hmayor k x E Hk Hx).
      * intros Hx Hz. exact (I1 k x z Hp Hk E Hki Hx Hz).
  - intros _ z. rewrite Hj2, en_insert by lia.
    rewrite decide_True by reflexivity. intros [= <-].
    now apply less_implica_le.
  - intros _ k x z Hkj Hk. rewrite Hj2.
    assert (H2 : (2 * (k / 2) <= k)%nat) by (apply Nat.Div0.mul_div_le).
    rewrite !en_insert by lia.
    rewrite (decide_False (P := k = i)) by lia.
    rewrite decide_True by reflexivity. intros Hx [= <-].
    apply (I1 k x y); try lia.
    + exact Hx.
    + rewrite Hkj. exact Hy.
  - rewrite length_insert in R1.
    split; [exact R1|]. split.
    + rewrite R2. apply drop_insert_lt. lia.
    + split; [|exact R4].
      rewrite R3. rewrite !take_insert_lt by lia.
      apply insert2_perm; [lia | rewrite length_take; lia |].
      rewrite lookup_take_lt by lia. exact Hy.
Qed.


(** The heap is built from the middle down. *)
Lemma amontonar_spec (l : nat) (a : list A) :
  (l <= length a)%nat -> (Np.monton less) a (S l) (length a) ->
  let r := Np.amontonar less l a in
  length r = length a /\ r ≡ₚ a /\ (Np.monton less) r 1 (length a).
Proof.
  revert a. induction l as [|l IH]; intros a Hl Hm; cbn [Np.amontonar].
  - split; [reflexivity|]. split; [reflexivity | exact Hm].
  - destruct (lookup_lt_is_Some_2 a l ltac:(lia)) as [tmp Htmp].
    rewrite Htmp.
    destruct (hundir_spec (length a) a tmp (S l) (length a) (S l))
      as (R1 & R2 & R3 & R4); try lia.
    + intros k x y Hp Hk Hne _. apply Hm; [lia | exact Hk].
    + intros Hp. assert (S l / 2 < S l)%nat by (apply Nat.div_lt; lia).
      lia.
    + intros Hp. assert (S l / 2 < S l)%nat by (apply Nat.div_lt; lia).
      lia.
    + set (a' := Np.hundir less (length a) a tmp (S l) (S l + S l)
                           (length a)) in *.
      assert (Ha' : a' ≡ₚ a).
      { rewrite <- (take_drop (length a) a'), R2, R3.
        replace (S l - 1)%nat with l by lia.
        rewrite (list_insert_id a l tmp Htmp). now rewrite take_drop. }
      rewrite <- R1 in R4.
      destruct (IH a') as (Q1 & Q2 & Q3); [lia | exact R4 |].
      rewrite R1 in Q1, Q3.
      split; [exact Q1|]. split; [now rewrite Q2 | exact Q3].
Qed.

(** The top of a heap is not below any of its entries. *)
Lemma monton_max (a : list A) (n : nat) (top : A) :
  (Np.monton less) a 1 n -> (n <= length a)%nat -> Np.en a 1 = Some top ->
  forall k x, (1 <= k <= n)%nat -> Np.en a k = Some x -> (Np.le less) x top.
Proof.
  intros Hm Hn Htop k. induction k as [k IH] using lt_wf_ind.
  intros x Hk Hx. destruct (decide (k = 1%nat)) as [->|Hne].
  - rewrite Htop in Hx. injection Hx as <-. apply le_reflexiva.
  - assert (H2 : (2 * (k / 2) <= k)%nat) by (apply Nat.Div0.mul_div_le).
    assert (H3 : (k < 2 * S (k / 2))%nat)
      by (apply Nat.mul_succ_div_gt; lia).
    destruct (lookup_lt_is_Some_2 a (k / 2 - 1) ltac:(lia)) as [y Hy].
    apply (le_transitiva x y top).
    + apply (Hm k x y); [lia | lia | exact Hx | exact Hy].
    + apply (IH (k / 2)%nat); [lia | lia | exact Hy].
Qed.

(** The heap is taken down from the top: the first [n] entries are a
    heap, the others are in order and not below any of the heap. *)
Lemma desmontar_spec (n : nat) (a : list A) :
  (n <= length a)%nat -> (Np.monton less) a 1 n ->
  StronglySorted (Np.le less) (drop n a) ->
  (forall x y, x ∈ take n a -> y ∈ drop n a -> (Np.le less) x y) ->
  let r := Np.desmontar less n a in
  r ≡ₚ a /\ StronglySorted (Np.le less) r.
Proof.
  revert a. induction n as [|n IH]; intros a Hn Hm Hs Hc;
    cbn [Np.desmontar].
  - split; [reflexivity|]. now rewrite drop_0 in Hs.
  - destruct n as [|n'].
    + split; [reflexivity|].
      rewrite <- (take_drop 1 a).
      apply StronglySorted_app_2; [exact Hc | | exact Hs].
      destruct a as [|x a]; simpl; [constructor|]. rewrite take_0.
      repeat constructor.
    + set (n := S n') in *.
      destruct (lookup_lt_is_Some_2 a n ltac:(lia)) as [tmp Htmp].
      destruct (lookup_lt_is_Some_2 a 0%nat ltac:(lia)) as [top Htop].
      rewrite Htmp, Htop.
      set (b := <[n := top]> a).
      assert (Lb : length b = length a) by apply length_insert.
      destruct (hundir_spec (length a) b tmp 1 n 1)
        as (R1 & R2 & R3 & R4); try lia.
      * intros k x y Hp Hk Hne1 Hne2.
        assert (H2 : (2 * (k / 2) <= k)%nat)
          by (apply Nat.Div0.mul_div_le).
        unfold b, Np.en. rewrite !list_lookup_insert_ne by lia.
        apply (Hm k x y); [exact Hp | lia].
      * intros Hp. simpl in Hp. lia.
      * intros Hp. simpl in Hp. lia.
      * change (1 + 1)%nat with 2%nat in *.
        set (a' := Np.hundir less (length a) b tmp 1 2 n) in *.
        assert (Htake : take n (<[(1 - 1)%nat := tmp]> b)
                        = <[0%nat := tmp]> (take n a)).
        { simpl. rewrite take_insert_lt by lia. unfold b.
          now rewrite take_insert_ge by lia. }
        rewrite Htake in R3.
        assert (Hdrop : drop n a' = top :: drop (S n) a).
        { rewrite R2. unfold b. rewrite drop_insert_ge by lia.
          rewrite Nat.sub_diag.
          rewrite (drop_S a tmp n Htmp). reflexivity. }
        assert (Htop' : take n a !! 0%nat = Some top).
        { rewrite lookup_take_lt by lia. exact Htop. }
        assert (Hin : forall x, x ∈ <[0%nat := tmp]> (take n a) ->
                                x ∈ take (S n) a).
        { intros x Hx. rewrite (take_S_r a n tmp Htmp).
          destruct (take n a) as [|t0 rest]; [inversion Hx|].
          simpl in Hx. apply elem_of_cons in Hx as [-> | Hx].
          - apply elem_of_app. right. constructor.
          - apply elem_of_app. left. now constructor. }
        destruct (IH a') as (Q1 & Q2).
        -- lia.
        -- exact R4.
        -- rewrite Hdrop. constructor; [exact Hs|].
           apply Forall_forall. intros y Hy. apply (Hc top y); [|exact Hy].
           apply list_elem_of_lookup. exists 0%nat.
           rewrite lookup_take_lt by lia. exact Htop.
        -- intros x y Hx Hy. rewrite R3 in Hx. apply Hin in Hx.
           rewrite Hdrop in Hy. apply elem_of_cons in Hy as [-> | Hy].
           ++ apply list_elem_of_lookup in Hx as [k Hk].
              assert (Hk' : (k < S n)%nat).
              { apply lookup_lt_Some in Hk. rewrite length_take in Hk.
                lia. }
              rewrite lookup_take_lt in Hk by lia.
              apply (monton_max a (S n) top Hm Hn Htop (S k) x);
                [lia|]. unfold Np.en. simpl. now rewrite Nat.sub_0_r.
           ++ apply (Hc x y Hx Hy).
        -- split; [|exact Q2]. rewrite Q1.
           transitivity (take n a' ++ drop n a');
             [now rewrite take_drop|].
           rewrite R3, Hdrop.
           transitivity (take n a ++ drop n a); [|now rewrite take_drop].
           rewrite (drop_S a tmp n Htmp).
           destruct (take n a) as [|t0 rest] eqn:E; [discriminate|].
           simpl in Htop'. injection Htop' as ->. simpl.
           rewrite <- !Permutation_middle. apply perm_swap.
Qed.

(** [aheapsort] sorts. *)
Lemma aheapsort_spec (a : list A) :
  Np.aheapsort less a ≡ₚ a /\ StronglySorted (Np.le less) (Np.aheapsort less a).
Proof.
  unfold Np.aheapsort.
  assert (H2 : (2 * (length a / 2) <= length a)%nat)
    by (apply Nat.Div0.mul_div_le).
  destruct (amontonar_spec (length a / 2) a) as (L & P & M); [lia | |].
  { intros k x y Hp Hk.
    assert (H3 : (2 * (k / 2) <= k)%nat) by (apply Nat.Div0.mul_div_le).
    assert (H4 : (length a < 2 * S (length a / 2))%nat)
      by (apply Nat.mul_succ_div_gt; lia).
    lia. }
  set (h := Np.amontonar less (length a / 2) a) in *.
  rewrite <- L. rewrite <- L in M.
  destruct (desmontar_spec (length h) h) as (Q1 & Q2).
  - lia.
  - exact M.
  - rewrite drop_all. constructor.
  - intros x y _ Hy. rewrite drop_all in Hy. inversion Hy.
  - split; [now rewrite Q1 | exact Q2].
Qed.


(** ** The quicksort *)

Lemma ordenado_partes (l r : list A) (vp : A) :
  StronglySorted (Np.le less) l -> StronglySorted (Np.le less) r ->
  (forall x, x ∈ l -> (Np.le less) x vp) -> (forall y, y ∈ r -> (Np.le less) vp y) ->
  StronglySorted (Np.le less) (l ++ [vp] ++ r).
Proof.
  intros Hl Hr Hlv Hvr. apply StronglySorted_app_2; [|exact Hl|].
  - intros x y Hx Hy. simpl in Hy. apply elem_of_cons in Hy as [-> | Hy].
    + now apply Hlv.
    + apply (le_transitiva x vp y); auto.
  - simpl. constructor; [exact Hr|]. apply Forall_forall. exact Hvr.
Qed.

Lemma quick_spec (fuel : nat) (cdepth : Z) (a : list A) :
  (length a <= fuel)%nat ->
  Np.quick less fuel cdepth a ≡ₚ a
  /\ StronglySorted (Np.le less) (Np.quick less fuel cdepth a).
Proof.
  revert cdepth a. induction fuel as [|fuel IH]; intros cdepth a Hf.
  - destruct a; [|simpl in Hf; lia]. simpl. split; [reflexivity|constructor].
  - rewrite quick_S.
    destruct (Nat.ltb_spec Np.SMALL_QUICKSORT (length a - 1)) as [Hlargo|_].
    2:{ split; [apply insercion_perm | apply insercion_sorted]. }
    unfold Np.SMALL_QUICKSORT in Hlargo. cbn zeta.
    destruct (particion_spec a ltac:(lia))
      as (P & L & Hpi0 & Hpi1 & vp & Hvp & Hbajo & Halto).
    set (r := Np.particion less a) in *.
    assert (Hpiv : take 1 (drop r.2 r.1) = [vp]).
    { rewrite (drop_S r.1 vp r.2 Hvp). simpl. now rewrite take_0. }
    rewrite Hpiv.
    assert (Hizq : forall x, x ∈ take r.2 r.1 -> (Np.le less) x vp).
    { intros x Hx. apply list_elem_of_lookup in Hx as [k Hk].
      assert (Hk' : (k < r.2)%nat).
      { apply lookup_lt_Some in Hk. rewrite length_take in Hk. lia. }
      rewrite lookup_take_lt in Hk by lia. exact (Hbajo k x Hk' Hk). }
    assert (Hder : forall y, y ∈ drop (S r.2) r.1 -> (Np.le less) vp y).
    { intros y Hy. apply list_elem_of_lookup in Hy as [k Hk].
      rewrite lookup_drop in Hk. apply (Halto (S r.2 + k)%nat y); [lia|].
      exact Hk. }
    assert (Hli : (length (take r.2 r.1) <= fuel)%nat)
      by (rewrite length_take; lia).
    assert (Hld : (length (drop (S r.2) r.1) <= fuel)%nat)
      by (rewrite length_drop; lia).
    assert (Hap : forall x, (length x <= fuel)%nat ->
                    let s := if (cdepth - 1 <? 0)%Z
                             then Np.aheapsort less x
                             else Np.quick less fuel (cdepth - 1) x in
                    s ≡ₚ x /\ StronglySorted (Np.le less) s).
    { intros x Hx. cbn zeta. destruct (cdepth - 1 <? 0)%Z.
      - apply aheapsort_spec.
      - now apply IH. }
    assert (Hfin : forall l' r',
               l' ≡ₚ take r.2 r.1 -> StronglySorted (Np.le less) l' ->
               r' ≡ₚ drop (S r.2) r.1 -> StronglySorted (Np.le less) r' ->
               l' ++ [vp] ++ r' ≡ₚ a
               /\ StronglySorted (Np.le less) (l' ++ [vp] ++ r')).
    { intros l' r' Pl Sl Pr Sr. split.
      - rewrite Pl, Pr, <- P. simpl.
        now rewrite (take_drop_middle r.1 r.2 vp Hvp).
      - apply ordenado_partes; auto.
        + intros x Hx. rewrite Pl in Hx. now apply Hizq.
        + intros y Hy. rewrite Pr in Hy. now apply Hder. }
    destruct (IH (cdepth - 1)%Z _ Hli) as [Pi Si].
    destruct (IH (cdepth - 1)%Z _ Hld) as [Pd Sd].
    destruct (Hap _ Hli) as [Pi' Si']. destruct (Hap _ Hld) as [Pd' Sd'].
    destruct (r.2 <? length a - 1 - r.2)%nat; apply Hfin; assumption.
Qed.

(** [aquicksort] sorts: the result holds the entries given, none above
    a later one. *)
Theorem aquicksort_spec (a : list A) :
  Np.aquicksort less a ≡ₚ a /\ StronglySorted (Np.le less) (Np.aquicksort less a).
Proof. unfold Np.aquicksort. apply quick_spec. lia. Qed.

End Orden.
End NpFacts.

(** ** The order of the rows: the sort of the frame *)

Lemma antes_estricto_irrefl (x : Fila) : antes_estricto x x = false.
Proof.
  unfold antes_estricto, date_ltb, date_cmp. now rewrite !Z.compare_refl.
Qed.

Lemma antes_estricto_trans (x y z : Fila) :
  antes_estricto x y = true -> antes_estricto y z = true ->
  antes_estricto x z = true.
Proof.
  unfold antes_estricto, date_ltb. intros H1 H2.
  destruct (date_cmp (fecha x) (fecha y)) eqn:E1; try discriminate.
  destruct (date_cmp (fecha y) (fecha z)) eqn:E2; try discriminate.
  now rewrite (date_cmp_lt_trans _ _ _ E1 E2).
Qed.

Lemma date_leb_no_ltb (a b : date) :
  date_leb b a = true -> date_ltb a b = false.
Proof.
  intros H. destruct (date_ltb a b) eqn:E; [|reflexivity].
  apply date_ltb_not_leb in E. congruence.
Qed.

Lemma antes_estricto_neg_trans (x y z : Fila) :
  antes_estricto x y = false -> antes_estricto y z = false ->
  antes_estricto x z = false.
Proof.
  unfold antes_estricto. intros H1 H2.
  apply date_ltb_false in H1. apply date_ltb_false in H2.
  apply date_leb_no_ltb. exact (date_leb_trans _ _ _ H2 H1).
Qed.

Lemma np_le_fecha (x y : Fila) : Np.le antes_estricto x y <-> fecha_le x y.
Proof.
  unfold Np.le, antes_estricto, fecha_le. split.
  - apply date_ltb_false.
  - apply date_leb_no_ltb.
Qed.

(** The sort pandas runs does what [sort_values] guarantees. *)
Lemma sort_values_np_perm (df : list Fila) :
  Permutation df (sort_values_np df).
Proof.
  symmetry.
  apply (NpFacts.aquicksort_spec antes_estricto antes_estricto_irrefl
           antes_estricto_trans antes_estricto_neg_trans df).
Qed.

Lemma sort_values_np_sorted (df : list Fila) :
  StronglySorted fecha_le (sort_values_np df).
Proof.
  pose proof (proj2 (NpFacts.aquicksort_spec antes_estricto
                       antes_estricto_irrefl antes_estricto_trans
                       antes_estricto_neg_trans df)) as H.
  fold (sort_values_np df) in H.
  induction H as [|x l _ IH Hx]; constructor; [exact IH|].
  eapply List.Forall_impl; [|exact Hx]. intros y. apply np_le_fecha.
Qed.

Lemma sort_values_np_ordena : ordena_por_fecha sort_values_np.
Proof.
  split; [exact sort_values_np_perm|].
  intros df. apply StronglySorted_Sorted, sort_values_np_sorted.
Qed.

(** Both insertion sorts keep the rows of one date in their order. *)
Lemma en_fecha_no_antes (d : date) (u v : Fila) :
  antes_estricto u v = true -> en_fecha d u = true -> en_fecha d v = true ->
  False.
Proof.
  unfold en_fecha. intros H Hu Hv.
  apply bool_decide_eq_true in Hu. apply bool_decide_eq_true in Hv.
  unfold antes_estricto in H. rewrite Hu, Hv in H.
  pose proof (date_leb_no_ltb d d (date_leb_refl d)). congruence.
Qed.

Lemma insertar_filter (d : date) (x : Fila) (l : list Fila) :
  List.filter (en_fecha d) (insertar antes_o_igual x l)
  = (if en_fecha d x then [x] else []) ++ List.filter (en_fecha d) l.
Proof.
  induction l as [|y l IH]; simpl; [now destruct (en_fecha d x)|].
  destruct (antes_o_igual x y) eqn:E; simpl.
  - now destruct (en_fecha d x).
  - rewrite IH.
    destruct (en_fecha d x) eqn:Hx, (en_fecha d y) eqn:Hy; simpl;
      try reflexivity.
    unfold en_fecha in Hx, Hy.
    apply bool_decide_eq_true in Hx. apply bool_decide_eq_true in Hy.
    unfold antes_o_igual in E. rewrite Hx, Hy, date_leb_refl in E.
    discriminate.
Qed.

Lemma ordenar_estable_filter (l : list Fila) :
  mismo_orden_en_fecha l (ordenar_estable l).
Proof.
  intros d. induction l as [|x l IH]; simpl; [reflexivity|].
  unfold ordenar_estable, ordenar in *. simpl.
  rewrite insertar_filter, IH. now destruct (en_fecha d x).
Qed.

Lemma sort_values_np_corto (df : list Fila) :
  (length df <= 16)%nat -> mismo_orden_en_fecha df (sort_values_np df).
Proof.
  intros H d. unfold sort_values_np.
  rewrite (NpFacts.aquicksort_corto antes_estricto df H).
  apply NpFacts.insercion_filter. apply en_fecha_no_antes.
Qed.

Lemma en_fecha_propia (f : Fila) : en_fecha (fecha f) f = true.
Proof. apply bool_decide_eq_true_2. reflexivity. Qed.

(** Two date-sorted lists that hold the rows of each date in the same
    order are the same list. *)
Lemma estable_unico (l l' : list Fila) :
  StronglySorted fecha_le l -> StronglySorted fecha_le l' ->
  mismo_orden_en_fecha l l' -> l = l'.
Proof.
  intros Hs. revert l'.
  induction Hs as [|x t Ht IH Hx]; intros l' Hs' Hf.
  - destruct l' as [|y t']; [reflexivity|].
    specialize (Hf (fecha y)). simpl in Hf.
    rewrite en_fecha_propia in Hf. discriminate.
  - destruct l' as [|y t'].
    { specialize (Hf (fecha x)). simpl in Hf.
      rewrite en_fecha_propia in Hf. discriminate. }
    apply StronglySorted_inv in Hs' as [Ht' Hy].
    assert (Hxl' : In x (y :: t')).
    { pose proof (Hf (fecha x)) as H.
      assert (Hi : In x (List.filter (en_fecha (fecha x)) (y :: t'))).
      { rewrite H. simpl. rewrite en_fecha_propia. now left. }
      apply List.filter_In in Hi. tauto. }
    assert (Hyl : In y (x :: t)).
    { pose proof (Hf (fecha y)) as H.
      assert (Hi : In y (List.filter (en_fecha (fecha y)) (x :: t))).
      { rewrite <- H. simpl. rewrite en_fecha_propia. now left. }
      apply List.filter_In in Hi. tauto. }
    assert (Hfe : fecha x = fecha y).
    { apply fecha_le_antisym.
      - destruct Hyl as [-> | Hyl]; [apply date_leb_refl|].
        exact (proj1 (List.Forall_forall _ _) Hx y Hyl).
      - destruct Hxl' as [-> | Hxl']; [apply date_leb_refl|].
        exact (proj1 (List.Forall_forall _ _) Hy x Hxl'). }
    assert (Hxy : x = y).
    { pose proof (Hf (fecha x)) as H. simpl in H.
      rewrite en_fecha_propia in H. rewrite Hfe in H.
      rewrite en_fecha_propia in H. congruence. }
    subst y. f_equal. apply IH; [exact Ht'|].
    intros d. pose proof (Hf d) as H. simpl in H.
    destruct (en_fecha d x); congruence.
Qed.

(** C3, as the code has it.  The loop visits the rows of the input in
    ascending date order, whatever the input: the rows visited are the
    rows given, and no row comes after a row of a later date.  Rows of
    one date are visited in their input order when the frame has at most
    sixteen rows, for then numpy sorts by insertion alone, and the order
    is the stable one; it is the stable one also when no two rows share
    a date.  In both cases the run returns what it returns for the rows
    in the stable order. *)
Theorem C3_orden_por_fecha (df : list Fila) :
  Permutation df (sort_values_np df)
  /\ StronglySorted fecha_le (sort_values_np df)
  /\ ((length df <= 16)%nat ->
      mismo_orden_en_fecha df (sort_values_np df)
      /\ sort_values_np df = ordenar_estable df
      /\ calcular_fifo sort_values_np df = calcular_fifo ordenar_estable df)
  /\ (List.NoDup (map fecha df) ->
      sort_values_np df = ordenar_estable df
      /\ calcular_fifo sort_values_np df = calcular_fifo ordenar_estable df).
Proof.
  pose proof (sort_values_np_perm df) as Hp.
  pose proof (sort_values_np_sorted df) as Hs.
  assert (He : StronglySorted fecha_le (ordenar_estable df)).
  { apply Sorted_StronglySorted; [exact fecha_le_trans|].
    apply ordenar_estable_sorted. }
  split; [exact Hp|]. split; [exact Hs|]. split.
  - intros Hlen. pose proof (sort_values_np_corto df Hlen) as Hf.
    assert (E : sort_values_np df = ordenar_estable df).
    { apply estable_unico; auto. intros d.
      now rewrite (ordenar_estable_filter df d), (Hf d). }
    split; [exact Hf|]. split; [exact E|].
    unfold calcular_fifo. now rewrite E.
  - intros Hnd.
    assert (E : sort_values_np df = ordenar_estable df).
    { apply orden_unico; auto.
      - etransitivity; [apply Permutation_sym, Hp|].
        apply (ordenar_perm antes_o_igual).
      - eapply Permutation_NoDup; [|exact Hnd].
        apply Permutation_map, Hp. }
    split; [exact E|]. unfold calcular_fifo. now rewrite E.
Qed.

(** Two rows of one date in a short frame: bought and then sold, the
    unit is matched with its lot. *)
Lemma C3_orden_por_fecha_witness :
  sort_values_np [fila_compra_dia; fila_venta_dia]
  = [fila_compra_dia; fila_venta_dia]
  /\ map nota <$> calcular_fifo sort_values_np
                                [fila_compra_dia; fila_venta_dia]
     = Some [""].
Proof.
  destruct (C3_orden_por_fecha [fila_compra_dia; fila_venta_dia])
    as (_ & _ & Hcorto & _).
  destruct Hcorto as (_ & E & Hrun); [simpl; lia|].
  split; [rewrite E; reflexivity|].
  rewrite Hrun. vm_compute. reflexivity.
Defined.

(** C3, as stated, fails.  In a frame of seventeen rows of one date
    numpy partitions, and the purchase that stands second in the input
    is visited after the sale that stands third: the sale finds no lot,
    where in the input order it is matched with the unit just bought. *)
Lemma C3_counterexample :
  map nota <$> calcular_fifo sort_values_np diecisiete
  = Some ["Sin histórico para 1.00000000 btc"]
  /\ map nota <$> calcular_fifo ordenar_estable diecisiete = Some [""]
  /\ ~ orden_estable sort_values_np.
Proof.
  split; [vm_compute; reflexivity|]. split; [vm_compute; reflexivity|].
  intros H.
  destruct (H diecisiete 1%nat 2%nat fila_compra_dia fila_venta_dia)
    as (i & j & Hlt & Hi & Hj); try reflexivity; [lia|].
  assert (E : sort_values_np diecisiete
              = fila_ingreso_dia :: repeat fila_ingreso_dia 12
                  ++ [fila_venta_dia; fila_compra_dia; fila_ingreso_dia;
                      fila_ingreso_dia])
    by (vm_compute; reflexivity).
  rewrite E in Hi, Hj. clear E.
  unfold fila_ingreso_dia, fila_compra_dia, fila_venta_dia in Hi, Hj.
  simpl in Hi, Hj.
  assert (Hi' : i = 14%nat).
  { do 17 (destruct i as [|i];
           [first [reflexivity | discriminate Hi] | simpl in Hi]).
    discriminate Hi. }
  assert (Hj' : j = 13%nat).
  { do 17 (destruct j as [|j];
           [first [reflexivity | discriminate Hj] | simpl in Hj]).
    discriminate Hj. }
  lia.
Qed.

(** The same two rows in a frame of their own keep their order. *)
Example mismo_dia_estable :
  map nota <$> calcular_fifo ordenar_estable [fila_compra_dia; fila_venta_dia]
  = Some [""].
Proof. vm_compute. reflexivity. Qed.

(** ** The run is a function of its input *)

(** Were the queues of a first run kept for a second one, the second
    would differ: the lot bought in the first run would be sold twice. *)
Example colas_no_nuevas :
  (ventas <$> procesar_filas estado_tras_compra_4 [fila_venta_4])
  <> calcular_fifo ordenar_estable [fila_venta_4].
Proof. vm_compute. discriminate. Qed.

(** ** Asset names *)

Lemma procesar_fila_ventas (st st' : Estado) (f : Fila) (v : Venta) :
  procesar_fila st f = Some st' -> In v (ventas st') ->
  In v (ventas st) \/ v_cripto v = Py.lower (cripto f).
Proof.
  intros H Hin.
  destruct (procesar_fila_casos _ _ _ H)
    as [[_ ->] | [(_ & _ & _ & ->) | [(_ & _ & _ & c & _ & ->)
                                     | (_ & _ & _ & _ & ->)]]];
    simpl in Hin; auto.
  apply in_app_or in Hin as [Hin | [<- | []]]; auto.
Qed.

Lemma procesar_filas_ventas (l : list Fila) (st st' : Estado) (v : Venta) :
  procesar_filas st l = Some st' -> In v (ventas st') ->
  In v (ventas st)
  \/ exists f, In f l /\ v_cripto v = Py.lower (cripto f).
Proof.
  revert st. induction l as [|f l IH]; intros st H Hin; simpl in H.
  - inversion H; subst. now left.
  - destruct (procesar_fila st f) as [st1|] eqn:E; [|discriminate].
    destruct (IH _ H Hin) as [Hin1 | (g & Hg & Hv)].
    + destruct (procesar_fila_ventas _ _ _ _ E Hin1) as [Hin0 | Hv];
        [now left|].
      right. exists f. split; [now left | exact Hv].
    + right. exists g. split; [now right | exact Hv].
Qed.

Lemma procesar_fila_otras_colas (st st' : Estado) (f : Fila) (cr' : string) :
  procesar_fila st f = Some st' -> cr' <> Py.lower (cripto f) ->
  cola_de (colas st') cr' = cola_de (colas st) cr'.
Proof.
  intros H Hne.
  destruct (procesar_fila_casos _ _ _ H)
    as [[_ ->] | [(_ & _ & _ & ->) | [(_ & _ & _ & c & _ & ->)
                                     | (_ & _ & _ & _ & ->)]]];
    simpl; auto.
  - now rewrite cola_de_insert_ne.
  - now rewrite cola_de_insert_ne.
  - apply cola_de_asegurar_ne.
Qed.

(** ** The progressive scale *)

Lemma aplicar_tramos_no_positivo (ts : list (Limite * Q)) (r irpf : Q) :
  r <= 0 -> aplicar_tramos ts r irpf = irpf.
Proof.
  intros H. destruct ts as [|[limite tp] ts]; simpl; [reflexivity|].
  now rewrite le_intro.
Qed.

Lemma aplicar_tramos_escala (g : Q) :
  aplicar_tramos tramos g 0 == escala_progresiva g.
Proof.
  unfold escala_progresiva, tramos, aplicar_tramos, min_limite, Py.min.
  casos_cmp; lra.
Qed.

Lemma round2_cero : Py.round2 0 == 0.
Proof. vm_compute. reflexivity. Qed.

Lemma round2_de (x : Q) (z : Z) :
  x == inject_Z z / 100 -> Py.round2 x == inject_Z z / 100.
Proof.
  intros H. rewrite (round2_comp _ _ H). apply round2_centimos.
Qed.

Lemma total_ganancias_suma (df : list Venta) :
  total_ganancias df = Py.sum (map ganancia_perdida_eur df).
Proof. destruct df; reflexivity. Qed.

Lemma escala_6000 (g : Q) : g == 6000 -> escala_progresiva g == 1140.
Proof. intros H. unfold escala_progresiva. casos_cmp; lra. Qed.

Lemma escala_6001 (g : Q) : g == 6001 -> escala_progresiva g == 1140.21.
Proof. intros H. unfold escala_progresiva. casos_cmp; lra. Qed.

(** C4.  The tax on gains is the rounding of what the loop over the four
    bands gives from the total gain, and that is the progressive scale:
    19% of the first 6000, 21% of the next 44000, 23% of the next 150000
    and 26% of the rest, nothing on a total that is not positive.  A
    total gain of 6000 gives 1140.00 and one of 6001 gives 1140.21. *)
Theorem C4_irpf_ganancias_por_tramos (df : list Venta) :
  let g := Py.sum (map ganancia_perdida_eur df) in
  let r := calcular_irpf_ganancias df in
  base_imponible_eur r = Py.round2 g
  /\ irpf_ganancias_eur r = Py.round2 (aplicar_tramos tramos g 0)
  /\ irpf_ganancias_eur r == Py.round2 (escala_progresiva g)
  /\ (g == 6000 -> irpf_ganancias_eur r == 1140)
  /\ (g == 6001 -> irpf_ganancias_eur r == 1140.21).
Proof.
  intros g r. unfold r, calcular_irpf_ganancias.
  rewrite total_ganancias_suma. fold g. cbn [base_imponible_eur irpf_ganancias_eur].
  assert (He : Py.round2 (aplicar_tramos tramos g 0)
               == Py.round2 (escala_progresiva g)).
  { apply round2_comp, aplicar_tramos_escala. }
  split; [reflexivity|]. split; [reflexivity|]. split; [exact He|].
  split; intros Hg; rewrite He.
  - rewrite (round2_de _ 114000); [reflexivity|].
    rewrite (escala_6000 _ Hg). reflexivity.
  - rewrite (round2_de _ 114021); [reflexivity|].
    rewrite (escala_6001 _ Hg). reflexivity.
Qed.

Example irpf_ganancias_6000 :
  Qred (irpf_ganancias_eur (calcular_irpf_ganancias [venta_con_ganancia 6000]))
  = 1140.
Proof. vm_compute. reflexivity. Qed.

Example irpf_ganancias_6001 :
  Qred (irpf_ganancias_eur
          (calcular_irpf_ganancias
             [venta_con_ganancia 6000; venta_con_ganancia 1]))
  = Qred 1140.21.
Proof. vm_compute. reflexivity. Qed.

(** C5.  When the gains of the records add up to a loss, the loop over
    the bands stops at its first test with nothing added: the tax is the
    rounding of [0.0], which is zero, and the base is the rounding of the
    total; a total of -500 gives a base of -500.00. *)
Theorem C5_perdida_sin_impuesto (df : list Venta) :
  Py.sum (map ganancia_perdida_eur df) < 0 ->
  let g := Py.sum (map ganancia_perdida_eur df) in
  let r := calcular_irpf_ganancias df in
  aplicar_tramos tramos g 0 = 0
  /\ irpf_ganancias_eur r = Py.round2 0
  /\ irpf_ganancias_eur r == 0
  /\ base_imponible_eur r = Py.round2 g
  /\ (g == -500 -> base_imponible_eur r == -500).
Proof.
  intros Hneg g r. fold g in Hneg.
  assert (Hloop : aplicar_tramos tramos g 0 = 0).
  { apply aplicar_tramos_no_positivo. lra. }
  unfold r, calcular_irpf_ganancias.
  rewrite total_ganancias_suma. fold g.
  cbn [base_imponible_eur irpf_ganancias_eur]. rewrite Hloop.
  split; [reflexivity|]. split; [reflexivity|].
  split; [apply round2_cero|]. split; [reflexivity|].
  intros Hg. rewrite (round2_de _ (-50000)); [reflexivity|].
  rewrite Hg. reflexivity.
Qed.

Lemma C5_perdida_sin_impuesto_witness :
  irpf_ganancias_eur
    (calcular_irpf_ganancias
       [venta_con_ganancia 200; venta_con_ganancia (-700)]) == 0
  /\ base_imponible_eur
       (calcular_irpf_ganancias
          [venta_con_ganancia 200; venta_con_ganancia (-700)]) == -500.
Proof.
  destruct (C5_perdida_sin_impuesto
              [venta_con_ganancia 200; venta_con_ganancia (-700)])
    as (_ & _ & Hirpf & _ & Hbase).
  - vm_compute. reflexivity.
  - split; [exact Hirpf|]. apply Hbase. vm_compute. reflexivity.
Defined.

(** ** Income *)

(** C8.  The income estimate: the total is the sum of the values and the
    tax the rounding of 19% of it; a frame without rows, or without the
    column, gives a total of 0.0 and a tax of 0.0.  An income of 1000
    gives 190.00 and an income of 0 gives 0.00. *)
Theorem C8_irpf_ingresos (valores : list Q) :
  let r := calcular_irpf_ingresos (Some valores) in
  calcular_irpf_ingresos None = mkIrpfIngresos 0 0
  /\ calcular_irpf_ingresos (Some []) = mkIrpfIngresos 0 0
  /\ total_ingresos_eur r == Py.sum valores
  /\ irpf_ingresos_eur r == Py.round2 (Py.sum valores * 0.19)
  /\ (Py.sum valores == 1000 -> irpf_ingresos_eur r == 190)
  /\ (Py.sum valores == 0 -> irpf_ingresos_eur r == 0).
Proof.
  intros r. split; [reflexivity|]. split; [reflexivity|].
  assert (Ht : total_ingresos_eur r == Py.sum valores).
  { unfold r. destruct valores; reflexivity. }
  assert (Hi : irpf_ingresos_eur r == Py.round2 (Py.sum valores * 0.19)).
  { unfold r. destruct valores; [vm_compute|]; reflexivity. }
  split; [exact Ht|]. split; [exact Hi|].
  split; intros Hs; rewrite Hi.
  - rewrite (round2_de _ 19000); [reflexivity|]. rewrite Hs. reflexivity.
  - rewrite (round2_de _ 0); [reflexivity|]. rewrite Hs. reflexivity.
Qed.

Example irpf_ingresos_1000 :
  calcular_irpf_ingresos (Some [400; 350.5; 249.5])
  = mkIrpfIngresos (Py.sum [400; 350.5; 249.5])
                   (Py.round2 (Py.sum [400; 350.5; 249.5] * 0.19))
  /\ Qred (irpf_ingresos_eur
             (calcular_irpf_ingresos (Some [400; 350.5; 249.5]))) = 190.
Proof. split; [reflexivity | vm_compute; reflexivity]. Qed.

(** * Further properties of [calcular_fifo] *)

(** ** States up to empty queues *)

Lemma procesar_fila_omitida (st : Estado) (f : Fila) :
  cantidad f <= 0 \/ cripto f = EmptyString -> procesar_fila st f = Some st.
Proof.
  intros H. unfold procesar_fila. destruct H as [H | H].
  - now rewrite (le_intro _ _ H).
  - rewrite H. simpl. now rewrite orb_true_r.
Qed.

Lemma procesar_fila_otro (st : Estado) (f : Fila) :
  0 < cantidad f -> cripto f <> EmptyString ->
  tipo f <> "Compra" -> ~ es_venta f ->
  procesar_fila st f
  = Some (mkEstado (asegurar_cola (Py.lower (cripto f)) (colas st))
                   (ventas st)).
Proof.
  intros Hq Hc Ht Hv. unfold procesar_fila. rewrite (guarda_pasa f Hq Hc).
  destruct (String.eqb_spec (tipo f) "Compra") as [E | _]; [contradiction|].
  destruct (String.eqb_spec (tipo f) "Venta") as [E | _].
  { exfalso. apply Hv. now left. }
  destruct (String.eqb_spec (tipo f) "Donacion") as [E | _].
  { exfalso. apply Hv. now right. }
  reflexivity.
Qed.

Lemma mismas_colas_refl (st : Estado) : mismas_colas st st.
Proof. split; auto. Qed.

Lemma mismas_colas_sym (st1 st2 : Estado) :
  mismas_colas st1 st2 -> mismas_colas st2 st1.
Proof. intros [Hv Hq]. split; auto. Qed.

Lemma mismas_colas_trans (st1 st2 st3 : Estado) :
  mismas_colas st1 st2 -> mismas_colas st2 st3 -> mismas_colas st1 st3.
Proof.
  intros [Hv Hq] [Hv' Hq']. split; [congruence|].
  intros cr. now rewrite Hq.
Qed.

Lemma mismas_colas_insert (cr : string) (q : list Lote) (vs : list Venta)
      (m1 m2 : gmap string (list Lote)) :
  (forall cr', cola_de m1 cr' = cola_de m2 cr') ->
  mismas_colas (mkEstado (<[cr := q]> m1) vs) (mkEstado (<[cr := q]> m2) vs).
Proof.
  intros H. split; [reflexivity|]. intros cr'. simpl.
  destruct (decide (cr = cr')) as [<- | Hne].
  - now rewrite !cola_de_insert.
  - now rewrite !cola_de_insert_ne.
Qed.

(** The body of the loop does not tell such states apart. *)
Lemma procesar_fila_mismas (st1 st2 st1' : Estado) (f : Fila) :
  mismas_colas st1 st2 -> procesar_fila st1 f = Some st1' ->
  exists st2', procesar_fila st2 f = Some st2' /\ mismas_colas st1' st2'.
Proof.
  intros [Hv Hq] H.
  destruct (procesar_fila_casos _ _ _ H)
    as [[Hm ->] | [(Hc & Hn & Ht & ->) | [(Hc & Hn & Ht & c & Hloop & ->)
                                        | (Hc & Hn & Ht & Hnv & ->)]]].
  - exists st2. split; [now apply procesar_fila_omitida | now split].
  - eexists. split; [now apply procesar_fila_compra|].
    rewrite <- Hq, <- Hv. now apply mismas_colas_insert.
  - eexists. split.
    + apply (procesar_fila_venta st2 f c); auto. now rewrite <- Hq.
    + rewrite <- Hv. now apply mismas_colas_insert.
  - eexists. split; [now apply procesar_fila_otro|].
    split; [exact Hv|]. intros cr. simpl.
    now rewrite !cola_de_asegurar_ne.
Qed.

Lemma procesar_filas_mismas (l : list Fila) (st1 st2 st1' : Estado) :
  mismas_colas st1 st2 -> procesar_filas st1 l = Some st1' ->
  exists st2', procesar_filas st2 l = Some st2' /\ mismas_colas st1' st2'.
Proof.
  revert st1 st2. induction l as [|f l IH]; intros st1 st2 Hm H; simpl in *.
  - inversion H; subst. eauto.
  - destruct (procesar_fila st1 f) as [s1|] eqn:E; [|discriminate].
    destruct (procesar_fila_mismas _ _ _ _ Hm E) as (s2 & -> & Hm').
    eapply IH; eauto.
Qed.

(** ** Rows that are neither purchases nor disposals *)

Lemma procesar_fila_sin_efecto (st : Estado) (f : Fila) :
  tipo f <> "Compra" -> ~ es_venta f ->
  exists st', procesar_fila st f = Some st' /\ mismas_colas st' st.
Proof.
  intros Ht Hv. destruct (procesar_fila_total st f) as [st' H].
  exists st'. split; [exact H|].
  destruct (procesar_fila_casos _ _ _ H)
    as [[_ ->] | [(_ & _ & Hc & _) | [(_ & _ & Hs & _)
                                     | (_ & _ & _ & _ & ->)]]];
    try contradiction.
  - apply mismas_colas_refl.
  - split; [reflexivity|]. intros cr. simpl. apply cola_de_asegurar_ne.
Qed.

(** X1.  A row whose kind is neither a purchase nor a sale or donation,
    such as income, adds no lot and no record: a run over rows among which
    it stands ends with the records and the lots of the run over the
    other rows. *)
Theorem X1_otros_tipos_sin_lote (st : Estado) (f : Fila) (l1 l2 : list Fila) :
  tipo f <> "Compra" -> ~ es_venta f ->
  exists s1 s2 : Estado,
    procesar_filas st (l1 ++ f :: l2) = Some s1
    /\ procesar_filas st (l1 ++ l2) = Some s2
    /\ mismas_colas s1 s2.
Proof.
  intros Ht Hv.
  destruct (procesar_filas_total l1 st) as [sa Ha].
  destruct (procesar_fila_sin_efecto sa f Ht Hv) as (sb & Hb & Hm).
  destruct (procesar_filas_total l2 sb) as [s1 H1].
  destruct (procesar_filas_mismas _ _ _ _ Hm H1) as (s2 & H2 & Hm').
  exists s1, s2. rewrite !procesar_filas_app, Ha. simpl. rewrite Hb.
  auto.
Qed.

Lemma X1_otros_tipos_sin_lote_witness :
  exists s1 s2 : Estado,
    procesar_filas estado_inicial ([] ++ fila_ingreso_eth :: [fila_venta_eth])
    = Some s1
    /\ procesar_filas estado_inicial ([] ++ [fila_venta_eth]) = Some s2
    /\ mismas_colas s1 s2.
Proof.
  apply (X1_otros_tipos_sin_lote estado_inicial fila_ingreso_eth
           [] [fila_venta_eth]).
  - discriminate.
  - intros [H | H]; discriminate.
Defined.

(** A unit received as income and then sold has no history. *)
Example ingreso_y_venta :
  map (fun v => (nota v, coste_adquisicion_total_eur v))
    <$> calcular_fifo ordenar_estable [fila_ingreso_eth; fila_venta_eth]
  = Some [("Sin histórico para 1.00000000 eth", 0)].
Proof. vm_compute. reflexivity. Qed.

(** ** One record for each valid disposal *)

Lemma venta_valida_true (f : Fila) :
  venta_valida f = true <->
  0 < cantidad f /\ cripto f <> EmptyString /\ es_venta f.
Proof.
  unfold venta_valida, es_venta. rewrite vacia_lower.
  rewrite andb_true_iff, negb_true_iff, orb_false_iff, orb_true_iff.
  rewrite !String.eqb_eq. split.
  - intros [[Hq Hc] Hv]. apply le_false in Hq. repeat split; auto.
    intros E. rewrite E in Hc. discriminate.
  - intros (Hq & Hc & Hv). repeat split; auto.
    + now apply le_elim.
    + destruct (cripto f); [congruence | reflexivity].
Qed.

Lemma venta_valida_false (f : Fila) :
  venta_valida f = false <->
  ~ (0 < cantidad f /\ cripto f <> EmptyString /\ es_venta f).
Proof.
  rewrite <- venta_valida_true. destruct (venta_valida f); split; congruence.
Qed.

Lemma procesar_fila_datos (st st' : Estado) (f : Fila) :
  procesar_fila st f = Some st' ->
  map datos_venta (ventas st')
  = map datos_venta (ventas st)
    ++ (if venta_valida f then [datos_fila f] else []).
Proof.
  intros H.
  destruct (procesar_fila_casos _ _ _ H)
    as [[Hm ->] | [(Hc & Hn & Ht & ->) | [(Hc & Hn & Ht & c & Hloop & ->)
                                        | (Hc & Hn & Ht & Hnv & ->)]]];
    simpl.
  - rewrite (proj2 (venta_valida_false f)); [now rewrite app_nil_r|].
    intros (Hq & Hc & _). destruct Hm; [lra | contradiction].
  - rewrite (proj2 (venta_valida_false f)); [now rewrite app_nil_r|].
    intros (_ & _ & [E | E]); congruence.
  - rewrite (proj2 (venta_valida_true f)) by auto.
    now rewrite map_app.
  - rewrite (proj2 (venta_valida_false f)); [now rewrite app_nil_r|].
    intros (_ & _ & E). contradiction.
Qed.

Lemma procesar_filas_datos (l : list Fila) (st st' : Estado) :
  procesar_filas st l = Some st' ->
  map datos_venta (ventas st')
  = map datos_venta (ventas st)
    ++ map datos_fila (List.filter venta_valida l).
Proof.
  revert st. induction l as [|f l IH]; intros st H; simpl in *.
  - inversion H; subst. now rewrite app_nil_r.
  - destruct (procesar_fila st f) as [s1|] eqn:E; [|discriminate].
    rewrite (IH _ H), (procesar_fila_datos _ _ _ E), <- app_assoc.
    destruct (venta_valida f); reflexivity.
Qed.

Lemma filter_perm (p : Fila -> bool) (l l' : list Fila) :
  Permutation l l' -> Permutation (List.filter p l) (List.filter p l').
Proof.
  induction 1 as [|x l l' _ IH | x y l | l l' l'' _ IH1 _ IH2]; simpl.
  - constructor.
  - destruct (p x); [now constructor | exact IH].
  - destruct (p x), (p y); try reflexivity. apply perm_swap.
  - etransitivity; eauto.
Qed.

Lemma filter_sorted (p : Fila -> bool) (l : list Fila) :
  StronglySorted fecha_le l -> StronglySorted fecha_le (List.filter p l).
Proof.
  induction 1 as [|x l Hs IH Hx]; simpl; [constructor|].
  destruct (p x); [|exact IH]. constructor; [exact IH|].
  rewrite List.Forall_forall in *. intros y Hy.
  apply List.filter_In in Hy as [Hy _]. auto.
Qed.

Lemma fechas_de_filas (l : list Fila) :
  StronglySorted fecha_le l -> fechas_en_orden (map fecha l).
Proof.
  induction 1 as [|x l Hs IH Hx]; simpl; constructor; auto.
  rewrite List.Forall_forall in *. intros d Hd.
  apply in_map_iff in Hd as (y & <- & Hy). now apply Hx.
Qed.

(** X2.  Under any sort that does what [sort_values] guarantees, a run
    returns one record for each row that passes the guard and is a sale
    or a donation, and none for any other row: the records carry, in the
    order of the sorted rows, the date, lower-case asset name, kind,
    quantity, value and fee of those rows, so there are as many records
    as such rows in the input and their dates ascend. *)
Theorem X2_un_registro_por_venta (sort_values : list Fila -> list Fila)
        (df : list Fila) :
  ordena_por_fecha sort_values ->
  exists vs : list Venta,
    calcular_fifo sort_values df = Some vs
    /\ map datos_venta vs
       = map datos_fila (List.filter venta_valida (sort_values df))
    /\ length vs = length (List.filter venta_valida df)
    /\ fechas_en_orden (map fecha_venta vs).
Proof.
  intros [Hperm Hsorted].
  destruct (procesar_filas_total (sort_values df) estado_inicial)
    as [st Hst].
  exists (ventas st). unfold calcular_fifo. rewrite Hst.
  pose proof (procesar_filas_datos _ _ _ Hst) as Hd. simpl in Hd.
  split; [reflexivity|]. split; [exact Hd|]. split.
  - rewrite <- (length_map datos_venta), Hd, length_map.
    apply Permutation_length. apply Permutation_sym.
    apply filter_perm, Hperm.
  - assert (Hf : map fecha_venta (ventas st)
                 = map fecha (List.filter venta_valida (sort_values df))).
    { transitivity (map (fun x => fst (fst (fst (fst (fst x)))))
                        (map datos_venta (ventas st))).
      - rewrite map_map. reflexivity.
      - rewrite Hd, map_map. reflexivity. }
    rewrite Hf. apply fechas_de_filas, filter_sorted.
    apply Sorted_StronglySorted; [exact fecha_le_trans | apply Hsorted].
Qed.

Lemma X2_un_registro_por_venta_witness :
  exists vs : list Venta,
    calcular_fifo ordenar_estable [fila_d4; fila_a1; fila_a2] = Some vs
    /\ length vs = 1%nat
    /\ fechas_en_orden (map fecha_venta vs).
Proof.
  destruct (X2_un_registro_por_venta ordenar_estable
              [fila_d4; fila_a1; fila_a2] ordenar_estable_ordena)
    as (vs & Hrun & _ & Hlen & Hord).
  exists vs. split; [exact Hrun|]. split; [exact Hlen | exact Hord].
Defined.

(** ** What a disposal takes is what the queue loses *)

Lemma disponible_nil : disponible [] == 0.
Proof. unfold disponible, Py.sum. simpl. lra. Qed.

Lemma coste_cola_nil : coste_cola [] == 0.
Proof. unfold coste_cola, Py.sum. simpl. lra. Qed.

(** The balance of the loop.  When there is something to match, the
    quantity the queue held is the quantity it holds afterwards, plus the
    quantity matched, plus the remainder [polvo] of a lot dropped with
    [epsilon] or less in it; likewise for the cost, [polvo] counting at
    the unit cost [cu] of that lot.  The loop ends with nothing left to
    match, or else with the queue empty and nothing dropped unmatched. *)
Lemma consumir_fifo_balance (fuel : nat) (c c' : Consumo) :
  consumir_fifo fuel c = Some c' ->
  Forall lote_positivo (cola c) -> 0 < restante c ->
  exists polvo cu : Q,
    0 <= polvo /\ polvo <= epsilon
    /\ 0 <= restante c' /\ restante c' <= restante c
    /\ disponible (cola c)
       == disponible (cola c') + (restante c - restante c') + polvo
    /\ coste_cola (cola c)
       == coste_cola (cola c') + (coste_adq c' - coste_adq c) + polvo * cu
    /\ (restante c' == 0 \/ (cola c' = [] /\ polvo == 0)).
Proof.
  revert c. induction fuel as [|fuel IH]; intros c H Hpos Hr.
  - simpl in H. destruct (cola c) as [|lote resto] eqn:Hq.
    + inversion H; subst c'. exists 0, 0. rewrite Hq.
      unfold epsilon. repeat split; try lra. right. split; [reflexivity|lra].
    + rewrite (lt_intro _ _ Hr) in H. discriminate.
  - destruct (cola c) as [|lote resto] eqn:Hq.
    { rewrite (consumir_fifo_vacia _ _ Hq) in H. inversion H; subst c'.
      exists 0, 0. rewrite Hq. unfold epsilon.
      repeat split; try lra. right. split; [reflexivity|lra]. }
    rewrite (consumir_fifo_paso _ _ _ _ Hq Hr) in H.
    apply Forall_cons in Hpos as [Hl Hpos]. unfold lote_positivo in Hl.
    destruct (Qlt_le_dec (cantidad_disponible lote) (restante c))
      as [Hlt | Hle].
    + rewrite (consumir_lote_entero _ _ _ Hlt) in H.
      destruct (IH _ H)
        as (polvo & cu & Hp0 & Hp1 & Hr' & Hr'' & Hd & Hc & Hfin);
        simpl; auto; [lra|].
      simpl in Hr', Hr'', Hd, Hc. exists polvo, cu.
      rewrite disponible_cons, coste_cola_cons.
      repeat split; auto; lra.
    + assert (Ht : Py.min (restante c) (cantidad_disponible lote)
                   = restante c).
      { unfold Py.min. now rewrite lt_elim. }
      destruct (consumir_lote_casos c lote resto)
        as [[Hago Hc1] | (Heps & Hc1 & Hz)]; rewrite Ht in *.
      * assert (Hz : restante (consumir_lote c lote resto) <= 0).
        { unfold consumir_lote. rewrite Ht. simpl. lra. }
        rewrite (consumir_fifo_parado _ _ Hz) in H. inversion H; subst c'.
        exists (cantidad_disponible lote - restante c), (coste_unit lote).
        rewrite Hc1, disponible_cons, coste_cola_cons.
        unfold consumir_lote. rewrite Ht. simpl.
        repeat split; try lra.
      * rewrite (consumir_fifo_parado _ _ Hz) in H. inversion H; subst c'.
        exists 0, 0.
        rewrite Hc1, !disponible_cons, !coste_cola_cons.
        unfold consumir_lote. rewrite Ht. simpl. unfold epsilon.
        repeat split; try lra.
Qed.

Lemma nota_vacia (r : Q) (cr : string) :
  (if Py.lt epsilon r then nota_sin_historico r cr else EmptyString)
  = EmptyString <-> r <= epsilon.
Proof.
  destruct (Py.lt epsilon r) eqn:E.
  - apply lt_true in E. split; [discriminate | lra].
  - apply lt_false in E. split; auto.
Qed.

(** X3.  In any state the row loop reaches, a sale or donation that
    passes the guard appends one record, and the books balance: the
    quantity the queue of the asset held is the quantity it holds
    afterwards plus the quantity matched plus at most [epsilon] dropped
    with a used-up lot, and what the queue had cost is what it costs
    afterwards plus the acquisition cost of the record plus the cost of
    the dropped remainder.  The quantity matched is the whole quantity of
    the row, unless the queue ends empty with nothing dropped. *)
Theorem X3_balance_de_una_venta (pre : list Fila) (st : Estado) (f : Fila) :
  procesar_filas estado_inicial pre = Some st ->
  es_venta f -> 0 < cantidad f -> cripto f <> EmptyString ->
  let cr := Py.lower (cripto f) in
  let q := cola_de (colas st) cr in
  exists (st' : Estado) (v : Venta) (casado polvo cu : Q),
    procesar_fila st f = Some st'
    /\ ventas st' = ventas st ++ [v]
    /\ 0 <= casado /\ casado <= cantidad f
    /\ 0 <= polvo /\ polvo <= epsilon
    /\ disponible q == disponible (cola_de (colas st') cr) + casado + polvo
    /\ coste_cola q
       == coste_cola (cola_de (colas st') cr)
          + coste_adquisicion_total_eur v + polvo * cu
    /\ (casado == cantidad f
        \/ (cola_de (colas st') cr = [] /\ polvo == 0)).
Proof.
  intros Hpre Hv Hq Hc cr q.
  pose proof (procesar_filas_positivos _ _ _ Hpre lotes_positivos_inicial cr)
    as Hpos. fold q in Hpos.
  destruct (consumir_fifo_total (length q) (mkConsumo (cantidad f) 0 [] q))
    as [c Hloop]; [simpl; lia|].
  destruct (consumir_fifo_balance _ _ _ Hloop Hpos Hq)
    as (polvo & cu & Hp0 & Hp1 & Hr0 & Hr1 & Hd & Hco & Hfin).
  simpl in Hr1, Hd, Hco, Hfin.
  exists (mkEstado (<[cr := cola c]> (colas st))
                   (ventas st ++ [registro_venta f cr c])),
    (registro_venta f cr c), (cantidad f - restante c), polvo, cu.
  split; [now apply procesar_fila_venta|]. split; [reflexivity|].
  cbn [colas]. rewrite cola_de_insert. simpl.
  repeat split; try lra.
  destruct Hfin as [Hz | [He Hp]]; [left; lra | right; split; auto].
Qed.

Lemma X3_balance_de_una_venta_witness :
  exists (st' : Estado) (v : Venta) (casado polvo : Q),
    procesar_fila estado_tras_compra_4 fila_venta_10 = Some st'
    /\ ventas st' = [v]
    /\ 0 <= polvo
    /\ 4 == disponible (cola_de (colas st') "btc") + casado + polvo
    /\ (casado == 10 \/ (cola_de (colas st') "btc" = [] /\ polvo == 0)).
Proof.
  destruct (X3_balance_de_una_venta [fila_compra_4] estado_tras_compra_4
              fila_venta_10)
    as (st' & v & casado & polvo & cu & Hst & Hvs & _ & _ & Hp0 & _ & Hd
        & _ & Hfin).
  - vm_compute. reflexivity.
  - left. reflexivity.
  - vm_compute. reflexivity.
  - discriminate.
  - exists st', v, casado, polvo. repeat split; auto.
Defined.

(** X4.  In any state the row loop reaches, the record of a sale or
    donation that passes the guard has an empty note exactly when the
    quantity of the row is no more than what the queue of the asset
    holds plus [epsilon]; otherwise the note is the shortfall text, for
    the quantity of the row less the quantity held, and the asset. *)
Theorem X4_nota_solo_si_falta (pre : list Fila) (st : Estado) (f : Fila) :
  procesar_filas estado_inicial pre = Some st ->
  es_venta f -> 0 < cantidad f -> cripto f <> EmptyString ->
  let cr := Py.lower (cripto f) in
  let q := cola_de (colas st) cr in
  let sin_casar := resto_de (cantidades q) (cantidad f) in
  exists (st' : Estado) (v : Venta),
    procesar_fila st f = Some st'
    /\ ventas st' = ventas st ++ [v]
    /\ (nota v = EmptyString <-> cantidad f <= disponible q + epsilon)
    /\ (disponible q + epsilon < cantidad f ->
        nota v = nota_sin_historico sin_casar cr
        /\ sin_casar == cantidad f - disponible q).
Proof.
  intros Hpre Hv Hq Hc cr q sin_casar.
  pose proof (procesar_filas_positivos _ _ _ Hpre lotes_positivos_inicial)
    as Hinv.
  pose proof (Hinv cr) as Hpos. fold q in Hpos.
  destruct (consumir_fifo_total (length q) (mkConsumo (cantidad f) 0 [] q))
    as [c Hloop]; [simpl; lia|].
  pose proof (procesar_fila_venta st f c Hq Hc Hv Hloop) as Hst.
  destruct (consumir_fifo_balance _ _ _ Hloop Hpos Hq)
    as (polvo & cu & Hp0 & Hp1 & Hr0 & Hr1 & Hd & _ & Hfin).
  simpl in Hr1, Hd.
  assert (Hpos' : Forall lote_positivo (cola c)).
  { pose proof (procesar_fila_positivos _ _ _ Hst Hinv cr) as H.
    cbn [colas] in H. fold cr in H. now rewrite cola_de_insert in H. }
  pose proof (disponible_no_negativo _ Hpos') as Hnn.
  eexists _, _. split; [exact Hst|]. split; [reflexivity|].
  unfold registro_venta. cbn [nota]. split.
  - rewrite nota_vacia. unfold epsilon in *.
    destruct Hfin as [Hz | [He Hp]].
    + split; intros _; lra.
    + rewrite He, disponible_nil in Hd. split; intros H; lra.
  - intros Hmas.
    pose proof (consumir_fifo_todo q (length q)
                  (mkConsumo (cantidad f) 0 [] q) eq_refl Hpos Hmas
                  (le_n _)) as Htodo.
    rewrite Hloop in Htodo. injection Htodo as ->. cbn [restante].
    pose proof (resto_de_cantidades q (cantidad f)) as Hr.
    fold sin_casar in Hr |- *. fold cr.
    split; [|exact Hr].
    rewrite lt_intro; [reflexivity|]. rewrite Hr. lra.
Qed.

Lemma X4_nota_solo_si_falta_witness :
  (exists (st' : Estado) (v : Venta),
      procesar_fila estado_tras_compra_4 fila_venta_4 = Some st'
      /\ ventas st' = [v]
      /\ nota v = EmptyString)
  /\ (exists (st' : Estado) (v : Venta),
         procesar_fila estado_tras_compra_4 fila_venta_10 = Some st'
         /\ ventas st' = [v]
         /\ nota v = "Sin histórico para 6.00000000 btc").
Proof.
  split.
  - destruct (X4_nota_solo_si_falta [fila_compra_4] estado_tras_compra_4
                fila_venta_4)
      as (st' & v & Hst & Hvs & Hnota & _).
    + vm_compute. reflexivity.
    + left. reflexivity.
    + vm_compute. reflexivity.
    + discriminate.
    + exists st', v. split; [exact Hst|]. split; [exact Hvs|].
      apply Hnota. vm_compute. discriminate.
  - destruct (X4_nota_solo_si_falta [fila_compra_4] estado_tras_compra_4
                fila_venta_10)
      as (st' & v & Hst & Hvs & _ & Hfalta).
    + vm_compute. reflexivity.
    + left. reflexivity.
    + vm_compute. reflexivity.
    + discriminate.
    + exists st', v. split; [exact Hst|]. split; [exact Hvs|].
      destruct Hfalta as [Hn _]; [vm_compute; reflexivity|].
      rewrite Hn. vm_compute. reflexivity.
Defined.

(** ** Buying and selling the same quantity *)

Lemma coste_unit_lote_de (f : Fila) :
  0 < cantidad f ->
  cantidad f * coste_unit (lote_de f) == valor_eur f + fee_de f.
Proof.
  intros H. unfold lote_de.
  destruct (Qeq_bool (cantidad f) 0) eqn:E.
  - apply Qeq_bool_iff in E. lra.
  - simpl. field. lra.
Qed.

(** X5.  On an asset whose queue is empty, a purchase followed by a sale
    or donation of the same quantity leaves the queue empty again and
    appends one record without a note, whose acquisition cost is what the
    purchase cost, value plus fee, and whose gain is the value of the
    disposal less its fee, less the value and the fee of the purchase. *)
Theorem X5_compra_y_venta (st : Estado) (fc fv : Fila) :
  cola_de (colas st) (Py.lower (cripto fc)) = [] ->
  tipo fc = "Compra" -> es_venta fv ->
  0 < cantidad fc -> cripto fc <> EmptyString ->
  Py.lower (cripto fv) = Py.lower (cripto fc) ->
  cantidad fv == cantidad fc ->
  exists (st' : Estado) (v : Venta),
    procesar_filas st [fc; fv] = Some st'
    /\ ventas st' = ventas st ++ [v]
    /\ cola_de (colas st') (Py.lower (cripto fc)) = []
    /\ nota v = EmptyString
    /\ coste_adquisicion_total_eur v == valor_eur fc + fee_de fc
    /\ ganancia_perdida_eur v
       == valor_eur fv - fee_de fv - (valor_eur fc + fee_de fc).
Proof.
  intros Hq0 Htc Htv Hqc Hcc Hcr Hqv.
  assert (Hcv : cripto fv <> EmptyString).
  { intros E. apply (f_equal Py.vacia) in Hcr.
    rewrite !vacia_lower, E in Hcr. destruct (cripto fc); simpl in Hcr;
      congruence. }
  assert (Hqv' : 0 < cantidad fv) by lra.
  set (cr := Py.lower (cripto fc)) in *.
  set (c := mkConsumo (cantidad fv - cantidad fv)
                      (0 + cantidad fv * coste_unit (lote_de fc))
                      ([] ++ [lote_info (cantidad fv) (lote_de fc)]) []).
  assert (Hloop : consumir_fifo 1 (mkConsumo (cantidad fv) 0 [] [lote_de fc])
                  = Some c).
  { apply (consumir_fifo_exacto 0 (mkConsumo (cantidad fv) 0 [] [lote_de fc]));
      auto. }
  pose proof (coste_unit_lote_de fc Hqc) as Hcu.
  exists (mkEstado (<[cr := []]> (colas st))
                   (ventas st ++ [registro_venta fv cr c])),
    (registro_venta fv cr c).
  split.
  - cbn [procesar_filas].
    rewrite (procesar_fila_compra st fc Hqc Hcc Htc). fold cr. rewrite Hq0.
    rewrite (procesar_fila_venta _ fv c Hqv' Hcv Htv).
    + cbn [colas ventas]. rewrite Hcr. fold cr.
      now rewrite insert_insert_eq.
    + cbn [colas]. rewrite Hcr. fold cr. rewrite cola_de_insert. exact Hloop.
  - cbn [colas ventas]. rewrite cola_de_insert.
    split; [reflexivity|]. split; [reflexivity|].
    unfold registro_venta.
    cbn [nota coste_adquisicion_total_eur ganancia_perdida_eur].
    split; [apply nota_vacia; unfold c, epsilon; simpl; lra|].
    unfold c. cbn [coste_adq]. rewrite Hqv. split; lra.
Qed.

Lemma X5_compra_y_venta_witness :
  exists (st' : Estado) (v : Venta),
    procesar_filas estado_inicial [fila_compra_4; fila_venta_4] = Some st'
    /\ ventas st' = [v]
    /\ cola_de (colas st') "btc" = []
    /\ ganancia_perdida_eur v == 3000 - 30 - (400 + 0).
Proof.
  destruct (X5_compra_y_venta estado_inicial fila_compra_4 fila_venta_4)
    as (st' & v & Hst & Hvs & Hq & _ & _ & Hgan).
  - reflexivity.
  - reflexivity.
  - left. reflexivity.
  - vm_compute. reflexivity.
  - discriminate.
  - reflexivity.
  - reflexivity.
  - exists st', v. repeat split; auto.
Defined.

(** ** Assets do not interfere *)

Lemma ventas_de_app (cr : string) (l1 l2 : list Venta) :
  ventas_de cr (l1 ++ l2) = ventas_de cr l1 ++ ventas_de cr l2.
Proof. apply List.filter_app. Qed.

Lemma procesar_fila_otro_activo (cr : string) (st st' : Estado) (f : Fila) :
  Py.lower (cripto f) <> cr -> procesar_fila st f = Some st' ->
  cola_de (colas st') cr = cola_de (colas st) cr
  /\ ventas_de cr (ventas st') = ventas_de cr (ventas st).
Proof.
  intros Hne H.
  split; [apply (procesar_fila_otras_colas _ _ _ _ H); congruence|].
  destruct (procesar_fila_casos _ _ _ H)
    as [[_ ->] | [(_ & _ & _ & ->) | [(_ & _ & _ & c & _ & ->)
                                     | (_ & _ & _ & _ & ->)]]];
    simpl; auto.
  rewrite ventas_de_app. simpl.
  destruct (String.eqb_spec (Py.lower (cripto f)) cr); [contradiction|].
  now rewrite app_nil_r.
Qed.

Lemma procesar_fila_mismo_activo (cr : string) (s1 s2 s1' : Estado)
      (f : Fila) :
  Py.lower (cripto f) = cr ->
  cola_de (colas s1) cr = cola_de (colas s2) cr ->
  ventas_de cr (ventas s1) = ventas_de cr (ventas s2) ->
  procesar_fila s1 f = Some s1' ->
  exists s2',
    procesar_fila s2 f = Some s2'
    /\ cola_de (colas s1') cr = cola_de (colas s2') cr
    /\ ventas_de cr (ventas s1') = ventas_de cr (ventas s2').
Proof.
  intros Hcr Hq Hv H. subst cr.
  destruct (procesar_fila_casos _ _ _ H)
    as [[Hm ->] | [(Hc & Hn & Ht & ->) | [(Hc & Hn & Ht & c & Hloop & ->)
                                        | (Hc & Hn & Ht & Hnv & ->)]]].
  - exists s2. split; [now apply procesar_fila_omitida | auto].
  - eexists. split; [now apply procesar_fila_compra|].
    cbn [colas ventas]. rewrite !cola_de_insert, Hq. auto.
  - eexists. split.
    + apply (procesar_fila_venta s2 f c); auto. now rewrite <- Hq.
    + cbn [colas ventas]. rewrite !cola_de_insert, !ventas_de_app, Hv. auto.
  - eexists. split; [now apply procesar_fila_otro|].
    cbn [colas ventas]. rewrite !cola_de_asegurar. auto.
Qed.

(** X6.  Assets do not interfere: from any state, the lots left under an
    asset name and the records of that asset are the same after a run of
    the loop over all the rows as after a run over the rows of that asset
    alone. *)
Theorem X6_activos_independientes (cr : string) (l : list Fila)
        (st : Estado) :
  exists s1 s2 : Estado,
    procesar_filas st l = Some s1
    /\ procesar_filas st (filas_de cr l) = Some s2
    /\ cola_de (colas s1) cr = cola_de (colas s2) cr
    /\ ventas_de cr (ventas s1) = ventas_de cr (ventas s2).
Proof.
  assert (Hgen : forall sa sb,
             cola_de (colas sa) cr = cola_de (colas sb) cr ->
             ventas_de cr (ventas sa) = ventas_de cr (ventas sb) ->
             exists s1 s2,
               procesar_filas sa l = Some s1
               /\ procesar_filas sb (filas_de cr l) = Some s2
               /\ cola_de (colas s1) cr = cola_de (colas s2) cr
               /\ ventas_de cr (ventas s1) = ventas_de cr (ventas s2)).
  { induction l as [|f l IH]; intros sa sb Hq Hv; simpl.
    - exists sa, sb. auto.
    - destruct (procesar_fila_total sa f) as [sa' Ha]. rewrite Ha.
      destruct (String.eqb_spec (Py.lower (cripto f)) cr) as [E | E].
      + destruct (procesar_fila_mismo_activo cr sa sb sa' f E Hq Hv Ha)
          as (sb' & Hb & Hq' & Hv').
        simpl. rewrite Hb. now apply IH.
      + destruct (procesar_fila_otro_activo cr sa sa' f E Ha) as [Hq' Hv'].
        apply IH; congruence. }
  now apply Hgen.
Qed.

(** ** The tax on gains grows with the gain *)

Lemma rint_entre (x : Q) :
  (Qfloor x <= Py.rint x)%Z /\ (Py.rint x <= Qfloor x + 1)%Z.
Proof.
  unfold Py.rint.
  destruct (Qcompare (x - inject_Z (Qfloor x)) (1 # 2)); try lia.
  destruct (Z.even (Qfloor x)); lia.
Qed.

Lemma rint_mono (x y : Q) : x <= y -> (Py.rint x <= Py.rint y)%Z.
Proof.
  intros Hxy. pose proof (Qfloor_resp_le _ _ Hxy) as Hf.
  destruct (Z.eq_dec (Qfloor x) (Qfloor y)) as [E | E].
  - unfold Py.rint. rewrite <- E.
    destruct (Qcompare_spec (x - inject_Z (Qfloor x)) (1 # 2)) as [H1|H1|H1];
      destruct (Qcompare_spec (y - inject_Z (Qfloor x)) (1 # 2))
        as [H2|H2|H2];
      destruct (Z.even (Qfloor x)); try lia; exfalso; lra.
  - pose proof (rint_entre x). pose proof (rint_entre y). lia.
Qed.

Lemma round2_mono (x y : Q) : x <= y -> Py.round2 x <= Py.round2 y.
Proof.
  intros H. unfold Py.round2.
  assert (Hr : (Py.rint (x * 100) <= Py.rint (y * 100))%Z).
  { apply rint_mono. lra. }
  rewrite Zle_Qle in Hr.
  apply Qmult_le_compat_r; [exact Hr|]. vm_compute. discriminate.
Qed.

Lemma escala_mono (g1 g2 : Q) :
  g1 <= g2 -> escala_progresiva g1 <= escala_progresiva g2.
Proof. intros H. unfold escala_progresiva. casos_cmp; lra. Qed.

Lemma escala_cotas (g : Q) :
  0 <= escala_progresiva g
  /\ (0 <= g -> 0.19 * g <= escala_progresiva g
               /\ escala_progresiva g <= 0.26 * g).
Proof. unfold escala_progresiva. casos_cmp; repeat split; intros; lra. Qed.

(** X7.  The tax on gains is never negative, and a larger total gain
    never gives a smaller tax; before rounding, the tax on a total gain
    that is not negative lies between 19% and 26% of it. *)
Theorem X7_irpf_ganancias_monotono (df1 df2 : list Venta) :
  let g1 := Py.sum (map ganancia_perdida_eur df1) in
  let g2 := Py.sum (map ganancia_perdida_eur df2) in
  0 <= irpf_ganancias_eur (calcular_irpf_ganancias df1)
  /\ (g1 <= g2 ->
      irpf_ganancias_eur (calcular_irpf_ganancias df1)
      <= irpf_ganancias_eur (calcular_irpf_ganancias df2))
  /\ (0 <= g1 ->
      0.19 * g1 <= aplicar_tramos tramos g1 0
      /\ aplicar_tramos tramos g1 0 <= 0.26 * g1).
Proof.
  intros g1 g2. unfold calcular_irpf_ganancias.
  rewrite !total_ganancias_suma. fold g1 g2. cbn [irpf_ganancias_eur].
  pose proof (aplicar_tramos_escala g1) as H1.
  pose proof (aplicar_tramos_escala g2) as H2.
  pose proof (escala_cotas g1) as [Hnn Hc].
  split; [|split].
  - pose proof round2_cero as Hz.
    assert (Hm : Py.round2 0 <= Py.round2 (aplicar_tramos tramos g1 0)).
    { apply round2_mono. lra. }
    lra.
  - intros Hg. apply round2_mono. pose proof (escala_mono _ _ Hg). lra.
  - intros Hg. destruct (Hc Hg). split; lra.
Qed.

(** * Properties of the exchange transformers *)

(** ** Strings *)

Lemma lower_substring (n : nat) (s : string) :
  Py.lower (String.substring 0 n s) = String.substring 0 n (Py.lower s).
Proof.
  revert n. induction s as [|c s IH]; intros [|n]; simpl; try reflexivity.
  now rewrite IH.
Qed.

Lemma length_substring (n : nat) (s : string) :
  (n <= String.length s)%nat ->
  String.length (String.substring 0 n s) = n.
Proof.
  revert n. induction s as [|c s IH]; intros [|n] H; simpl in *;
    try reflexivity; try lia.
  rewrite IH; lia.
Qed.

Lemma substring_append (b x : string) :
  String.substring 0 (String.length b) (b +:+ x) = b.
Proof.
  induction b as [|c b IH]; simpl.
  - destruct x; reflexivity.
  - now rewrite IH.
Qed.

Lemma length_append (b x : string) :
  String.length (b +:+ x) = (String.length b + String.length x)%nat.
Proof. induction b as [|c b IH]; simpl; [reflexivity | now rewrite IH]. Qed.

Lemma endswith_eq (s suf : string) :
  PyStr.endswith s suf
  = String.eqb s suf
    || match s with
       | EmptyString => false
       | String _ s' => PyStr.endswith s' suf
       end.
Proof. destruct s; reflexivity. Qed.

Lemma endswith_true (s suf : string) :
  PyStr.endswith s suf = true -> exists b, s = b +:+ suf.
Proof.
  induction s as [|c s IH]; rewrite endswith_eq; intros H;
    apply orb_true_iff in H as [H | H].
  - apply String.eqb_eq in H. exists EmptyString. now subst.
  - discriminate.
  - apply String.eqb_eq in H. exists EmptyString. now rewrite <- H.
  - destruct (IH H) as [b ->]. now exists (String c b).
Qed.

Lemma hasta_append (b suf : string) :
  PyStr.hasta (b +:+ suf) (String.length suf) = b.
Proof.
  unfold PyStr.hasta. rewrite length_append.
  replace (String.length b + String.length suf - String.length suf)%nat
    with (String.length b) by lia.
  apply substring_append.
Qed.

Lemma vacia_length (s : string) :
  Py.vacia s = false <-> (0 < String.length s)%nat.
Proof. destruct s; simpl; split; intros; try congruence; lia. Qed.

(** What the loop over the suffixes returns: the symbol less one of the
    suffixes, something being left. *)
Lemma quitar_sufijo_some (sufs : list string) (s r : string) :
  quitar_sufijo sufs s = Some r ->
  r <> EmptyString /\ exists suf, In suf sufs /\ s = r +:+ suf.
Proof.
  induction sufs as [|suf sufs IH]; simpl; [discriminate|].
  destruct (PyStr.endswith s suf) eqn:E; simpl.
  - destruct (String.length suf <? String.length s)%nat eqn:L.
    + intros H. inversion H; subst r. clear H.
      apply Nat.ltb_lt in L.
      destruct (endswith_true _ _ E) as [b ->].
      rewrite hasta_append. split.
      * rewrite length_append in L. destruct b; simpl in L; [lia|].
        discriminate.
      * exists suf. split; [now left | reflexivity].
    + intros H. destruct (IH H) as [Hr (x & Hx & Hs)].
      split; [exact Hr|]. exists x. split; [now right | exact Hs].
  - intros H. destruct (IH H) as [Hr (x & Hx & Hs)].
    split; [exact Hr|]. exists x. split; [now right | exact Hs].
Qed.

Lemma lower_append_l (r x : string) :
  Py.lower (r +:+ x) = r +:+ x -> Py.lower r = r.
Proof.
  induction r as [|c r IH]; simpl; [reflexivity|].
  intros H. injection H as Hc Hr. now rewrite Hc, (IH Hr).
Qed.

(** X8.  The symbol [normalizar_simbolo_cripto_legacy] returns for a
    string, the empty string being no key of the price table: with [s]
    the string stripped and in lower case, it returns nothing exactly
    when [s] is empty; otherwise what it returns is not empty, is in
    lower case, and is [s] itself or, for an [s] that is no known
    currency, [s] less one trailing ["-usdt"], ["usdt"], ["-usd"] or
    ["usd"]. *)
Theorem X8_normalizar_simbolo (yahoo : gset string) (bruto : string) :
  (EmptyString ∉ yahoo) ->
  let s := Py.lower (PyStr.strip bruto) in
  match normalizar_simbolo_cripto_legacy yahoo (Some bruto) with
  | None => s = EmptyString
  | Some r =>
      r <> EmptyString
      /\ Py.lower r = r
      /\ (r = s
          \/ ((s ∉ KNOWN_CURRENCIES yahoo)
              /\ exists suf, In suf sufijos /\ s = r +:+ suf))
  end.
Proof.
  intros Hy s. unfold normalizar_simbolo_cripto_legacy. fold s.
  assert (Hs : Py.lower s = s) by apply lower_idem.
  destruct (bool_decide (s ∈ KNOWN_CURRENCIES yahoo)) eqn:Hk.
  - apply bool_decide_eq_true in Hk. repeat split; auto.
    intros E. rewrite E in Hk. unfold KNOWN_CURRENCIES in Hk.
    apply elem_of_union in Hk as [Hk | Hk]; [contradiction|].
    apply elem_of_singleton in Hk. discriminate.
  - apply bool_decide_eq_false in Hk.
    destruct (quitar_sufijo sufijos s) as [r|] eqn:Hq.
    + destruct (quitar_sufijo_some _ _ _ Hq) as [Hr (suf & Hin & Hsuf)].
      split; [exact Hr|]. split.
      * apply (lower_append_l r suf). now rewrite <- Hsuf.
      * right. split; [exact Hk|]. eauto.
    + destruct s; simpl; [reflexivity|].
      split; [discriminate|]. split; [exact Hs | now left].
Qed.

Lemma yahoo_de_prueba_sin_vacia : EmptyString ∉ yahoo_de_prueba.
Proof.
  unfold yahoo_de_prueba. rewrite !elem_of_union, !elem_of_singleton.
  intuition discriminate.
Qed.

Lemma X8_normalizar_simbolo_witness :
  let s := Py.lower (PyStr.strip " PEPE-USDT ") in
  match normalizar_simbolo_cripto_legacy yahoo_de_prueba
          (Some " PEPE-USDT ") with
  | None => s = EmptyString
  | Some r =>
      r <> EmptyString
      /\ Py.lower r = r
      /\ (r = s
          \/ ((s ∉ KNOWN_CURRENCIES yahoo_de_prueba)
              /\ exists suf, In suf sufijos /\ s = r +:+ suf))
  end.
Proof.
  apply (X8_normalizar_simbolo yahoo_de_prueba " PEPE-USDT ").
  exact yahoo_de_prueba_sin_vacia.
Defined.

Example normalizar_pares :
  map (normalizar_simbolo_cripto_legacy yahoo_de_prueba)
      [Some " PEPE-USDT "; Some "solusd"; Some "USDT"; Some "usd";
       Some "   "; None]
  = [Some "pepe"; Some "sol"; Some "usdt"; Some "usd"; None; None].
Proof. vm_compute. reflexivity. Qed.

(** ** Conversion to EUR *)

Lemma normalizar_conocida (yahoo : gset string) (bruto : string) :
  Py.lower (PyStr.strip bruto) ∈ KNOWN_CURRENCIES yahoo ->
  normalizar_simbolo_cripto_legacy yahoo (Some bruto)
  = Some (Py.lower (PyStr.strip bruto)).
Proof.
  intros H. unfold normalizar_simbolo_cripto_legacy.
  now rewrite bool_decide_eq_true_2.
Qed.

Lemma normalizar_eur (yahoo : gset string) (bruto : string) :
  Py.lower (PyStr.strip bruto) = "eur" ->
  normalizar_simbolo_cripto_legacy yahoo (Some bruto) = Some "eur".
Proof.
  intros H. rewrite normalizar_conocida; rewrite H; [reflexivity|].
  unfold KNOWN_CURRENCIES. apply elem_of_union. right.
  now apply elem_of_singleton.
Qed.

(** X9.  [_convertir_a_eur_si_necesario] on an amount that is there: an
    amount in a currency spelt [eur], in any case and with spaces around,
    comes back as it is, and nothing is added to the errors; and for any
    currency, the prices count through the price of ["usd"] on the date
    alone, two price functions that agree on it giving the same value and
    the same errors. *)
Theorem X9_convertir_eur_y_usd (yahoo : gset string) (v : Q)
        (moneda : option string) (fecha_obj : date) (fn fn' : Precios)
        (errores : Errores) (cripto_error : string) :
  (forall bruto, moneda = Some bruto ->
                 Py.lower (PyStr.strip bruto) = "eur" ->
                 _convertir_a_eur_si_necesario
                   yahoo (Some v) moneda fecha_obj fn errores cripto_error
                 = (Some v, errores))
  /\ (fn "usd" fecha_obj = fn' "usd" fecha_obj ->
      _convertir_a_eur_si_necesario
        yahoo (Some v) moneda fecha_obj fn errores cripto_error
      = _convertir_a_eur_si_necesario
          yahoo (Some v) moneda fecha_obj fn' errores cripto_error).
Proof.
  split.
  - intros bruto -> H. unfold _convertir_a_eur_si_necesario.
    rewrite (normalizar_eur yahoo bruto H).
    now rewrite bool_decide_eq_true_2.
  - intros H. unfold _convertir_a_eur_si_necesario. now rewrite H.
Qed.

(** What the conversion does to [errores], in full. *)
Lemma convertir_errores (yahoo : gset string) (valor : option Q)
      (moneda : option string) (fecha_obj : date) (fn : Precios)
      (errores : Errores) (cripto_error : string) :
  let r := _convertir_a_eur_si_necesario
             yahoo valor moneda fecha_obj fn errores cripto_error in
  (r.2 = errores
   \/ (r.1 = None /\ fn "usd" fecha_obj = None
       /\ en_usd_like (normalizar_simbolo_cripto_legacy yahoo moneda) = true
       /\ r.2 = errores ++ [("usd", fecha_obj)]
                ++ (if Py.vacia cripto_error then []
                    else [(cripto_error, fecha_obj)]))).
Proof.
  unfold _convertir_a_eur_si_necesario.
  destruct valor as [v|]; [|now left].
  destruct (bool_decide _); [now left|].
  destruct (en_usd_like _) eqn:E; [|now left].
  destruct (fn "usd" fecha_obj) eqn:Hp; [now left|].
  right. simpl. repeat split.
  destruct (Py.vacia cripto_error); simpl;
    [reflexivity | now rewrite <- app_assoc].
Qed.

(** X10.  [_convertir_a_eur_si_necesario] only ever appends to the
    errors, and only when it returns nothing for a dollar-like currency
    whose rate is missing: then it appends the pair of ["usd"] and the
    date, and after it the pair of the asset named and the date when one
    is named.  For a currency whose symbol is neither ["eur"] nor
    dollar-like it returns nothing and leaves the errors as they
    were. *)
Theorem X10_convertir_errores (yahoo : gset string) (valor : option Q)
        (moneda : option string) (fecha_obj : date) (fn : Precios)
        (errores : Errores) (cripto_error : string) :
  let norm := normalizar_simbolo_cripto_legacy yahoo moneda in
  let r := _convertir_a_eur_si_necesario
             yahoo valor moneda fecha_obj fn errores cripto_error in
  (exists nuevos : Errores,
      r.2 = errores ++ nuevos
      /\ (nuevos = []
          \/ (r.1 = None /\ fn "usd" fecha_obj = None
              /\ en_usd_like norm = true
              /\ nuevos = ("usd", fecha_obj)
                          :: (if Py.vacia cripto_error then []
                              else [(cripto_error, fecha_obj)]))))
  /\ (norm <> Some "eur" -> en_usd_like norm = false ->
      r = (None, errores)).
Proof.
  intros norm r. split.
  - destruct (convertir_errores yahoo valor moneda fecha_obj fn errores
                                cripto_error) as [H | (H1 & H2 & H3 & H4)];
      fold r in H || fold r in H1, H4.
    + exists []. rewrite app_nil_r. auto.
    + eexists. split; [exact H4|]. right. auto.
  - intros Hne Hu. unfold r, _convertir_a_eur_si_necesario. fold norm.
    destruct valor; [|reflexivity].
    rewrite bool_decide_eq_false_2 by exact Hne. now rewrite Hu.
Qed.

Example convertir_usdt_sin_tasa :
  _convertir_a_eur_si_necesario yahoo_de_prueba (Some 100) (Some "USDT")
    (Date 2024 3 5) (fun _ _ => None) [] "btc"
  = (None, [("usd", Date 2024 3 5); ("btc", Date 2024 3 5)]).
Proof. vm_compute. reflexivity. Qed.

(** ** The Koinly transformer *)

Lemma normalizar_minusculas (yahoo : gset string) (x : option string)
      (r : string) :
  normalizar_simbolo_cripto_legacy yahoo x = Some r -> Py.lower r = r.
Proof.
  destruct x as [bruto|]; [|discriminate].
  unfold normalizar_simbolo_cripto_legacy.
  set (s := Py.lower (PyStr.strip bruto)).
  assert (Hs : Py.lower s = s) by apply lower_idem.
  destruct (bool_decide _); [intros H; now inversion H; subst|].
  destruct (quitar_sufijo sufijos s) as [r'|] eqn:Hq.
  - intros H. inversion H; subst r'.
    destruct (quitar_sufijo_some _ _ _ Hq) as [_ (suf & _ & Hsuf)].
    apply (lower_append_l r suf). now rewrite <- Hsuf.
  - destruct (Py.vacia s); [discriminate|].
    intros H. now inversion H; subst.
Qed.

Lemma importe_valido_some (amt : option Q) (cur : option string) (a : Q)
      (c : string) :
  importe_valido amt cur = Some (a, c) ->
  amt = Some a /\ cur = Some c /\ 0 < a /\ c <> EmptyString.
Proof.
  unfold importe_valido. destruct amt as [a'|], cur as [c'|];
    try discriminate.
  destruct (Py.lt 0 a') eqn:Ha; [|discriminate].
  destruct (Py.vacia c') eqn:Hc; [discriminate|]. simpl.
  intros H. inversion H; subst. apply lt_true in Ha.
  repeat split; auto. intros E. now rewrite E in Hc.
Qed.

Lemma koinly_fee_errores (yahoo : gset string) (fn : Precios) (fecha : date)
      (fee_amt : option Q) (fee_cur : option string) (errores : Errores) :
  (koinly_fee yahoo fn fecha fee_amt fee_cur errores).2 = errores
  \/ (fn "usd" fecha = None
      /\ (koinly_fee yahoo fn fecha fee_amt fee_cur errores).2
         = errores ++ [("usd", fecha)]).
Proof.
  unfold koinly_fee. destruct (importe_valido fee_amt fee_cur) as [[a c]|];
    [|now left].
  destruct (fn c fecha); [now left|]. cbn [snd].
  destruct (convertir_errores yahoo (Some a) (Some c) fecha fn errores
                              EmptyString) as [H | (_ & H & _ & H')].
  - left. exact H.
  - right. split; [exact H|]. simpl in H'. exact H'.
Qed.

Lemma koinly_lado_casos (fn : Precios) (fecha : date) (tp : string)
      (amt : option Q) (cur : option string) (fee : Q)
      (st : list Fila * Errores) :
  koinly_lado fn fecha tp amt cur fee st = st
  \/ (exists a c p,
        importe_valido amt cur = Some (a, c) /\ fn c fecha = Some p
        /\ koinly_lado fn fecha tp amt cur fee st
           = (st.1 ++ [mkFila fecha tp c a (a * p) (Some fee)], st.2))
  \/ (exists a c,
        importe_valido amt cur = Some (a, c) /\ fn c fecha = None
        /\ koinly_lado fn fecha tp amt cur fee st
           = (st.1, st.2 ++ [(c, fecha)])).
Proof.
  unfold koinly_lado.
  destruct (importe_valido amt cur) as [[a c]|]; [|now left].
  destruct (fn c fecha) as [p|] eqn:Hp.
  - right; left. exists a, c, p. auto.
  - right; right. exists a, c. auto.
Qed.

Lemma koinly_lado_inv (yahoo : gset string) (fn : Precios) (fecha : date)
      (tp : string) (amt : option Q) (bruto : option string) (fee : Q)
      (st : list Fila * Errores) :
  year fecha = 2024%Z ->
  tp = "Ingreso" \/ tp = "Venta" \/ tp = "Compra" ->
  (tp = "Compra" -> fee = 0) ->
  koinly_inv fn st ->
  koinly_inv fn
    (koinly_lado fn fecha tp amt
                 (normalizar_simbolo_cripto_legacy yahoo bruto) fee st).
Proof.
  intros Hy Htp Hfee [Hp He].
  destruct (koinly_lado_casos fn fecha tp amt
              (normalizar_simbolo_cripto_legacy yahoo bruto) fee st)
    as [-> | [(a & c & p & Hv & Hpr & ->) | (a & c & Hv & Hpr & ->)]].
  - now split.
  - destruct (importe_valido_some _ _ _ _ Hv) as (_ & Hc & Ha & Hne).
    split; [|exact He]. cbn [fst]. apply Forall_app. split; [exact Hp|].
    constructor; [|constructor]. unfold fila_koinly_ok. simpl.
    split; [exact Hy|]. split; [exact Ha|]. split; [exact Hne|].
    split; [now apply (normalizar_minusculas yahoo bruto)|].
    split; [exact Htp|]. split; eauto.
  - split; [exact Hp|]. cbn [snd]. apply Forall_app. split; [exact He|].
    constructor; [|constructor]. split; simpl; auto.
Qed.

Lemma koinly_fila_inv (yahoo : gset string) (fn : Precios)
      (st : list Fila * Errores) (rf : KoinlyFila * date) :
  year rf.2 = 2024%Z -> koinly_inv fn st ->
  koinly_inv fn (koinly_fila yahoo fn st rf).
Proof.
  intros Hy [Hp He]. unfold koinly_fila.
  set (fe := koinly_fee yahoo fn rf.2 (k_fee_amount rf.1)
               (normalizar_simbolo_cripto_legacy yahoo (k_fee_currency rf.1))
               st.2).
  assert (H1 : koinly_inv fn (st.1, fe.2)).
  { split; [exact Hp|]. cbn [snd].
    destruct (koinly_fee_errores yahoo fn rf.2 (k_fee_amount rf.1)
                (normalizar_simbolo_cripto_legacy yahoo
                   (k_fee_currency rf.1)) st.2) as [H | [Hu H]];
      fold fe in H; rewrite H; [exact He|].
    apply Forall_app. split; [exact He|].
    constructor; [|constructor]. split; simpl; auto. }
  match goal with
  | |- koinly_inv fn (if String.eqb ?t "trade" then _ else ?s2) =>
      assert (H2 : koinly_inv fn s2)
  end.
  { destruct (_ && _); [|exact H1].
    apply koinly_lado_inv; auto. intros; discriminate. }
  destruct (String.eqb _ "trade"); [|exact H2].
  apply koinly_lado_inv; auto.
  apply koinly_lado_inv; auto. intros; discriminate.
Qed.

Lemma filas_2024_year (rows : list KoinlyFila) :
  Forall (fun rf : KoinlyFila * date => year rf.2 = 2024%Z) (filas_2024 rows).
Proof.
  induction rows as [|row rows IH]; simpl; [constructor|].
  unfold filas_2024 in *. simpl.
  destruct (k_fecha_dt row) as [d|]; [|exact IH].
  destruct (Z.eqb_spec (year d) 2024); [|exact IH].
  constructor; auto.
Qed.

Lemma koinly_bucle_inv (yahoo : gset string) (fn : Precios)
      (df : list (KoinlyFila * date)) (st : list Fila * Errores) :
  Forall (fun rf : KoinlyFila * date => year rf.2 = 2024%Z) df ->
  koinly_inv fn st ->
  koinly_inv fn (fold_left (koinly_fila yahoo fn) df st).
Proof.
  revert st. induction df as [|rf df IH]; intros st Hy Hst; simpl; auto.
  apply Forall_cons in Hy as [Hrf Hy].
  apply IH; auto. now apply koinly_fila_inv.
Qed.

(** The transformer on a frame that has its date column. *)
Lemma transformar_koinly_ok (yahoo : gset string) (rows : list KoinlyFila)
      (fn : Precios) :
  transformar_koinly_adaptado yahoo (Some rows) fn
  = Ok ((fold_left (koinly_fila yahoo fn) (filas_2024 rows) ([], [])).1,
        list_to_set
          (fold_left (koinly_fila yahoo fn) (filas_2024 rows) ([], [])).2).
Proof.
  unfold transformar_koinly_adaptado.
  destruct (filas_2024 rows); reflexivity.
Qed.

(** X11.  Of a frame that has its date column, the Koinly transformer
    returns rows and errors, and every row it returns is dated in 2024,
    has a positive quantity and a non-empty asset name in lower case, is
    an income, a sale or a purchase, is valued at its quantity times the
    price of its own asset on its own date, and has a fee, which is zero
    on a purchase; every error it returns is a symbol and a date of 2024
    for which there is no price. *)
Theorem X11_koinly_filas_validas (yahoo : gset string)
        (rows : list KoinlyFila) (fn : Precios) :
  exists (procesos : list Fila) (errs : gset (string * date)),
    transformar_koinly_adaptado yahoo (Some rows) fn = Ok (procesos, errs)
    /\ Forall (fila_koinly_ok fn) procesos
    /\ (forall e, e ∈ errs -> error_koinly_ok fn e).
Proof.
  eexists _, _. split; [apply transformar_koinly_ok|].
  destruct (koinly_bucle_inv yahoo fn (filas_2024 rows) ([], []))
    as [Hp He].
  - apply filas_2024_year.
  - split; constructor.
  - split; [exact Hp|]. intros e Hin.
    apply elem_of_list_to_set in Hin.
    rewrite Forall_forall in He. now apply He.
Qed.

Lemma fila_koinly_venta_valida (fn : Precios) (f : Fila) :
  fila_koinly_ok fn f -> venta_valida f = es_tipo "Venta" f.
Proof.
  intros (_ & Hq & Hc & _ & Ht & _). unfold es_tipo.
  destruct (String.eqb_spec (tipo f) "Venta") as [E | E].
  - apply venta_valida_true. repeat split; auto. now left.
  - apply venta_valida_false. intros (_ & _ & [Hv | Hv]); [contradiction|].
    destruct Ht as [Ht | [Ht | Ht]]; congruence.
Qed.

(** X12.  The rows the Koinly transformer returns go through
    [calcular_fifo] without one of them being skipped by its guard:
    under any sort that does what [sort_values] guarantees, the run over
    them returns one record for each sale among them, with the data of
    that sale, and none for the incomes and the purchases. *)
Theorem X12_koinly_al_fifo (yahoo : gset string) (rows : list KoinlyFila)
        (fn : Precios) (sort_values : list Fila -> list Fila) :
  ordena_por_fecha sort_values ->
  exists (procesos : list Fila) (errs : gset (string * date))
         (vs : list Venta),
    transformar_koinly_adaptado yahoo (Some rows) fn = Ok (procesos, errs)
    /\ calcular_fifo sort_values procesos = Some vs
    /\ map datos_venta vs
       = map datos_fila (List.filter (es_tipo "Venta") (sort_values procesos))
    /\ length vs = length (List.filter (es_tipo "Venta") procesos).
Proof.
  intros [Hperm Hsorted].
  set (r := fold_left (koinly_fila yahoo fn) (filas_2024 rows) ([], [])).
  assert (Hok : Forall (fila_koinly_ok fn) r.1).
  { apply (koinly_bucle_inv yahoo fn (filas_2024 rows) ([], []));
      [apply filas_2024_year | split; constructor]. }
  destruct (procesar_filas_total (sort_values r.1) estado_inicial)
    as [st Hst].
  exists r.1, (list_to_set r.2), (ventas st).
  split; [apply transformar_koinly_ok|].
  split; [unfold calcular_fifo; now rewrite Hst|].
  pose proof (procesar_filas_datos _ _ _ Hst) as Hd. simpl in Hd.
  assert (Hf : forall l, Permutation r.1 l ->
                         List.filter venta_valida l
                         = List.filter (es_tipo "Venta") l).
  { intros l Hl. apply List.filter_ext_in. intros f Hin.
    apply (fila_koinly_venta_valida fn).
    rewrite List.Forall_forall in Hok. apply Hok.
    apply (Permutation_in _ (Permutation_sym Hl) Hin). }
  split.
  - rewrite Hd. now rewrite (Hf _ (Hperm r.1)).
  - rewrite <- (length_map datos_venta), Hd, length_map.
    rewrite (Hf _ (Hperm r.1)), <- (Hf r.1 (Permutation_refl _)).
    rewrite <- (Hf _ (Hperm r.1)).
    apply Permutation_length, Permutation_sym, filter_perm, Hperm.
Qed.

Lemma X12_koinly_al_fifo_witness :
  exists (procesos : list Fila) (errs : gset (string * date))
         (vs : list Venta),
    transformar_koinly_adaptado yahoo_de_prueba
      (Some [koinly_trade; koinly_2023]) precios_de_prueba
    = Ok (procesos, errs)
    /\ calcular_fifo ordenar_estable procesos = Some vs
    /\ length vs = length (List.filter (es_tipo "Venta") procesos).
Proof.
  destruct (X12_koinly_al_fifo yahoo_de_prueba [koinly_trade; koinly_2023]
              precios_de_prueba ordenar_estable ordenar_estable_ordena)
    as (procesos & errs & vs & H1 & H2 & _ & H3).
  exists procesos, errs, vs. auto.
Defined.

(** ** No trade is lost without a word *)

Lemma koinly_lado_crece (fn : Precios) (fecha : date) (tp : string)
      (amt : option Q) (cur : option string) (fee : Q)
      (st : list Fila * Errores) :
  exists ps es,
    koinly_lado fn fecha tp amt cur fee st = (st.1 ++ ps, st.2 ++ es).
Proof.
  destruct (koinly_lado_casos fn fecha tp amt cur fee st)
    as [-> | [(a & c & p & _ & _ & ->) | (a & c & _ & _ & ->)]].
  - exists [], []. rewrite !app_nil_r. now destruct st.
  - exists [mkFila fecha tp c a (a * p) (Some fee)], [].
    now rewrite app_nil_r.
  - exists [], [(c, fecha)]. now rewrite app_nil_r.
Qed.

Lemma koinly_fila_crece (yahoo : gset string) (fn : Precios)
      (st : list Fila * Errores) (rf : KoinlyFila * date) :
  exists ps es,
    koinly_fila yahoo fn st rf = (st.1 ++ ps, st.2 ++ es).
Proof.
  unfold koinly_fila.
  set (fe := koinly_fee yahoo fn rf.2 (k_fee_amount rf.1)
               (normalizar_simbolo_cripto_legacy yahoo (k_fee_currency rf.1))
               st.2).
  assert (H1 : exists es, (st.1, fe.2) = (st.1 ++ [], st.2 ++ es)).
  { rewrite app_nil_r.
    destruct (koinly_fee_errores yahoo fn rf.2 (k_fee_amount rf.1)
                (normalizar_simbolo_cripto_legacy yahoo
                   (k_fee_currency rf.1)) st.2) as [H | [_ H]];
      fold fe in H; rewrite H.
    - exists []. now rewrite app_nil_r.
    - eauto. }
  destruct H1 as [es1 H1]. rewrite H1.
  match goal with
  | |- exists ps es, (if String.eqb ?t "trade" then _ else ?s2) = _ =>
      assert (H2 : exists ps es, s2 = (st.1 ++ ps, st.2 ++ es))
  end.
  { destruct (_ && _); [|eauto].
    match goal with
    | |- exists ps es, koinly_lado ?f ?d ?t ?a ?c ?fee ?s = _ =>
        destruct (koinly_lado_crece f d t a c fee s) as (ps & es & ->)
    end.
    cbn [fst snd]. rewrite <- !app_assoc. eauto. }
  destruct H2 as (ps2 & es2 & H2). rewrite H2.
  destruct (String.eqb _ "trade"); [|eauto].
  match goal with
  | |- context [koinly_lado ?f ?d "Venta" ?a ?c ?fee ?s] =>
      destruct (koinly_lado_crece f d "Venta" a c fee s) as (ps3 & es3 & H3);
      rewrite H3
  end.
  match goal with
  | |- context [koinly_lado ?f ?d "Compra" ?a ?c ?fee ?s] =>
      destruct (koinly_lado_crece f d "Compra" a c fee s)
        as (ps4 & es4 & H4);
      rewrite H4
  end.
  cbn [fst snd]. rewrite <- !app_assoc. eauto.
Qed.

Lemma koinly_bucle_crece (yahoo : gset string) (fn : Precios)
      (df : list (KoinlyFila * date)) (st : list Fila * Errores) :
  exists ps es,
    fold_left (koinly_fila yahoo fn) df st = (st.1 ++ ps, st.2 ++ es).
Proof.
  revert st. induction df as [|rf df IH]; intros st; simpl.
  - exists [], []. rewrite !app_nil_r. now destruct st.
  - destruct (koinly_fila_crece yahoo fn st rf) as (ps & es & ->).
    destruct (IH (st.1 ++ ps, st.2 ++ es)) as (ps' & es' & ->).
    cbn [fst snd]. rewrite <- !app_assoc. eauto.
Qed.

Lemma koinly_fila_trade (yahoo : gset string) (fn : Precios)
      (st : list Fila * Errores) (row : KoinlyFila) (d : date) :
  Py.lower (k_type row) = "trade" ->
  exists fee st1,
    koinly_fila yahoo fn st (row, d)
    = koinly_lado fn d "Compra" (k_received_amount row)
        (normalizar_simbolo_cripto_legacy yahoo (k_received_currency row)) 0
        (koinly_lado fn d "Venta" (k_sent_amount row)
           (normalizar_simbolo_cripto_legacy yahoo (k_sent_currency row))
           fee st1).
Proof.
  intros Ht. unfold koinly_fila. cbn [fst snd]. rewrite Ht.
  eexists _, _. reflexivity.
Qed.

Lemma koinly_fila_venta (yahoo : gset string) (fn : Precios)
      (st : list Fila * Errores) (row : KoinlyFila) (d : date) (a : Q)
      (c : string) :
  Py.lower (k_type row) = "trade" ->
  importe_valido (k_sent_amount row)
    (normalizar_simbolo_cripto_legacy yahoo (k_sent_currency row))
  = Some (a, c) ->
  match fn c d with
  | Some p =>
      exists f, In f (koinly_fila yahoo fn st (row, d)).1
                /\ datos_fila f = (d, c, "Venta", a, a * p, fee_de f)
  | None => In (c, d) (koinly_fila yahoo fn st (row, d)).2
  end.
Proof.
  intros Ht Hv.
  destruct (koinly_fila_trade yahoo fn st row d Ht) as (fee & st1 & ->).
  match goal with
  | |- context [koinly_lado ?f ?dd "Compra" ?aa ?cc ?ff ?s] =>
      destruct (koinly_lado_crece f dd "Compra" aa cc ff s)
        as (ps & es & ->)
  end.
  unfold koinly_lado. rewrite Hv. cbn [fst snd].
  destruct (importe_valido_some _ _ _ _ Hv) as (_ & Hc & _ & _).
  destruct (fn c d) as [p|]; cbn [fst snd].
  - eexists. split; [apply in_or_app; left; apply in_or_app; right;
                     left; reflexivity|].
    unfold datos_fila. simpl.
    now rewrite (normalizar_minusculas yahoo _ _ Hc).
  - apply in_or_app. left. apply in_or_app. right. now left.
Qed.

Lemma koinly_fila_compra (yahoo : gset string) (fn : Precios)
      (st : list Fila * Errores) (row : KoinlyFila) (d : date) (a : Q)
      (c : string) :
  Py.lower (k_type row) = "trade" ->
  importe_valido (k_received_amount row)
    (normalizar_simbolo_cripto_legacy yahoo (k_received_currency row))
  = Some (a, c) ->
  match fn c d with
  | Some p =>
      In (mkFila d "Compra" c a (a * p) (Some 0))
         (koinly_fila yahoo fn st (row, d)).1
  | None => In (c, d) (koinly_fila yahoo fn st (row, d)).2
  end.
Proof.
  intros Ht Hv.
  destruct (koinly_fila_trade yahoo fn st row d Ht) as (fee & st1 & ->).
  generalize (koinly_lado fn d "Venta" (k_sent_amount row)
                (normalizar_simbolo_cripto_legacy yahoo
                   (k_sent_currency row)) fee st1).
  intros st3. unfold koinly_lado. rewrite Hv.
  destruct (fn c d) as [p|]; cbn [fst snd]; apply in_or_app; right;
    now left.
Qed.

Lemma filas_2024_in (rows : list KoinlyFila) (row : KoinlyFila) (d : date) :
  In row rows -> k_fecha_dt row = Some d -> year d = 2024%Z ->
  In (row, d) (filas_2024 rows).
Proof.
  intros Hin Hd Hy. induction rows as [|r rows IH]; [contradiction|].
  unfold filas_2024 in *. simpl.
  destruct Hin as [-> | Hin].
  - rewrite Hd, Hy. simpl. now left.
  - destruct (k_fecha_dt r) as [d'|]; [|now apply IH].
    destruct (year d' =? 2024)%Z; [right|]; now apply IH.
Qed.

(** What the loop has after a row stays to the end. *)
Lemma koinly_bucle_tras (yahoo : gset string) (fn : Precios)
      (df : list (KoinlyFila * date)) (rf : KoinlyFila * date) :
  In rf df ->
  exists st ps es,
    fold_left (koinly_fila yahoo fn) df ([], [])
    = ((koinly_fila yahoo fn st rf).1 ++ ps,
       (koinly_fila yahoo fn st rf).2 ++ es).
Proof.
  intros Hin. apply in_split in Hin as (l1 & l2 & ->).
  rewrite fold_left_app. simpl.
  set (st := fold_left (koinly_fila yahoo fn) l1 ([], [])).
  destruct (koinly_bucle_crece yahoo fn l2 (koinly_fila yahoo fn st rf))
    as (ps & es & ->).
  eauto.
Qed.

(** X13.  No trade of 2024 is lost without a word.  For a row of the
    frame dated in 2024 whose type is a trade: when the amount sent is
    positive and its currency has a symbol, the rows returned hold a sale
    of that symbol, date and amount, valued at the amount times the price,
    if there is a price for the symbol on the date, and the errors hold
    the symbol and the date if there is none; likewise for the amount
    received, with a purchase whose fee is zero. *)
Theorem X13_koinly_trade_contado (yahoo : gset string)
        (rows : list KoinlyFila) (fn : Precios) (row : KoinlyFila)
        (d : date) :
  In row rows -> k_fecha_dt row = Some d -> year d = 2024%Z ->
  Py.lower (k_type row) = "trade" ->
  exists (procesos : list Fila) (errs : gset (string * date)),
    transformar_koinly_adaptado yahoo (Some rows) fn = Ok (procesos, errs)
    /\ (forall a c,
           importe_valido (k_sent_amount row)
             (normalizar_simbolo_cripto_legacy yahoo (k_sent_currency row))
           = Some (a, c) ->
           match fn c d with
           | Some p =>
               exists f, In f procesos
                         /\ datos_fila f
                            = (d, c, "Venta", a, a * p, fee_de f)
           | None => (c, d) ∈ errs
           end)
    /\ (forall a c,
           importe_valido (k_received_amount row)
             (normalizar_simbolo_cripto_legacy yahoo
                (k_received_currency row))
           = Some (a, c) ->
           match fn c d with
           | Some p => In (mkFila d "Compra" c a (a * p) (Some 0)) procesos
           | None => (c, d) ∈ errs
           end).
Proof.
  intros Hin Hd Hy Ht.
  eexists _, _. split; [apply transformar_koinly_ok|].
  destruct (koinly_bucle_tras yahoo fn (filas_2024 rows) (row, d))
    as (st & ps & es & ->); [now apply filas_2024_in|].
  cbn [fst snd]. split; intros a c Hv.
  - pose proof (koinly_fila_venta yahoo fn st row d a c Ht Hv) as H.
    destruct (fn c d) as [p|].
    + destruct H as (f & Hf & Hdatos). exists f. split; [|exact Hdatos].
      apply in_or_app. now left.
    + apply elem_of_list_to_set, list_elem_of_In, in_or_app. now left.
  - pose proof (koinly_fila_compra yahoo fn st row d a c Ht Hv) as H.
    destruct (fn c d) as [p|].
    + apply in_or_app. now left.
    + apply elem_of_list_to_set, list_elem_of_In, in_or_app. now left.
Qed.

Lemma X13_koinly_trade_contado_witness :
  exists (procesos : list Fila) (errs : gset (string * date)),
    transformar_koinly_adaptado yahoo_de_prueba
      (Some [koinly_2023; koinly_trade]) precios_de_prueba
    = Ok (procesos, errs)
    /\ (exists f, In f procesos
                  /\ datos_fila f
                     = (Date 2024 3 5, "btc", "Venta", 0.5, 0.5 * 50000,
                        fee_de f))
    /\ ("usdt", Date 2024 3 5) ∈ errs.
Proof.
  destruct (X13_koinly_trade_contado yahoo_de_prueba
              [koinly_2023; koinly_trade] precios_de_prueba koinly_trade
              (Date 2024 3 5))
    as (procesos & errs & Hrun & Hsent & Hrecv).
  - right. left. reflexivity.
  - reflexivity.
  - reflexivity.
  - reflexivity.
  - exists procesos, errs. split; [exact Hrun|]. split.
    + apply (Hsent 0.5 "btc"). vm_compute. reflexivity.
    + apply (Hrecv 30000 "usdt"). vm_compute. reflexivity.
Defined.

(** * Properties of the figures shown by the application *)

(** ** [extraer_cuota] *)

(** X15.  From the frame returned by [calcular_irpf_ganancias] and from
    the one returned by [calcular_irpf_ingresos], [extraer_cuota] takes
    the estimated tax and not the base or the total; from a pair it takes
    the second component, and from a frame without rows or from any other
    object it gives 0. *)
Theorem X15_extraer_cuota (df_ganancias : list Venta)
        (df_ingresos : option (list Q)) (a cuota : Q) :
  extraer_cuota (marco_ganancias (calcular_irpf_ganancias df_ganancias))
  = Some (irpf_ganancias_eur (calcular_irpf_ganancias df_ganancias))
  /\ extraer_cuota (marco_ingresos (calcular_irpf_ingresos df_ingresos))
     = Some (irpf_ingresos_eur (calcular_irpf_ingresos df_ingresos))
  /\ extraer_cuota (Tupla a cuota) = Some cuota
  /\ extraer_cuota SinFilas = Some 0
  /\ extraer_cuota (Marco []) = Some 0
  /\ extraer_cuota Otro = Some 0.
Proof. repeat split; reflexivity. Qed.

(** The first column whose name has [irpf] in it, in any case of the
    letters, is the one read, also when its cell is a missing number. *)
Example extraer_cuota_primera_columna :
  extraer_cuota marco_mayusculas = None.
Proof. reflexivity. Qed.

(** ** The net gain *)

Lemma sum_map_ext {A : Type} (f g : A -> Q) (l : list A) :
  (forall x, In x l -> f x == g x) ->
  Py.sum (map f l) == Py.sum (map g l).
Proof.
  induction l as [|x l IH]; intros H; [reflexivity|].
  simpl map. rewrite !sum_cons.
  rewrite (H x (or_introl eq_refl)), IH; [reflexivity|].
  intros y Hy. apply H. now right.
Qed.

Lemma sum_map_plus {A : Type} (f g : A -> Q) (l : list A) :
  Py.sum (map (fun x => f x + g x) l)
  == Py.sum (map f l) + Py.sum (map g l).
Proof.
  induction l as [|x l IH]; [unfold Py.sum; simpl; lra|].
  simpl map. rewrite !sum_cons, IH. lra.
Qed.

Lemma sum_map_cero {A : Type} (f : A -> Q) (l : list A) :
  (forall x, In x l -> f x == 0) -> Py.sum (map f l) == 0.
Proof.
  induction l as [|x l IH]; intros H; [reflexivity|].
  simpl map. rewrite sum_cons, (H x (or_introl eq_refl)), IH; [lra|].
  intros y Hy. apply H. now right.
Qed.

Lemma sum_filter_partes {A : Type} (p : A -> bool) (f : A -> Q)
      (l : list A) :
  Py.sum (map f l)
  == Py.sum (map f (List.filter p l))
     + Py.sum (map f (List.filter (fun x => negb (p x)) l)).
Proof.
  induction l as [|x l IH]; [unfold Py.sum; simpl; lra|].
  simpl. destruct (p x); simpl; rewrite !sum_cons, IH; lra.
Qed.

(** A sum over the keys of a term that is there at one key only. *)
Lemma sum_en_clave (k : string) (x : Q) (ks : list string) :
  List.NoDup ks -> In k ks ->
  Py.sum (map (fun c => if String.eqb k c then x else 0) ks) == x.
Proof.
  induction 1 as [|c ks Hc Hnd IH]; intros Hin; [destruct Hin|].
  simpl map. rewrite sum_cons.
  destruct (String.eqb k c) eqn:Hk.
  - apply String.eqb_eq in Hk. subst c.
    rewrite sum_map_cero; [lra|].
    intros c' Hc'. destruct (String.eqb k c') eqn:Hk'; [|reflexivity].
    apply String.eqb_eq in Hk'. subst c'. contradiction.
  - destruct Hin as [->|Hin].
    + rewrite String.eqb_refl in Hk. discriminate.
    + rewrite (IH Hin). lra.
Qed.

(** A sum over the rows is the sum over the assets of the sums over the
    rows of each asset. *)
Lemma sum_por_cripto (h : Venta -> Q) (ks : list string) (l : list Venta) :
  List.NoDup ks ->
  (forall v, In v l -> In (v_cripto v) ks) ->
  Py.sum (map h l)
  == Py.sum (map (fun c =>
                    Py.sum (map h (List.filter
                                     (fun v => String.eqb (v_cripto v) c) l)))
                 ks).
Proof.
  intros Hnd. induction l as [|v l IH]; intros Hin.
  - simpl. symmetry. apply sum_map_cero. reflexivity.
  - simpl map at 1. rewrite sum_cons.
    rewrite (sum_map_ext _
               (fun c => (if String.eqb (v_cripto v) c then h v else 0)
                         + Py.sum (map h (List.filter
                                            (fun v' => String.eqb (v_cripto v') c)
                                            l)))).
    + rewrite sum_map_plus, sum_en_clave, <- IH; auto.
      * reflexivity.
      * intros v' Hv'. apply Hin. now right.
      * apply Hin. now left.
    + intros c _. simpl. destruct (String.eqb (v_cripto v) c).
      * simpl map. now rewrite sum_cons.
      * lra.
Qed.

(** Of the rows taken out, those of one asset are all its rows if its
    total is 0, and none otherwise. *)
Lemma filter_no_validas (df : list Venta) (c : string) (l : list Venta) :
  List.filter (fun v => String.eqb (v_cripto v) c)
              (List.filter (fun v => negb (en_validas df v)) l)
  = if Qeq_bool (total_de c df) 0
    then List.filter (fun v => String.eqb (v_cripto v) c) l
    else [].
Proof.
  induction l as [|v l IH].
  - simpl. now destruct (Qeq_bool (total_de c df) 0).
  - simpl. unfold en_validas at 1. rewrite negb_involutive.
    destruct (String.eqb (v_cripto v) c) eqn:Hc.
    + apply String.eqb_eq in Hc. rewrite Hc.
      destruct (Qeq_bool (total_de c df) 0) eqn:Hz.
      * simpl. rewrite <- Hc at 1. rewrite String.eqb_refl.
        now rewrite IH.
      * exact IH.
    + destruct (Qeq_bool (total_de (v_cripto v) df) 0); [|exact IH].
      simpl. rewrite Hc. exact IH.
Qed.

Lemma sum_no_validas (df : list Venta) :
  Py.sum (map ganancia_perdida_eur
              (List.filter (fun v => negb (en_validas df v)) df)) == 0.
Proof.
  rewrite (sum_por_cripto _ (List.nodup string_dec (map v_cripto df))).
  - apply sum_map_cero. intros c _. rewrite filter_no_validas.
    destruct (Qeq_bool (total_de c df) 0) eqn:Hz; [|reflexivity].
    apply Qeq_bool_iff in Hz. exact Hz.
  - apply List.NoDup_nodup.
  - intros v Hv. apply List.nodup_In, in_map.
    apply List.filter_In in Hv. tauto.
Qed.

(** X16.  When [calcular_fifo] has recorded a disposal, the net gain that
    [main] shows, from which the rows of the assets whose gains add up to
    0 are taken out, is the sum of the gains of all the records, so that
    the tax base of [calcular_irpf_ganancias] is this figure rounded to
    the cent. *)
Theorem X16_ganancia_neta (df_resultados : list Venta) :
  df_resultados <> [] ->
  exists g : Q,
    ganancia_neta df_resultados = Some g
    /\ g == Py.sum (map ganancia_perdida_eur df_resultados)
    /\ base_imponible_eur (calcular_irpf_ganancias df_resultados)
       == Py.round2 g.
Proof.
  intros Hne.
  assert (Hg : Py.sum (map ganancia_perdida_eur
                           (List.filter (en_validas df_resultados)
                                        df_resultados))
               == Py.sum (map ganancia_perdida_eur df_resultados)).
  { rewrite (sum_filter_partes (en_validas df_resultados)
               ganancia_perdida_eur df_resultados).
    rewrite sum_no_validas. lra. }
  exists (Py.sum (map ganancia_perdida_eur
                      (List.filter (en_validas df_resultados)
                                   df_resultados))).
  split; [destruct df_resultados; [contradiction|reflexivity]|].
  split; [exact Hg|].
  unfold calcular_irpf_ganancias. cbn [base_imponible_eur].
  apply round2_comp. rewrite Hg.
  destruct df_resultados; [contradiction|reflexivity].
Qed.

Lemma X16_ganancia_neta_witness :
  exists g : Q,
    ganancia_neta [venta_con_ganancia 250; venta_con_ganancia (-250);
                   venta_con_ganancia 0]
    = Some g
    /\ g == 0.
Proof.
  destruct (X16_ganancia_neta [venta_con_ganancia 250;
                               venta_con_ganancia (-250);
                               venta_con_ganancia 0])
    as (g & Hg & Hs & _); [discriminate|].
  exists g. split; [exact Hg|]. rewrite Hs. vm_compute. reflexivity.
Defined.

(** Without a disposal there is no frame to take the columns from. *)
Example ganancia_neta_sin_ventas : ganancia_neta [] = None.
Proof. reflexivity. Qed.

(** * Further properties: rows without effect, records without lots *)

(** ** Koinly rows that are neither trades nor income *)

Lemma koinly_fila_sin_operacion (yahoo : gset string) (fn : Precios)
      (st : list Fila * Errores) (row : KoinlyFila) (d : date) :
  da_filas row = false ->
  (koinly_fila yahoo fn st (row, d)).1 = st.1
  /\ ((koinly_fila yahoo fn st (row, d)).2 = st.2
      \/ (fn "usd" d = None
          /\ (koinly_fila yahoo fn st (row, d)).2 = st.2 ++ [("usd", d)])).
Proof.
  unfold da_filas. intros H.
  apply orb_false_iff in H as [Ht Hr].
  unfold koinly_fila. cbn [fst snd]. rewrite Ht, Hr. cbn [fst snd].
  split; [reflexivity|]. apply koinly_fee_errores.
Qed.

Lemma koinly_bucle_sin_operacion (yahoo : gset string) (fn : Precios)
      (df : list (KoinlyFila * date)) (st : list Fila * Errores) :
  Forall (fun rf : KoinlyFila * date => da_filas rf.1 = false) df ->
  Forall (fun e : string * date => e.1 = "usd" /\ fn "usd" e.2 = None)
         st.2 ->
  (fold_left (koinly_fila yahoo fn) df st).1 = st.1
  /\ Forall (fun e : string * date => e.1 = "usd" /\ fn "usd" e.2 = None)
            (fold_left (koinly_fila yahoo fn) df st).2.
Proof.
  revert st. induction df as [|[row d] df IH]; intros st Hdf Hst; simpl;
    [auto|].
  apply Forall_cons in Hdf as [Hrow Hdf]. cbn [fst] in Hrow.
  destruct (koinly_fila_sin_operacion yahoo fn st row d Hrow) as [H1 H2].
  destruct (IH (koinly_fila yahoo fn st (row, d)) Hdf) as [H3 H4].
  - destruct H2 as [-> | [Hu ->]]; [exact Hst|].
    apply Forall_app. split; [exact Hst|]. constructor; [|constructor].
    split; [reflexivity | exact Hu].
  - split; [now rewrite H3 | exact H4].
Qed.

Lemma filas_2024_sin_operacion (rows : list KoinlyFila) :
  Forall (fun row => en_2024 row = true -> da_filas row = false) rows ->
  Forall (fun rf : KoinlyFila * date => da_filas rf.1 = false)
         (filas_2024 rows).
Proof.
  unfold filas_2024, en_2024.
  induction 1 as [|row rows Hrow _ IH]; simpl; [constructor|].
  destruct (k_fecha_dt row) as [d|]; [|exact IH].
  destruct (year d =? 2024)%Z; [|exact IH].
  constructor; [|exact IH]. cbn [fst]. now apply Hrow.
Qed.

(** X18.  Koinly rows that are neither trades nor receipts labelled as
    income give nothing to the ledger: of a frame whose rows of 2024 are
    all of other kinds, transfers in and out among them, the transformer
    returns no row; the only errors it can return are for the rate of
    ["usd"], missing on a date when a fee had to be converted. *)
Theorem X18_koinly_sin_operacion (yahoo : gset string)
        (rows : list KoinlyFila) (fn : Precios) :
  Forall (fun row => en_2024 row = true -> da_filas row = false) rows ->
  exists errs : gset (string * date),
    transformar_koinly_adaptado yahoo (Some rows) fn = Ok ([], errs)
    /\ (forall e, e ∈ errs -> e.1 = "usd" /\ fn "usd" e.2 = None).
Proof.
  intros H. rewrite transformar_koinly_ok.
  destruct (koinly_bucle_sin_operacion yahoo fn (filas_2024 rows) ([], [])
              (filas_2024_sin_operacion rows H)) as [H1 H2];
    [constructor|].
  eexists. split; [rewrite H1; reflexivity|].
  intros e He. apply elem_of_list_to_set in He.
  apply list_elem_of_In in He.
  exact (proj1 (List.Forall_forall _ _) H2 e He).
Qed.

Lemma X18_koinly_sin_operacion_witness :
  exists errs : gset (string * date),
    transformar_koinly_adaptado yahoo_de_prueba
      (Some [koinly_envio; koinly_2023; koinly_recibo]) (fun _ _ => None)
    = Ok ([], errs)
    /\ (forall e, e ∈ errs -> e.1 = "usd").
Proof.
  destruct (X18_koinly_sin_operacion yahoo_de_prueba
              [koinly_envio; koinly_2023; koinly_recibo] (fun _ _ => None))
    as (errs & Hrun & Herr).
  - repeat constructor; vm_compute; congruence.
  - exists errs. split; [exact Hrun|]. intros e He. exact (proj1 (Herr e He)).
Defined.

(** ** Records without source lots *)

Lemma length_append_str (a b : string) :
  String.length (a +:+ b) = (String.length a + String.length b)%nat.
Proof. induction a as [|c a IH]; simpl; [reflexivity | now rewrite IH]. Qed.

Lemma length_ceros (k : nat) : String.length (Py.ceros k) = k.
Proof. induction k as [|k IH]; simpl; [reflexivity | now rewrite IH]. Qed.

Lemma length_fmt_f (n : nat) (x : Q) :
  (n <= String.length (Py.fmt_f n x))%nat.
Proof.
  unfold Py.fmt_f, Py.zfill.
  rewrite !length_append_str, length_ceros. lia.
Qed.

Lemma length_lote_info (t : Q) (l : Lote) :
  (8 <= String.length (lote_info t l))%nat.
Proof.
  unfold lote_info. rewrite length_append_str.
  pose proof (length_fmt_f 8 t). lia.
Qed.

Lemma length_concat (sep x : string) (l : list string) :
  (String.length x <= String.length (String.concat sep (x :: l)))%nat.
Proof.
  destruct l as [|y l]; simpl; [lia|].
  rewrite length_append_str. lia.
Qed.

(** A trace with an entry is never shown as ["N/A"]. *)
Lemma lotes_origen_con_lote (t : Q) (l : Lote) (info : list string) :
  lotes_origen (lote_info t l :: info) <> "N/A".
Proof.
  unfold lotes_origen, Py.join.
  pose proof (length_concat "; " (lote_info t l) info) as H1.
  pose proof (length_lote_info t l) as H2.
  destruct (String.concat "; " (lote_info t l :: info)) as [|c s] eqn:E.
  - simpl in H1. lia.
  - cbn [Py.vacia]. intros Hna. rewrite Hna in H1. simpl in H1. lia.
Qed.

(** The loop only appends to the trace. *)
Lemma consumir_fifo_info (fuel : nat) (c c' : Consumo) :
  consumir_fifo fuel c = Some c' ->
  exists mas, lotes_info c' = lotes_info c ++ mas.
Proof.
  revert c. induction fuel as [|fuel IH]; intros c H; simpl in H.
  - destruct (cola c); [|destruct (Py.lt 0 (restante c)); [discriminate|]];
      injection H as <-; exists []; now rewrite app_nil_r.
  - destruct (cola c) as [|lote resto].
    + injection H as <-. exists []. now rewrite app_nil_r.
    + destruct (Py.lt 0 (restante c)).
      * apply IH in H as [mas H]. cbn [consumir_lote lotes_info] in H.
        rewrite <- app_assoc in H. eauto.
      * injection H as <-. exists []. now rewrite app_nil_r.
Qed.

(** X17.  From any state, the record of a sale or donation that passes
    the guard shows ["N/A"] for its source lots exactly when the queue of
    the asset is empty, that is, when nothing was bought before under
    that name or all of it is used up; the record then has an acquisition
    cost of 0, and its gain is the whole net value. *)
Theorem X17_sin_lotes_origen (st : Estado) (f : Fila) :
  es_venta f -> 0 < cantidad f -> cripto f <> EmptyString ->
  let cr := Py.lower (cripto f) in
  exists (st' : Estado) (v : Venta),
    procesar_fila st f = Some st'
    /\ ventas st' = ventas st ++ [v]
    /\ (lotes_origen_info v = "N/A" <-> cola_de (colas st) cr = [])
    /\ (cola_de (colas st) cr = [] ->
        coste_adquisicion_total_eur v = 0
        /\ ganancia_perdida_eur v == valor_eur f - fee_de f).
Proof.
  intros Hv Hq Hc cr.
  destruct (consumir_fifo_total (length (cola_de (colas st) cr))
              (mkConsumo (cantidad f) 0 [] (cola_de (colas st) cr)))
    as [c Hloop]; [simpl; lia|].
  pose proof (procesar_fila_venta st f c Hq Hc Hv Hloop) as Hst.
  eexists _, _. split; [exact Hst|]. split; [reflexivity|].
  fold cr. unfold registro_venta.
  cbn [lotes_origen_info coste_adquisicion_total_eur ganancia_perdida_eur].
  destruct (cola_de (colas st) cr) as [|lote resto] eqn:Hcola.
  - simpl in Hloop. injection Hloop as <-. cbn [lotes_info coste_adq].
    split; [split; reflexivity|]. intros _. split; [reflexivity | lra].
  - cbn [length] in Hloop.
    rewrite (consumir_fifo_paso (length resto)
               (mkConsumo (cantidad f) 0 [] (lote :: resto)) lote resto
               eq_refl Hq) in Hloop.
    apply consumir_fifo_info in Hloop as [mas Hinfo].
    cbn [consumir_lote lotes_info app] in Hinfo. rewrite Hinfo.
    split; [|discriminate].
    split; [|discriminate].
    intros Hna. exfalso. exact (lotes_origen_con_lote _ _ _ Hna).
Qed.

Lemma X17_sin_lotes_origen_witness :
  exists (st' : Estado) (v : Venta),
    procesar_fila estado_inicial fila_venta_4 = Some st'
    /\ ventas st' = [v]
    /\ lotes_origen_info v = "N/A"
    /\ coste_adquisicion_total_eur v = 0.
Proof.
  destruct (X17_sin_lotes_origen estado_inicial fila_venta_4)
    as (st' & v & Hst & Hvs & Hna & Hcero).
  - left. reflexivity.
  - vm_compute. reflexivity.
  - discriminate.
  - exists st', v. split; [exact Hst|]. split; [exact Hvs|].
    split; [apply Hna; reflexivity | apply Hcero; reflexivity].
Defined.

(** * Asset names in lower case *)

(** C10.  Asset names are matched in lower case.  For ASCII names: a
    purchase is filed at the end of the queue kept under the lower-case
    form of its asset name, and a sale or donation whose name has the
    same lower-case form, whatever its spelling, is matched against that
    very queue, the lot just bought included; the record it appends
    carries the lower-case name, and the queues of all other lower-case
    names stay as they were.  Two spellings of one lower-case form are
    processed alike, and the records of a whole run carry, in the order
    of the sorted rows, the lower-case names of the sales and donations
    that pass the guard. *)
Theorem C10_cripto_en_minusculas (st : Estado) (fc fv : Fila) :
  es_ascii (cripto fc) = true -> es_ascii (cripto fv) = true ->
  Py.lower (cripto fv) = Py.lower (cripto fc) ->
  tipo fc = "Compra" -> es_venta fv ->
  0 < cantidad fc -> 0 < cantidad fv ->
  cripto fc <> EmptyString -> cripto fv <> EmptyString ->
  let cr := Py.lower (cripto fc) in
  let q := cola_de (colas st) cr ++ [lote_de fc] in
  (exists (st1 st2 : Estado) (c : Consumo),
      procesar_fila st fc = Some st1
      /\ cola_de (colas st1) cr = q
      /\ consumir_fifo (length q) (mkConsumo (cantidad fv) 0 [] q) = Some c
      /\ procesar_fila st1 fv = Some st2
      /\ ventas st2 = ventas st ++ [registro_venta fv cr c]
      /\ v_cripto (registro_venta fv cr c) = cr
      /\ cola_de (colas st2) cr = cola c
      /\ (forall cr', cr' <> cr ->
                      cola_de (colas st2) cr' = cola_de (colas st) cr'))
  /\ (forall (s : Estado) (c' : string),
         es_ascii c' = true -> Py.lower c' = cr ->
         procesar_fila s (con_cripto c' fv) = procesar_fila s fv)
  /\ (forall (sort_values : list Fila -> list Fila) (df : list Fila),
         ordena_por_fecha sort_values ->
         Forall (fun f => es_ascii (cripto f) = true) df ->
         exists vs : list Venta,
           calcular_fifo sort_values df = Some vs
           /\ map v_cripto vs
              = map (fun f => Py.lower (cripto f))
                    (List.filter venta_valida (sort_values df))).
Proof.
  intros _ _ Hcr Htc Htv Hqc Hqv Hcc Hcv cr q.
  split; [|split].
  - pose proof (procesar_fila_compra st fc Hqc Hcc Htc) as H1.
    fold cr in H1. fold q in H1.
    set (st1 := mkEstado (<[cr := q]> (colas st)) (ventas st)) in *.
    assert (Hq1 : cola_de (colas st1) (Py.lower (cripto fv)) = q).
    { rewrite Hcr. fold cr. apply cola_de_insert. }
    destruct (consumir_fifo_total (length q)
                (mkConsumo (cantidad fv) 0 [] q)) as [c Hloop];
      [simpl; lia|].
    assert (Hloop1 :
              consumir_fifo
                (length (cola_de (colas st1) (Py.lower (cripto fv))))
                (mkConsumo (cantidad fv) 0 []
                           (cola_de (colas st1) (Py.lower (cripto fv))))
              = Some c).
    { rewrite Hq1. exact Hloop. }
    pose proof (procesar_fila_venta st1 fv c Hqv Hcv Htv Hloop1) as H2.
    rewrite Hcr in H2. fold cr in H2.
    exists st1, (mkEstado (<[cr := cola c]> (colas st1))
                          (ventas st1 ++ [registro_venta fv cr c])), c.
    split; [exact H1|].
    split; [apply cola_de_insert|]. split; [exact Hloop|].
    split; [exact H2|]. cbn [ventas colas]. split; [reflexivity|].
    split; [reflexivity|]. split; [apply cola_de_insert|].
    intros cr' Hne. unfold st1. cbn [colas].
    rewrite !cola_de_insert_ne by congruence. reflexivity.
  - intros s c' _ Hc'. unfold procesar_fila.
    cbn [cripto cantidad tipo con_cripto]. rewrite Hc'. unfold cr.
    rewrite <- Hcr. reflexivity.
  - intros sort_values df _ _.
    destruct (procesar_filas_total (sort_values df) estado_inicial)
      as [s Hs].
    exists (ventas s). unfold calcular_fifo. rewrite Hs.
    split; [reflexivity|].
    pose proof (procesar_filas_datos _ _ _ Hs) as Hd. simpl in Hd.
    apply (f_equal (map (fun t : date * string * string * Q * Q * Q =>
                           t.1.1.1.1.2))) in Hd.
    rewrite !map_map in Hd. exact Hd.
Qed.

Lemma C10_cripto_en_minusculas_witness :
  exists (st1 st2 : Estado) (v : Venta),
    procesar_fila estado_inicial fila_compra_BTC = Some st1
    /\ procesar_fila st1 fila_venta_btc = Some st2
    /\ ventas st2 = [v]
    /\ v_cripto v = "btc"
    /\ nota v = EmptyString
    /\ lotes_origen_info v = "1.00000000@2024-01-10@100.00"
    /\ cola_de (colas st2) "btc" = [].
Proof.
  destruct (C10_cripto_en_minusculas estado_inicial fila_compra_BTC
              fila_venta_btc)
    as [(st1 & st2 & c & H1 & _ & Hloop & H2 & Hv & _ & Hq & _) _];
    try reflexivity; try discriminate.
  - left. reflexivity.
  - vm_compute in Hloop. injection Hloop as <-.
    exists st1, st2. eexists. split; [exact H1|]. split; [exact H2|].
    split; [exact Hv|]. split; [reflexivity|].
    split; [reflexivity|]. split; [vm_compute; reflexivity|]. exact Hq.
Defined.

(** A unit bought as [BTC] and sold as [btc] is matched with its lot. *)
Example compra_BTC_venta_btc :
  map (fun v => (v_cripto v, nota v, lotes_origen_info v))
    <$> calcular_fifo ordenar_estable [fila_compra_BTC; fila_venta_btc]
  = Some [("btc", "", "1.00000000@2024-01-10@100.00")].
Proof. vm_compute. reflexivity. Qed.

(** * The run and the memory of its caller *)

Lemma nuevo_libre (m : Mem) : m !! nuevo m = None.
Proof. apply not_elem_of_dom. unfold nuevo. apply is_fresh. Qed.

Lemma map_fila_de_con_fecha (filas : list FilaDada) :
  map fila_de (map con_fecha filas) = map fila_de filas.
Proof. rewrite map_map. apply map_ext. now intros []. Qed.

(** The call on a frame that is there. *)
Lemma calcular_fifo_en_eq (sort_values : list Fila -> list Fila) (m : Mem)
      (l : positive) (filas : list FilaDada) :
  m !! l = Some filas ->
  calcular_fifo_en sort_values m l
  = (fun vs => (<[nuevo m := map con_fecha filas]> m, vs))
      <$> calcular_fifo sort_values (map fila_de filas).
Proof.
  intros H. unfold calcular_fifo_en, calcular_fifo, Mem in *. rewrite H.
  rewrite !lookup_insert_eq. cbn [default id]. unfold id.
  rewrite insert_insert_eq, map_fila_de_con_fecha.
  now destruct (procesar_filas estado_inicial
                  (sort_values (map fila_de filas))).
Qed.

(** C9.  A call on a frame object returns, and the records it returns
    are those of the rows the object holds.  The call writes into its own
    copy only: every frame the caller holds is afterwards what it was,
    the one handed over included, also when its dates carry a time of
    day; so a second call on the same object, in the memory the first one
    left, returns the same records, and so does a call on any object
    that holds the same rows, in any memory.  [colas] and [ventas] are
    made anew by each call. *)
Theorem C9_calcular_fifo_determinista (sort_values : list Fila -> list Fila)
        (m : Mem) (l : positive) (filas : list FilaDada) :
  m !! l = Some filas ->
  exists (m' : Mem) (vs : list Venta),
    calcular_fifo_en sort_values m l = Some (m', vs)
    /\ calcular_fifo sort_values (map fila_de filas) = Some vs
    /\ (forall l0 x, m !! l0 = Some x -> m' !! l0 = Some x)
    /\ (exists m'' : Mem,
           calcular_fifo_en sort_values m' l = Some (m'', vs))
    /\ (forall (m2 : Mem) (l2 : positive),
           m2 !! l2 = Some filas ->
           exists m2' : Mem,
             calcular_fifo_en sort_values m2 l2 = Some (m2', vs)).
Proof.
  intros H.
  destruct (procesar_filas_total (sort_values (map fila_de filas))
              estado_inicial) as [st Hst].
  assert (Hrun : calcular_fifo sort_values (map fila_de filas)
                 = Some (ventas st)).
  { unfold calcular_fifo. now rewrite Hst. }
  assert (Hen : forall m0 l0, m0 !! l0 = Some filas ->
                  calcular_fifo_en sort_values m0 l0
                  = Some (<[nuevo m0 := map con_fecha filas]> m0,
                          ventas st)).
  { intros m0 l0 H0. rewrite (calcular_fifo_en_eq _ _ _ _ H0), Hrun.
    reflexivity. }
  assert (Hm : forall l0 x, m !! l0 = Some x ->
                 <[nuevo m := map con_fecha filas]> m !! l0 = Some x).
  { intros l0 x Hx. pose proof (nuevo_libre m) as Hn. unfold Mem in *.
    rewrite lookup_insert_ne; [exact Hx|].
    intros E. rewrite <- E, Hn in Hx. discriminate. }
  eexists _, _. split; [apply (Hen m l H)|].
  split; [exact Hrun|]. split; [exact Hm|]. split.
  - eexists. apply Hen. apply Hm. exact H.
  - intros m2 l2 H2. eexists. apply (Hen m2 l2 H2).
Qed.

Lemma C9_calcular_fifo_determinista_witness :
  exists (m' : Mem) (vs : list Venta),
    calcular_fifo_en ordenar_estable mem_de_prueba 1%positive = Some (m', vs)
    /\ m' !! 1%positive = Some [fila_con_hora]
    /\ exists m'' : Mem,
         calcular_fifo_en ordenar_estable m' 1%positive = Some (m'', vs).
Proof.
  destruct (C9_calcular_fifo_determinista ordenar_estable mem_de_prueba
              1%positive [fila_con_hora])
    as (m' & vs & Hrun & _ & Hm & Hdos & _).
  - reflexivity.
  - exists m', vs. split; [exact Hrun|]. split; [|exact Hdos].
    apply Hm. reflexivity.
Defined.

(** The frame the call writes into has lost the time of day: it is the
    copy, at a new address. *)
Example copia_sin_hora :
  (fun r => r.1 !! nuevo mem_de_prueba)
    <$> calcular_fifo_en ordenar_estable mem_de_prueba 1%positive
  = Some (Some [con_fecha fila_con_hora]).
Proof. vm_compute. reflexivity. Qed.
